(** * thedoobot: the transaction-email parser and the dinger poller

    A shallow embedding of [transactions/email.py] and [dingers/main.py].

    Text is a [string] whose characters are read as code points below 256;
    the character classes ([\s], [\w], [\d]) and [str.lower] are the ones
    Python applies to those code points.  Regular expressions are kept as
    syntax and run by one backtracking matcher, so that every pattern of the
    source appears here as written. *)

From Stdlib Require Import Ascii List ZArith Lia Bool Arith.
From Stdlib Require String.
Set Warnings "-register-all".
From stdpp Require Import gmap strings.
Import ListNotations.
Local Open Scope list_scope.
Local Open Scope string_scope.

#[global] Arguments String.append !s1 s2 : simpl nomatch.

(* ================================================================= *)
(** ** Python strings *)

Module Py.

Definition code (c : ascii) : nat := nat_of_ascii c.

Definition LF : ascii := ascii_of_nat 10.

Definition between (lo hi n : nat) : bool := (lo <=? n)%nat && (n <=? hi)%nat.

(** [str.isspace] on one code point: TAB..CR, FS..US, space, NEL, NBSP. *)
Definition is_space (c : ascii) : bool :=
  let n := code c in
  between 9 13 n || between 28 32 n || Nat.eqb n 133 || Nat.eqb n 160.

(** [\d]: the decimal digits. *)
Definition is_digit (c : ascii) : bool := between 48 57 (code c).

Definition is_upper_az (c : ascii) : bool := between 65 90 (code c).

(** [\w]: alphanumeric code points and the underscore. *)
Definition is_word (c : ascii) : bool :=
  let n := code c in
  between 48 57 n || between 65 90 n || between 97 122 n || Nat.eqb n 95
  || Nat.eqb n 170 || Nat.eqb n 178 || Nat.eqb n 179 || Nat.eqb n 181
  || Nat.eqb n 185 || Nat.eqb n 186 || between 188 190 n
  || between 192 214 n || between 216 246 n || between 248 255 n.

(** [.] without DOTALL, and with it. *)
Definition not_newline (c : ascii) : bool := negb (Nat.eqb (code c) 10).
Definition any_char (_ : ascii) : bool := true.

Definition is_char (a : ascii) (c : ascii) : bool := Ascii.eqb a c.

(** [str.lower] on one code point: A..Z and the accented capitals. *)
Definition lower_char (c : ascii) : ascii :=
  let n := code c in
  if between 65 90 n || (between 192 222 n && negb (Nat.eqb n 215))
  then ascii_of_nat (n + 32) else c.

Fixpoint lower (s : string) : string :=
  match s with
  | EmptyString => EmptyString
  | String c s' => String (lower_char c) (lower s')
  end.

Fixpoint drop (n : nat) (s : string) : string :=
  match n, s with
  | S n', String _ s' => drop n' s'
  | _, _ => s
  end.

Fixpoint take (n : nat) (s : string) : string :=
  match n, s with
  | S n', String c s' => String c (take n' s')
  | _, _ => EmptyString
  end.

(** [s.startswith(p)]. *)
Fixpoint startswith (p s : string) : bool :=
  match p, s with
  | EmptyString, _ => true
  | String a p', String b s' => Ascii.eqb a b && startswith p' s'
  | String _ _, EmptyString => false
  end.

(** [sub in s]. *)
Fixpoint contains (sub s : string) : bool :=
  startswith sub s ||
  match s with
  | EmptyString => false
  | String _ s' => contains sub s'
  end.

Fixpoint lstrip (s : string) : string :=
  match s with
  | String c s' => if is_space c then lstrip s' else s
  | EmptyString => EmptyString
  end.

Fixpoint rstrip (s : string) : string :=
  match s with
  | String c s' =>
      match rstrip s' with
      | EmptyString => if is_space c then EmptyString else String c EmptyString
      | t => String c t
      end
  | EmptyString => EmptyString
  end.

(** [s.strip()]. *)
Definition strip (s : string) : string := rstrip (lstrip s).

Definition cons_head (c : ascii) (l : list string) : list string :=
  match l with
  | p :: ps => String c p :: ps
  | [] => [String c EmptyString]
  end.

(** [s.split(sep)] for a non-empty [sep]: [skip] counts the characters of
    the separator occurrence being stepped over. *)
Fixpoint split_go (sep : string) (skip : nat) (s : string) : list string :=
  match s with
  | EmptyString => [EmptyString]
  | String c s' =>
      match skip with
      | S n => split_go sep n s'
      | O =>
          if startswith sep s
          then EmptyString :: split_go sep (String.length sep - 1) s'
          else cons_head c (split_go sep 0 s')
      end
  end.

Definition split (sep s : string) : list string := split_go sep 0 s.

(** The text after the last occurrence of [sep], when there is one:
    [s.rsplit(sep, 1)[-1]] for a string that contains [sep]. *)
Fixpoint after_last (sep s : string) : option string :=
  match s with
  | EmptyString => None
  | String _ s' =>
      match after_last sep s' with
      | Some t => Some t
      | None => if startswith sep s then Some (drop (String.length sep) s) else None
      end
  end.

Definition rsplit1_last (sep s : string) : string :=
  match after_last sep s with
  | Some t => t
  | None => s
  end.

(** [sep.join(l)]. *)
Fixpoint join (sep : string) (l : list string) : string :=
  match l with
  | [] => EmptyString
  | [x] => x
  | x :: l' => x ++ sep ++ join sep l'
  end.

End Py.

(* ================================================================= *)
(** ** Regular expressions ([re]) *)

Module Re.

Inductive greed : Type := Greedy | Lazy.

(** The constructs the patterns of the source use.  [Rep g n p] is a
    repetition of a one-character class: [p{n,}] or [p{n,}?]. *)
Inductive regex : Type :=
| Lit (s : string)
| Cls (p : ascii -> bool)
| Rep (g : greed) (n : nat) (p : ascii -> bool)
| Cat (r1 r2 : regex)
| Alt (r1 r2 : regex)
| Grp (i : nat) (r : regex)
| Eos.

Definition caps : Type := nat -> option string.

Definition no_caps : caps := fun _ => None.

Definition set_cap (i : nat) (v : string) (c : caps) : caps :=
  fun j => if Nat.eqb j i then Some v else c j.

Section Matcher.

Context {R : Type}.

(** Longest first, giving characters back one at a time. *)
Fixpoint rep_greedy (p : ascii -> bool) (n : nat) (s : string)
    (k : string -> option R) : option R :=
  let stop := match n with O => k s | S _ => None end in
  match s with
  | String c s' =>
      if p c then
        match rep_greedy p (Nat.pred n) s' k with
        | Some r => Some r
        | None => stop
        end
      else stop
  | EmptyString => stop
  end.

(** Shortest first, taking one more character on failure. *)
Fixpoint rep_lazy (p : ascii -> bool) (n : nat) (s : string)
    (k : string -> option R) : option R :=
  let more :=
    match s with
    | String c s' => if p c then rep_lazy p (Nat.pred n) s' k else None
    | EmptyString => None
    end in
  match n with
  | O => match k s with Some r => Some r | None => more end
  | S _ => more
  end.

(** [rmatch r s c k]: match [r] at the start of [s], then run [k] on what
    is left; alternatives are tried in the order the engine tries them. *)
Fixpoint rmatch (r : regex) (s : string) (c : caps)
    (k : string -> caps -> option R) : option R :=
  match r with
  | Lit l => if Py.startswith l s then k (Py.drop (String.length l) s) c else None
  | Cls p =>
      match s with
      | String a s' => if p a then k s' c else None
      | EmptyString => None
      end
  | Rep Greedy n p => rep_greedy p n s (fun s' => k s' c)
  | Rep Lazy n p => rep_lazy p n s (fun s' => k s' c)
  | Cat r1 r2 => rmatch r1 s c (fun s' c' => rmatch r2 s' c' k)
  | Alt r1 r2 =>
      match rmatch r1 s c k with
      | Some x => Some x
      | None => rmatch r2 s c k
      end
  | Grp i r1 =>
      rmatch r1 s c
        (fun s' c' => k s' (set_cap i (Py.take (String.length s - String.length s') s) c'))
  | Eos =>
      match s with
      | EmptyString => k s c
      | String a EmptyString => if Ascii.eqb a Py.LF then k s c else None
      | _ => None
      end
  end.

End Matcher.

(** A match anchored at the start of [s]: what is left, and the groups. *)
Definition match_at (r : regex) (s : string) : option (string * caps) :=
  rmatch r s no_caps (fun s' c => Some (s', c)).

(** [re.search]: the leftmost start at which the pattern matches. *)
Fixpoint search (r : regex) (s : string) : option caps :=
  match match_at r s with
  | Some (_, c) => Some c
  | None =>
      match s with
      | String _ s' => search r s'
      | EmptyString => None
      end
  end.

(** [re.sub(r, repl, s)] for a literal replacement; [skip] counts the
    characters of the current match still to be stepped over. *)
Fixpoint sub_go (r : regex) (repl : string) (skip : nat) (s : string) : string :=
  match skip with
  | S n =>
      match s with
      | String _ s' => sub_go r repl n s'
      | EmptyString => EmptyString
      end
  | O =>
      match match_at r s with
      | Some (rest, _) =>
          match String.length s - String.length rest with
          | O =>
              repl ++ match s with
                      | String a s' => String a (sub_go r repl 0 s')
                      | EmptyString => EmptyString
                      end
          | S m =>
              repl ++ match s with
                      | String _ s' => sub_go r repl m s'
                      | EmptyString => EmptyString
                      end
          end
      | None =>
          match s with
          | String a s' => String a (sub_go r repl 0 s')
          | EmptyString => EmptyString
          end
      end
  end.

Definition sub (r : regex) (repl s : string) : string := sub_go r repl 0 s.

(** [re.split(r, s)] for a pattern without groups. *)
Fixpoint split_go (r : regex) (skip : nat) (s : string) : list string :=
  match skip with
  | S n =>
      match s with
      | String _ s' => split_go r n s'
      | EmptyString => [EmptyString]
      end
  | O =>
      match match_at r s with
      | Some (rest, _) =>
          match String.length s - String.length rest with
          | O =>
              EmptyString :: match s with
                             | String a s' => Py.cons_head a (split_go r 0 s')
                             | EmptyString => [EmptyString]
                             end
          | S m =>
              EmptyString :: match s with
                             | String _ s' => split_go r m s'
                             | EmptyString => [EmptyString]
                             end
          end
      | None =>
          match s with
          | String a s' => Py.cons_head a (split_go r 0 s')
          | EmptyString => [EmptyString]
          end
      end
  end.

Definition split (r : regex) (s : string) : list string := split_go r 0 s.

(** Concatenation and alternation of several patterns. *)
Fixpoint cat (l : list regex) : regex :=
  match l with
  | [] => Lit EmptyString
  | [r] => r
  | r :: l' => Cat r (cat l')
  end.

Fixpoint alt (l : list regex) : regex :=
  match l with
  | [] => Lit EmptyString
  | [r] => r
  | r :: l' => Alt r (alt l')
  end.

End Re.

(* ================================================================= *)
(** ** Exceptions and results *)

(** A [requests.Response]: only its status matters here. *)
Record response : Type := Response { status_code : Z }.

Inductive exn : Type :=
| AttributeError
| KeyError (key : string)
| ConnectionError
| Timeout
| HTTPError (resp : option response)
| OtherError (msg : string).

(** The outcome of a call: a value, or a raised exception. *)
Inductive result (A : Type) : Type :=
| Ok (a : A)
| Raise (e : exn).
Arguments Ok {A} a.
Arguments Raise {A} e.

#[global] Instance result_ret : MRet result := fun A a => Ok a.
#[global] Instance result_bind : MBind result :=
  fun A B f m => match m with Ok a => f a | Raise e => Raise e end.

(** [m.group(i)] is [None] for a group that took no part in the match; a
    method call on it raises [AttributeError]. *)
Definition group_strip (c : Re.caps) (i : nat) : result string :=
  match c i with
  | Some g => Ok (Py.strip g)
  | None => Raise AttributeError
  end.

Definition NL : string := String Py.LF EmptyString.

(** [str(e)], as far as the callers below use it. *)
Definition str_exn (e : exn) : string :=
  match e with
  | AttributeError => "AttributeError"
  | KeyError k => k
  | ConnectionError => "ConnectionError"
  | Timeout => "Timeout"
  | HTTPError _ => "HTTPError"
  | OtherError msg => msg
  end.

(* ================================================================= *)
(** ** Calls to the outside world

    A run keeps the log of the calls it issued, in order, and the mutable
    state [S] of the program.  What a call answers is given by an oracle
    that sees the log so far. *)

Inductive event : Type :=
| EvLabels
| EvList (label_ids : list string) (max_results : nat)
| EvGet (msg_id : string)
| EvArchive (msg_id : string)
| EvPost (url content : string)
| EvSleep (ms : Z).

Definition trace : Type := list event.

Definition M (S A : Type) : Type := trace * S -> result A * (trace * S).

#[global] Instance M_ret {S} : MRet (M S) := fun A a st => (Ok a, st).
#[global] Instance M_bind {S} : MBind (M S) :=
  fun A B f m st =>
    match m st with
    | (Ok a, st') => f a st'
    | (Raise e, st') => (Raise e, st')
    end.

Definition lift {S A} (r : result A) : M S A := fun st => (r, st).

Definition raise {S A} (e : exn) : M S A := fun st => (Raise e, st).

(** Issue a call: log it, and answer as the oracle says. *)
Definition call {S A} (ev : event) (oracle : trace -> result A) : M S A :=
  fun st => (oracle (fst st), ((fst st ++ [ev])%list, snd st)).

(** [try: m except Exception as e: h e] *)
Definition catch {S A} (m : M S A) (h : exn -> M S A) : M S A :=
  fun st =>
    match m st with
    | (Raise e, st') => h e st'
    | r => r
    end.

Definition get_state {S} : M S S := fun st => (Ok (snd st), st).
Definition put_state {S} (x : S) : M S unit := fun st => (Ok tt, (fst st, x)).

(* ================================================================= *)
(** ** transactions/email.py *)

Module Email.

Inductive transaction_type : Type := CLAIM | DROP | TRADE | BLOCK | DRAFT | UNKNOWN.

Definition LEAGUE_NAME : string := "The Don Orsillo Open".

Definition _detect_transaction_type (subject : string) : transaction_type :=
  let subject := Py.lower subject in
  if Py.contains "player(s) claimed" subject then CLAIM
  else if Py.contains "free agents added to pool" subject then DROP
  else if Py.contains "trade executed" subject then TRADE
  else if Py.contains "trade block changed" subject then BLOCK
  else if Py.contains "draft pick made" subject then DRAFT
  else UNKNOWN.

(** *** The parsed document

    What [BeautifulSoup(html, "lxml")] builds: tags with their classes and
    children, and the strings [get_text] yields. *)
Inductive node : Type :=
| Text (s : string)
| Elem (tag : string) (classes : list string) (children : list node).

Definition has_class (cls : string) (classes : list string) : bool :=
  existsb (String.eqb cls) classes.

(** [find(class_=cls)] below a list of siblings: the first tag, in document
    order, that carries the class. *)
Fixpoint find_class_node (cls : string) (n : node) : option node :=
  match n with
  | Text _ => None
  | Elem _ classes kids =>
      if has_class cls classes then Some n
      else
        (fix go (l : list node) : option node :=
           match l with
           | [] => None
           | k :: l' =>
               match find_class_node cls k with
               | Some r => Some r
               | None => go l'
               end
           end) kids
  end.

Fixpoint find_class (cls : string) (l : list node) : option node :=
  match l with
  | [] => None
  | k :: l' =>
      match find_class_node cls k with
      | Some r => Some r
      | None => find_class cls l'
      end
  end.

(** [for br in tag.find_all("br"): br.replace_with("\n")], on one child. *)
Fixpoint replace_br (n : node) : node :=
  match n with
  | Text s => Text s
  | Elem tag classes kids =>
      if String.eqb tag "br" then Text NL
      else Elem tag classes (map replace_br kids)
  end.

Definition replace_brs (n : node) : node :=
  match n with
  | Text s => Text s
  | Elem tag classes kids => Elem tag classes (map replace_br kids)
  end.

(** The strings below a node, in document order. *)
Fixpoint strings (n : node) : list string :=
  match n with
  | Text s => [s]
  | Elem _ _ kids => flat_map strings kids
  end.

(** [tag.get_text(separator)], and the same for the whole document. *)
Definition get_text (separator : string) (n : node) : string :=
  Py.join separator (strings n).

Definition get_text_doc (separator : string) (l : list node) : string :=
  Py.join separator (flat_map strings l).

(** An entry of the [processed] list: message id and type. *)
Definition processed_entry : Type := string * transaction_type.

(** A processing pass: its mutable state is the [processed] list. *)
Abbreviation pass := (M (list processed_entry)).

Section Bot.

(** [BeautifulSoup(html, "lxml")]: the children of the document. *)
Variable soup : string -> list node.

Definition _extract_text_content (html : string) : string :=
  let doc := soup html in
  match find_class "darkmode-text" doc with
  | Some content_div =>
      Py.strip (get_text " " (replace_brs content_div))
  | None => Py.strip (get_text_doc " " doc)
  end.

(** *** Trade block *)

Record trade_block : Type := TradeBlock {
  team : string;
  players_offered : list string;
  positions_offered : string;
  stats_offered : string;
  positions_needed : string;
  stats_needed : string;
  comment : string
}.

(** What a parser returns: the dictionaries of the source, by shape. *)
Inductive data : Type :=
| BlockData (b : trade_block)
| TradeData (details : string)
| ClaimData (team player details : string)
| DropData (players : list string)
| DraftData (round pick player team : string)
| RawData (raw : string).

(** [x or "(None specified)"]. *)
Definition or_default (x : string) : string :=
  match x with
  | EmptyString => "(None specified)"
  | _ => x
  end.

(** [r"- (.+?) has made changes to the Trade Block"] *)
Definition team_re : Re.regex :=
  Re.cat [Re.Lit "- "; Re.Grp 1 (Re.Rep Re.Lazy 1 Py.not_newline);
          Re.Lit " has made changes to the Trade Block"].

(** [rf"{re.escape(label)}:(.*?){re.escape(next_label)}:"], DOTALL *)
Definition section_re (label next_label : string) : Re.regex :=
  Re.cat [Re.Lit (label ++ ":"); Re.Grp 1 (Re.Rep Re.Lazy 0 Py.any_char);
          Re.Lit (next_label ++ ":")].

(** [r"Stats Needed:(.*?)Comment:"], DOTALL *)
Definition stats_needed_re : Re.regex :=
  Re.cat [Re.Lit "Stats Needed:"; Re.Grp 1 (Re.Rep Re.Lazy 0 Py.any_char);
          Re.Lit "Comment:"].

(** [r"Comment:(.*?)(?:Note that|$)"], DOTALL *)
Definition comment_re : Re.regex :=
  Re.cat [Re.Lit "Comment:"; Re.Grp 1 (Re.Rep Re.Lazy 0 Py.any_char);
          Re.alt [Re.Lit "Note that"; Re.Eos]].

(** [r"\n+|\s{2,}"] *)
Definition players_split_re : Re.regex :=
  Re.alt [Re.Rep Re.Greedy 1 (Py.is_char Py.LF); Re.Rep Re.Greedy 2 Py.is_space].

(** [match.group(1).strip() if match else ""] *)
Definition group1_or_empty (m : option Re.caps) : result string :=
  match m with
  | Some c => group_strip c 1
  | None => Ok EmptyString
  end.

Definition extract_section (text label next_label : string) : result string :=
  group1_or_empty (Re.search (section_re label next_label) text).

(** [[p.strip() for p in l if p.strip()]] *)
Definition strip_nonblank (l : list string) : list string :=
  map Py.strip (List.filter (fun p => negb (String.eqb (Py.strip p) EmptyString)) l).

Definition _parse_trade_block (text : string) : result (option data) :=
  match Re.search team_re text with
  | None => Ok None
  | Some team_match =>
      team ← group_strip team_match 1;
      let team :=
        if Py.contains " - " team then Py.strip (Py.rsplit1_last " - " team)
        else team in
      players_raw ← extract_section text "Players Offered" "Positions Offered";
      positions_offered ← extract_section text "Positions Offered" "Stats Offered";
      stats_offered ← extract_section text "Stats Offered" "Positions Needed";
      positions_needed ← extract_section text "Positions Needed" "Stats Needed";
      stats_needed ← group1_or_empty (Re.search stats_needed_re text);
      comment ← group1_or_empty (Re.search comment_re text);
      let players := strip_nonblank (Re.split players_split_re players_raw) in
      Ok (Some (BlockData {|
        team := team;
        players_offered := players;
        positions_offered := or_default positions_offered;
        stats_offered := or_default stats_offered;
        positions_needed := or_default positions_needed;
        stats_needed := or_default stats_needed;
        comment := comment |}))
  end.

(** *** Trade *)

(** [r" +"] *)
Definition spaces_re : Re.regex := Re.Rep Re.Greedy 1 (Py.is_char " ").

(** Runs of empty lines become one empty line. *)
Fixpoint collapse_blank (prev_empty : bool) (lines : list string) : list string :=
  match lines with
  | [] => []
  | line :: rest =>
      match line with
      | EmptyString =>
          if prev_empty then collapse_blank true rest
          else line :: collapse_blank true rest
      | _ => line :: collapse_blank false rest
      end
  end.

(** [r"has been executed\.\s*(.*?)Note that you can adjust"], DOTALL *)
Definition executed_re : Re.regex :=
  Re.cat [Re.Lit "has been executed."; Re.Rep Re.Greedy 0 Py.is_space;
          Re.Grp 1 (Re.Rep Re.Lazy 0 Py.any_char);
          Re.Lit "Note that you can adjust"].

(** [r"You can click here to go to.*?\n"] *)
Definition click_here_re : Re.regex :=
  Re.cat [Re.Lit "You can click here to go to"; Re.Rep Re.Lazy 0 Py.not_newline;
          Re.Lit NL].

(** [re.sub(r" +", " ", line.strip())] *)
Definition normalise_line (line : string) : string :=
  Re.sub spaces_re " " (Py.strip line).

(** The lines of the container as [_parse_trade] normalises them (its
    list [result]), and their text. *)
Definition trade_lines (content_div : node) : list string :=
  let full_text := get_text EmptyString (replace_brs content_div) in
  let lines := Py.split NL full_text in
  let lines := map normalise_line lines in
  collapse_blank false lines.

Definition trade_text (content_div : node) : string :=
  Py.join NL (trade_lines content_div).

Definition _parse_trade (html : string) : result (option data) :=
  match find_class "darkmode-text" (soup html) with
  | None => Ok None
  | Some content_div =>
      let full_text := trade_text content_div in
      match Re.search executed_re full_text with
      | None => Ok None
      | Some m =>
          details ← group_strip m 1;
          let details := Py.strip (Re.sub click_here_re EmptyString details) in
          Ok (Some (TradeData details))
      end
  end.

(** *** Claim, drop, draft *)

(** [[\w\s\-']] and [[\w,]] *)
Definition name_char (c : ascii) : bool :=
  Py.is_word c || Py.is_space c || Py.is_char "-" c || Py.is_char "'" c.
Definition word_or_comma (c : ascii) : bool := Py.is_word c || Py.is_char "," c.

(** The pattern of [_parse_claim]:
    [\*(.+?)\*\s*\n\s*([\w\s\-']+)\s+([A-Z]+)\s*-\s*] and then group 4, which
    is [[\w,]+] followed by the rest of the line. *)
Definition claim_re : Re.regex :=
  Re.cat [Re.Lit "*"; Re.Grp 1 (Re.Rep Re.Lazy 1 Py.not_newline); Re.Lit "*";
          Re.Rep Re.Greedy 0 Py.is_space; Re.Lit NL; Re.Rep Re.Greedy 0 Py.is_space;
          Re.Grp 2 (Re.Rep Re.Greedy 1 name_char); Re.Rep Re.Greedy 1 Py.is_space;
          Re.Grp 3 (Re.Rep Re.Greedy 1 Py.is_upper_az);
          Re.Rep Re.Greedy 0 Py.is_space; Re.Lit "-"; Re.Rep Re.Greedy 0 Py.is_space;
          Re.Grp 4 (Re.Cat (Re.Rep Re.Greedy 1 word_or_comma)
                           (Re.Rep Re.Greedy 0 Py.not_newline))].

Definition _parse_claim (text : string) : result (option data) :=
  match Re.search claim_re text with
  | Some m =>
      team ← group_strip m 1;
      g2 ← group_strip m 2;
      g3 ← group_strip m 3;
      details ← group_strip m 4;
      Ok (Some (ClaimData team (g2 ++ " " ++ g3) details))
  | None => Ok (Some (RawData text))
  end.

(** [r"re-entered the\s+player pool as free agents.*?:\s*(.*?)(?:Note that|Thanks|$)"],
    DOTALL *)
Definition drop_re : Re.regex :=
  Re.cat [Re.Lit "re-entered the"; Re.Rep Re.Greedy 1 Py.is_space;
          Re.Lit "player pool as free agents"; Re.Rep Re.Lazy 0 Py.any_char;
          Re.Lit ":"; Re.Rep Re.Greedy 0 Py.is_space;
          Re.Grp 1 (Re.Rep Re.Lazy 0 Py.any_char);
          Re.alt [Re.Lit "Note that"; Re.Lit "Thanks"; Re.Eos]].

Definition _parse_drop (text : string) : result (option data) :=
  match Re.search drop_re text with
  | Some m =>
      g1 ← group_strip m 1;
      Ok (Some (DropData (strip_nonblank (Py.split NL g1))))
  | None => Ok (Some (RawData text))
  end.

(** [r"Round\s+(\d+)\s*,\s*Pick\s+(\d+)\s*:\s*(.+?)\s+was picked by the team\s+(.+?)\s*\."],
    DOTALL *)
Definition draft_re : Re.regex :=
  Re.cat [Re.Lit "Round"; Re.Rep Re.Greedy 1 Py.is_space;
          Re.Grp 1 (Re.Rep Re.Greedy 1 Py.is_digit);
          Re.Rep Re.Greedy 0 Py.is_space; Re.Lit ","; Re.Rep Re.Greedy 0 Py.is_space;
          Re.Lit "Pick"; Re.Rep Re.Greedy 1 Py.is_space;
          Re.Grp 2 (Re.Rep Re.Greedy 1 Py.is_digit);
          Re.Rep Re.Greedy 0 Py.is_space; Re.Lit ":"; Re.Rep Re.Greedy 0 Py.is_space;
          Re.Grp 3 (Re.Rep Re.Lazy 1 Py.any_char); Re.Rep Re.Greedy 1 Py.is_space;
          Re.Lit "was picked by the team"; Re.Rep Re.Greedy 1 Py.is_space;
          Re.Grp 4 (Re.Rep Re.Lazy 1 Py.any_char); Re.Rep Re.Greedy 0 Py.is_space;
          Re.Lit "."].

(** [re.sub(r"\s+", " ", s)] *)
Definition squeeze (s : string) : string :=
  Re.sub (Re.Rep Re.Greedy 1 Py.is_space) " " s.

Definition _parse_draft (text : string) : result (option data) :=
  match Re.search draft_re text with
  | Some m =>
      round ← group_strip m 1;
      pick ← group_strip m 2;
      player ← group_strip m 3;
      team ← group_strip m 4;
      Ok (Some (DraftData (squeeze round) (squeeze pick) (squeeze player) (squeeze team)))
  | None => Ok (Some (RawData text))
  end.

(** *** Messages sent to the chat *)

Definition EMOJI (t : transaction_type) : option string :=
  match t with
  | CLAIM => Some "✅"
  | DROP => Some "🚫"
  | TRADE => Some "🔄"
  | BLOCK => Some "🟦"
  | DRAFT => Some "🍺"
  | UNKNOWN => None
  end.

(** The dictionary a [data] stands for: its text entries and its list
    entries, by key. *)
Definition str_items (d : data) : list (string * string) :=
  match d with
  | BlockData b =>
      [("team", team b); ("positions_offered", positions_offered b);
       ("stats_offered", stats_offered b); ("positions_needed", positions_needed b);
       ("stats_needed", stats_needed b); ("comment", comment b)]
  | TradeData details => [("details", details)]
  | ClaimData team player details =>
      [("team", team); ("player", player); ("details", details)]
  | DropData _ => []
  | DraftData round pick player team =>
      [("round", round); ("pick", pick); ("player", player); ("team", team)]
  | RawData raw => [("raw", raw)]
  end.

Definition list_items (d : data) : list (string * list string) :=
  match d with
  | BlockData b => [("players_offered", players_offered b)]
  | DropData players => [("players", players)]
  | _ => []
  end.

Fixpoint assoc {A} (key : string) (l : list (string * A)) : option A :=
  match l with
  | [] => None
  | (k, v) :: l' => if String.eqb key k then Some v else assoc key l'
  end.

(** [data[key]] and [data.get(key, "")] for a text entry, [key in data]. *)
Definition item (d : data) (key : string) : result string :=
  match assoc key (str_items d) with
  | Some v => Ok v
  | None => Raise (KeyError key)
  end.

Definition item_list (d : data) (key : string) : result (list string) :=
  match assoc key (list_items d) with
  | Some v => Ok v
  | None => Raise (KeyError key)
  end.

Definition get_or_empty (d : data) (key : string) : string :=
  match assoc key (str_items d) with
  | Some v => v
  | None => EmptyString
  end.

Definition has_key (d : data) (key : string) : bool :=
  match assoc key (str_items d), assoc key (list_items d) with
  | None, None => false
  | _, _ => true
  end.

Definition _format_trade_block_message (d : data) : result string :=
  players ← item_list d "players_offered";
  let players_list :=
    match players with
    | [] => "(none)"
    | _ => Py.join NL players
    end in
  team ← item d "team";
  positions_offered ← item d "positions_offered";
  stats_offered ← item d "stats_offered";
  positions_needed ← item d "positions_needed";
  stats_needed ← item d "stats_needed";
  let msg := "**" ++ team ++ "** updated their trade block" ++ NL ++ NL in
  let msg := msg ++ "**Players Offered:**" ++ NL ++ players_list ++ NL ++ NL in
  let msg := msg ++ "**Positions Offered:** " ++ positions_offered ++ NL in
  let msg := msg ++ "**Stats Offered:** " ++ stats_offered ++ NL in
  let msg := msg ++ "**Positions Needed:** " ++ positions_needed ++ NL in
  let msg := msg ++ "**Stats Needed:** " ++ stats_needed ++ NL in
  let msg :=
    match get_or_empty d "comment" with
    | EmptyString => msg
    | c => msg ++ "**Comment:** " ++ c ++ NL
    end in
  Ok (Py.strip msg).

Definition title_of (t : transaction_type) : string :=
  match t with
  | CLAIM => "A player has been claimed in " ++ LEAGUE_NAME ++ "!"
  | DROP => "A player has been dropped in " ++ LEAGUE_NAME ++ "!"
  | TRADE => "A trade has been executed in " ++ LEAGUE_NAME ++ "!"
  | BLOCK => "A trade block has been updated in " ++ LEAGUE_NAME ++ "!"
  | DRAFT => "Draft pick made in " ++ LEAGUE_NAME ++ "!"
  | UNKNOWN => "A transaction occurred!"
  end.

Definition _format_discord_message (t : transaction_type) (data : option data)
    : result string :=
  let emoji := match EMOJI t with Some e => e | None => "📋" end in
  let title := title_of t in
  details ←
    match t, data with
    | BLOCK, Some d => _format_trade_block_message d
    | TRADE, Some d => Ok (get_or_empty d "details")
    | CLAIM, Some d =>
        if has_key d "player"
        then player ← item d "player";
             Ok ("**" ++ get_or_empty d "team" ++ "** claimed " ++ player)
        else Ok (get_or_empty d "raw")
    | DROP, Some d =>
        if has_key d "players"
        then players ← item_list d "players";
             Ok ("Players dropped to waivers:" ++ NL ++ Py.join NL players)
        else Ok (get_or_empty d "raw")
    | DRAFT, Some d =>
        if has_key d "player"
        then team ← item d "team";
             player ← item d "player";
             round ← item d "round";
             pick ← item d "pick";
             Ok ("**" ++ team ++ "** drafted **" ++ player ++ "**" ++ NL
                 ++ "Round " ++ round ++ ", Pick " ++ pick)
        else Ok (get_or_empty d "raw")
    | _, _ => Ok EmptyString
    end;
  Ok (emoji ++ " **" ++ title ++ "**" ++ NL ++ NL ++ details ++ NL ++ NL).

(** *** The mailbox *)

(** One part of a message: [part.get("mimeType")] and
    [part.get("body", {}).get("data", "")]. *)
Record part : Type := Part { part_mimeType : string; part_data : string }.

(** A message as [messages().get(format="full")] returns it: the headers,
    the top-level part and the flat list of parts of its payload. *)
Record message : Type := Message {
  headers : list (string * string);
  payload : part;
  parts : list part
}.

(** The calls of the mail API and of the webhook; each answer may depend
    on the calls issued before. *)
Record service : Type := Service {
  labels_list : trace -> result (list (string * string));
  messages_list : trace -> list string -> nat -> result (list string);
  messages_get : trace -> string -> result message;
  messages_modify : trace -> string -> result unit;
  requests_post : trace -> string -> string -> result unit
}.

(** [base64.urlsafe_b64decode(data).decode("utf-8")] *)
Variable b64decode_utf8 : string -> result string.

(** [Credentials.from_authorized_user_info] and [build]. *)
Variable _get_gmail_service : string -> result service.

Definition part_html (p : part) : result (option string) :=
  if String.eqb (part_mimeType p) "text/html" then
    match part_data p with
    | EmptyString => Ok None
    | data => html ← b64decode_utf8 data; Ok (Some html)
    end
  else Ok None.

Fixpoint first_html (l : list part) : result (option string) :=
  match l with
  | [] => Ok None
  | p :: l' =>
      r ← part_html p;
      match r with
      | Some html => Ok (Some html)
      | None => first_html l'
      end
  end.

Definition _extract_html_body (m : message) : result (option string) :=
  first_html (payload m :: parts m).

(** [next((h["value"] for h in headers if h["name"].lower() == "subject"), "")] *)
Fixpoint subject_of (hs : list (string * string)) : string :=
  match hs with
  | [] => EmptyString
  | (name, value) :: hs' =>
      if String.eqb (Py.lower name) "subject" then value else subject_of hs'
  end.


Definition _post_to_discord (svc : service) (webhook_url message : string)
    : pass unit :=
  call (EvPost webhook_url message) (fun t => requests_post svc t webhook_url message).

Definition parse_by_type (t : transaction_type) (html_body : string)
    : result (option data) :=
  match t with
  | BLOCK => _parse_trade_block (_extract_text_content html_body)
  | TRADE => _parse_trade html_body
  | CLAIM => _parse_claim (_extract_text_content html_body)
  | DROP => _parse_drop (_extract_text_content html_body)
  | DRAFT => _parse_draft (_extract_text_content html_body)
  | UNKNOWN => Ok None
  end.

(** A webhook URL that is set and not empty. *)
Definition configured (url : option string) : option string :=
  match url with
  | Some EmptyString => None
  | u => u
  end.

Definition _process_single_message (svc : service) (msg_id : string)
    (discord_transactions_url discord_trade_block_url : option string)
    : pass (option processed_entry) :=
  message ← call (EvGet msg_id) (fun t => messages_get svc t msg_id);
  let subject := subject_of (headers message) in
  let transaction_type := _detect_transaction_type subject in
  match transaction_type with
  | UNKNOWN => mret None
  | _ =>
      html_body ← lift (_extract_html_body message);
      match html_body with
      | None | Some EmptyString => mret None
      | Some html_body =>
          data ← lift (parse_by_type transaction_type html_body);
          discord_message ← lift (_format_discord_message transaction_type data);
          let webhook_url :=
            match transaction_type with
            | BLOCK => discord_trade_block_url
            | _ => discord_transactions_url
            end in
          match configured webhook_url with
          | Some url =>
              _ ← _post_to_discord svc url discord_message;
              mret (Some (msg_id, transaction_type))
          | None => mret None
          end
      end
  end.

(** [messages().modify(id=msg_id, body={"removeLabelIds": ["INBOX"]})] *)
Definition archive (svc : service) (msg_id : string) : pass unit :=
  call (EvArchive msg_id) (fun t => messages_modify svc t msg_id).

(** What [process_email] returns. *)
Inductive status : Type :=
| StatusError (reason : string)
| StatusSkipped (reason : string)
| StatusOk (processed : list processed_entry).

Definition _get_label_id (svc : service) (label_name : string) : pass (option string) :=
  labels ← call EvLabels (labels_list svc);
  mret (fst <$> List.find (fun l => String.eqb (snd l) label_name) labels).

(** The body of the loop over the listed messages. *)
Definition process_one (svc : service) (tx_url tb_url : option string)
    (msg_id : string) : pass unit :=
  catch
    (result ← _process_single_message svc msg_id tx_url tb_url;
     _ ← match result with
         | Some r => processed ← get_state; put_state (processed ++ [r])%list
         | None => mret tt
         end;
     archive svc msg_id)
    (fun _ => catch (archive svc msg_id) (fun _ => mret tt)).

Fixpoint process_all (svc : service) (tx_url tb_url : option string)
    (messages : list string) : pass unit :=
  match messages with
  | [] => mret tt
  | msg_id :: rest =>
      _ ← process_one svc tx_url tb_url msg_id;
      process_all svc tx_url tb_url rest
  end.

Definition process_email (gmail_credentials_json : string)
    (discord_transactions_url discord_trade_block_url : option string)
    : pass status :=
  svc ← lift (_get_gmail_service gmail_credentials_json);
  label_id ← _get_label_id svc "DOO Transaction";
  match label_id with
  | None | Some EmptyString =>
      mret (StatusError "DOO Transaction label not found")
  | Some label_id =>
      listed ←
        catch
          (l ← call (EvList [label_id; "INBOX"] 50)
                    (fun t => messages_list svc t [label_id; "INBOX"] 50);
           mret (inl l))
          (fun e => mret (inr (StatusError (str_exn e))));
      match listed with
      | inr err => mret err
      | inl [] => mret (StatusSkipped "no unarchived messages")
      | inl messages =>
          _ ← put_state [];
          _ ← process_all svc discord_transactions_url discord_trade_block_url messages;
          processed ← get_state;
          mret (StatusOk processed)
      end
  end.

End Bot.

End Email.

(* ================================================================= *)
(** ** dingers/main.py *)

Module Dingers.

Record highlight : Type := Highlight {
  title : string;
  description : string;
  video_url : string;
  game_id : Z
}.

(** A document of the [videos] collection. *)
Record video_doc : Type := VideoDoc {
  doc_video_url : string;
  doc_title : string;
  doc_description : string;
  posted_at : Z;
  expires_at : Z
}.

(** The document store: collection / date / videos / document id. *)
Abbreviation store := (gmap (string * string) video_doc).

(** One game of the schedule: [status.abstractGameState] (empty when
    absent) and [gamePk]. *)
Record game : Type := Game { abstractGameState : string; gamePk : option Z }.

Definition is_hr (title description : string) : bool :=
  let title_lower := Py.lower title in
  let description_lower := Py.lower description in
  Py.contains "homer" title_lower
  || Py.contains "home run" title_lower
  || Py.contains "homer" description_lower
  || Py.contains "home run" description_lower.

(** The loop of [extract_hr_highlights] over the entries of the feed. *)
Fixpoint hr_of_entries (game_id : Z) (highlight_list : list string) : list highlight :=
  match highlight_list with
  | [] => []
  | EmptyString :: rest => hr_of_entries game_id rest
  | entry :: rest =>
      match Py.split NL entry with
      | title :: description :: video_url :: _ =>
          if is_hr title description
          then Highlight title description video_url game_id :: hr_of_entries game_id rest
          else hr_of_entries game_id rest
      | _ => hr_of_entries game_id rest
      end
  end.

(** [requests.Response.__bool__] is [self.ok]: false for a status from
    400 to 599. *)
Definition response_bool (r : response) : bool :=
  negb ((400 <=? status_code r)%Z && (status_code r <? 600)%Z).

Definition retryable_status_codes : list Z := [429; 500; 502; 503; 504]%Z.

Definition _should_retry_http_error (exception : exn) : bool :=
  match exception with
  | HTTPError resp =>
      let status_code :=
        match resp with
        | Some r => if response_bool r then Some (status_code r) else None
        | None => None
        end in
      match status_code with
      | Some c => existsb (Z.eqb c) retryable_status_codes
      | None => false
      end
  | _ => false
  end.

(** The [retry=] argument of the decorator. *)
Definition should_retry (e : exn) : bool :=
  match e with
  | ConnectionError => true
  | Timeout => true
  | _ => _should_retry_http_error e
  end.

(** [response.raise_for_status()] *)
Definition raise_for_status (r : response) : result unit :=
  if (400 <=? status_code r)%Z && (status_code r <? 600)%Z
  then Raise (HTTPError (Some r)) else Ok tt.

(** [r"\s*\(\d{2}:\d{2}:\d{2}\)\s*$"] *)
Definition timestamp_re : Re.regex :=
  Re.cat [Re.Rep Re.Greedy 0 Py.is_space; Re.Lit "(";
          Re.Cls Py.is_digit; Re.Cls Py.is_digit; Re.Lit ":";
          Re.Cls Py.is_digit; Re.Cls Py.is_digit; Re.Lit ":";
          Re.Cls Py.is_digit; Re.Cls Py.is_digit; Re.Lit ")";
          Re.Rep Re.Greedy 0 Py.is_space; Re.Eos].

Definition clean_title (title : string) : string :=
  Py.strip (Re.sub timestamp_re EmptyString title).

(** A run of the poller: its mutable state is the document store. *)
Abbreviation run := (M store).

Section Bot.

(** [DISCORD_DINGERS_WEBHOOK_URL], when set. *)
Variable DISCORD_DINGERS_WEBHOOK_URL : option string.

(** [hashlib.sha256(video_url.encode("utf-8")).hexdigest()] *)
Variable _video_doc_id : string -> string.

(** [statsapi.game_highlights(game_id)], [requests.post(url, json=...)]
    and the schedule of the day with the games of its first date. *)
Variable game_highlights : Z -> result string.
Variable requests_post : trace -> string -> string -> result response.
Variable schedule : result (list game).

(** The clock, in seconds. *)
Variable now : Z.


Definition has_posted_video (date_str video_url : string) : run bool :=
  docs ← get_state;
  mret (bool_decide (is_Some (docs !! (date_str, _video_doc_id video_url)))).

Definition mark_video_posted (date_str : string) (h : highlight) : run unit :=
  let expires_at := (now + 2 * 86400)%Z in
  docs ← get_state;
  put_state (<[(date_str, _video_doc_id (video_url h)) :=
                 VideoDoc (video_url h) (title h) (description h) now expires_at]> docs).

Definition get_todays_games : list game :=
  match schedule with
  | Ok games => games
  | Raise _ => []
  end.

Definition extract_hr_highlights (game_id : Z) : list highlight :=
  match game_highlights game_id with
  | Ok highlights_text => hr_of_entries game_id (Py.split (NL ++ NL) highlights_text)
  | Raise _ => []
  end.

(** The body of [post_to_discord]: [Some false] for [return False]. *)
Definition post_once (h : highlight) : run (option bool) :=
  match Email.configured DISCORD_DINGERS_WEBHOOK_URL with
  | None => mret (Some false)
  | Some url =>
      let content :=
        "☄️ **" ++ clean_title (title h) ++ "**" ++ NL ++ description h ++ NL
        ++ "[Video](" ++ video_url h ++ ")" in
      response ← call (EvPost url content) (fun t => requests_post t url content);
      _ ← lift (raise_for_status response);
      mret None
  end.

(** [@retry(stop=stop_after_attempt(n), wait=wait_fixed(ms), retry=p,
    reraise=True)]: [more] attempts are left after this one. *)
Fixpoint retrying {A} (more : nat) (wait_ms : Z) (p : exn -> bool) (f : run A) : run A :=
  catch f
    (fun e =>
       if p e then
         match more with
         | O => raise e
         | S more' =>
             _ ← call (EvSleep wait_ms) (fun _ => Ok tt);
             retrying more' wait_ms p f
         end
       else raise e).

Definition post_to_discord (h : highlight) : run (option bool) :=
  retrying 2 500 should_retry (post_once h).

Definition live_or_final (g : game) : bool :=
  String.eqb (abstractGameState g) "Live" || String.eqb (abstractGameState g) "Final".

(** The loop over the highlights of one game. *)
Fixpoint post_new (date_str : string) (highlights : list highlight) : run unit :=
  match highlights with
  | [] => mret tt
  | h :: rest =>
      posted ← has_posted_video date_str (video_url h);
      _ ← (if posted : bool then mret tt
           else catch (_ ← post_to_discord h; mark_video_posted date_str h)
                      (fun _ => mret tt));
      post_new date_str rest
  end.

Fixpoint check_games (date_str : string) (games : list game) : run unit :=
  match games with
  | [] => mret tt
  | g :: rest =>
      _ ← (if live_or_final g then
             match gamePk g with
             | None | Some 0%Z => mret tt
             | Some game_id => post_new date_str (extract_hr_highlights game_id)
             end
           else mret tt);
      check_games date_str rest
  end.

(** [main]: the date is that of the clock. *)
Definition main (date_str : string) : run unit :=
  check_games date_str get_todays_games.

End Bot.

End Dingers.

(* ================================================================= *)
(** ** transactions/gmail_watch.py *)

Module GmailWatch.

(** What [users().watch(...).execute()] answers: its ["expiration"], when
    it has one. *)
Record watch_response : Type := WatchResponse { expiration : option string }.

(** The two calls [renew_gmail_watch] issues: the listing of the labels,
    as pairs of id and name, and [watch] with its topic name and label
    ids. *)
Record service : Type := Service {
  labels_list : result (list (string * string));
  watch : string -> list string -> result watch_response
}.

(** [json.loads(None)] raises a [TypeError], and [f"{None}"] is "None". *)
Definition loads_arg (s : option string) : result string :=
  match s with
  | Some s => Ok s
  | None =>
      Raise (OtherError "the JSON object must be str, bytes or bytearray, not NoneType")
  end.

Definition format_arg (s : option string) : string :=
  match s with
  | Some s => s
  | None => "None"
  end.

Section Watch.

(** [Credentials.from_authorized_user_info(json.loads(...))] and [build]. *)
Variable _get_gmail_service : string -> result service.

Definition renew_gmail_watch (gmail_credentials_json gcp_project_id : option string)
    : result watch_response :=
  credentials ← loads_arg gmail_credentials_json;
  service ← _get_gmail_service credentials;
  labels ← labels_list service;
  let label_id :=
    fst <$> List.find (fun l => String.eqb (snd l) "DOO Transaction") labels in
  match label_id with
  | None | Some EmptyString =>
      Raise (OtherError "'DOO Transaction' label not found in Gmail — create it first")
  | Some label_id =>
      let topic_name :=
        "projects/" ++ format_arg gcp_project_id ++ "/topics/transactions-pushes" in
      watch service topic_name [label_id]
  end.

End Watch.

End GmailWatch.

(* ================================================================= *)
(** ** transactions/main.py *)

Module Transactions.

(** A parsed JSON value; an object is the list of its items. *)
Inductive json : Type :=
| JNull
| JBool (b : bool)
| JNum (z : Z)
| JStr (s : string)
| JList (l : list json)
| JDict (items : list (string * json)).

(** The truth value of [v] in a condition. *)
Definition truthy (v : json) : bool :=
  match v with
  | JNull => false
  | JBool b => b
  | JNum z => negb (Z.eqb z 0)
  | JStr s => negb (String.eqb s "")
  | JList l => match l with [] => false | _ => true end
  | JDict items => match items with [] => false | _ => true end
  end.

Definition is_str (key : string) (v : json) : bool :=
  match v with
  | JStr s => String.eqb s key
  | _ => false
  end.

(** [v.get(key)]: only an object has the method. *)
Definition get (v : json) (key : string) : result (option json) :=
  match v with
  | JDict items => Ok (Email.assoc key items)
  | _ => Raise AttributeError
  end.

(** What [main] answers: the object it serialises, and the status. *)
Inductive body : Type :=
| Renewed (expiration : option string)
| RenewalFailed (error : string)
| Processed (result : Email.status)
| ProcessingFailed (error : string)
| InvalidRequest.

Section Bot.

(** The texts of the [TypeError]s that [key in v] and [v[key]] raise for
    a string [key] and a value [v] that does not take it; they name the
    type of [v]. *)
Variable not_iterable : json -> string.
Variable bad_index : json -> string.

(** [key in v] for a string [key]: a key of an object, an element of a
    list, a stretch of a string; a [TypeError] otherwise. *)
Definition contains_key (key : string) (v : json) : result bool :=
  match v with
  | JDict items =>
      Ok match Email.assoc key items with Some _ => true | None => false end
  | JList l => Ok (existsb (is_str key) l)
  | JStr s => Ok (Py.contains key s)
  | _ => Raise (OtherError (not_iterable v))
  end.

(** [v[key]] for a string [key]. *)
Definition getitem (v : json) (key : string) : result json :=
  match v with
  | JDict items =>
      match Email.assoc key items with
      | Some x => Ok x
      | None => Raise (KeyError key)
      end
  | _ => Raise (OtherError (bad_index v))
  end.

Variable soup : string -> list Email.node.
Variable urlsafe_b64decode_utf8 : string -> result string.
Variable _get_gmail_service : string -> result Email.service.
Variable watch_service : string -> result GmailWatch.service.

(** [base64.b64decode(x).decode("utf-8")] and [json.loads]. *)
Variable b64decode_utf8 : json -> result string.
Variable json_loads : string -> result json.

(** The environment. *)
Variable GCP_PROJECT_ID : option string.
Variable GMAIL_CREDENTIALS_JSON : option string.
Variable DISCORD_TRANSACTIONS_WEBHOOK_URL : option string.
Variable DISCORD_TRADE_BLOCK_WEBHOOK_URL : option string.

(** [request_json and request_json.get("action") == "renew_watch"] *)
Definition wants_renewal (request_json : json) : result bool :=
  if truthy request_json then
    action ← get request_json "action";
    Ok match action with Some a => is_str "renew_watch" a | None => false end
  else Ok false.

(** [request_json and "message" in request_json] *)
Definition has_message (request_json : json) : result bool :=
  if truthy request_json then contains_key "message" request_json else Ok false.

(** The message data of a Pub/Sub message: [{}] without ["data"]. *)
Definition message_data (pubsub_message : json) : result json :=
  has_data ← contains_key "data" pubsub_message;
  if has_data : bool then
    data ← getitem pubsub_message "data";
    decoded_data ← b64decode_utf8 data;
    match decoded_data with
    | EmptyString => Ok (JDict [])
    | _ => json_loads decoded_data
    end
  else Ok (JDict []).

Definition main (request_json : json) : Email.pass (body * Z) :=
  renewal ← lift (wants_renewal request_json);
  if renewal : bool then
    match GmailWatch.renew_gmail_watch watch_service GMAIL_CREDENTIALS_JSON
            GCP_PROJECT_ID with
    | Ok response => mret (Renewed (GmailWatch.expiration response), 200%Z)
    | Raise e => mret (RenewalFailed (str_exn e), 500%Z)
    end
  else
    message ← lift (has_message request_json);
    if message : bool then
      catch
        (pubsub_message ← lift (getitem request_json "message");
         _ ← lift (message_data pubsub_message);
         credentials ← lift (GmailWatch.loads_arg GMAIL_CREDENTIALS_JSON);
         result ← Email.process_email soup urlsafe_b64decode_utf8
                    _get_gmail_service credentials
                    DISCORD_TRANSACTIONS_WEBHOOK_URL
                    DISCORD_TRADE_BLOCK_WEBHOOK_URL;
         mret (Processed result, 200%Z))
        (fun e => mret (ProcessingFailed (str_exn e), 200%Z))
    else mret (InvalidRequest, 400%Z).

End Bot.

End Transactions.

(* ================================================================= *)
(** ** What the statements below speak of *)

(** [phrase] occurs in [text] when letter case is ignored: some stretch of
    [text] lowers to [phrase]. *)
Definition icontains (phrase text : string) : Prop :=
  exists pre u post, text = pre ++ u ++ post /\ Py.lower u = phrase.

(** Every character of [s] is in the class [p]. *)
Fixpoint all_chars (p : ascii -> bool) (s : string) : bool :=
  match s with
  | EmptyString => true
  | String c s' => p c && all_chars p s'
  end.

Definition blank (s : string) : bool := all_chars Py.is_space s.

(** The number of webhook posts a log holds, and an endpoint that gives
    its answers in the order of a list, one per post. *)
Definition posts_in (t : trace) : nat :=
  List.length (List.filter (fun e => match e with EvPost _ _ => true | _ => false end) t).

Definition sleeps_in (t : trace) : list Z :=
  flat_map (fun e => match e with EvSleep ms => [ms] | _ => [] end) t.

Definition answering (answers : list (result response))
    : trace -> string -> string -> result response :=
  fun t _ _ => nth (posts_in t) answers (Raise (OtherError "no answer")).

Definition smith_homers : Dingers.highlight :=
  Dingers.Highlight "Smith homers (02:34:56)" "Solo home run"
                    "https://example.com/v.mp4" 7.

Definition smith_feed : string :=
  "Smith homers (02:34:56)" ++ NL ++ "Solo home run" ++ NL
  ++ "https://example.com/v.mp4".

(** Group [i] takes part in every match of [r]: it is on every path
    through the pattern. *)
Fixpoint defines (i : nat) (r : Re.regex) : bool :=
  match r with
  | Re.Cat r1 r2 => defines i r1 || defines i r2
  | Re.Alt r1 r2 => defines i r1 && defines i r2
  | Re.Grp j r1 => Nat.eqb i j || defines i r1
  | _ => false
  end.

(** How many times a log archives the message [msg_id], and which
    messages it fetches or archives. *)
Definition is_archive (msg_id : string) (e : event) : bool :=
  match e with
  | EvArchive m => String.eqb m msg_id
  | _ => false
  end.

Definition archives (msg_id : string) (t : trace) : nat :=
  List.length (List.filter (is_archive msg_id) t).

(** How many times [msg_id] is listed. *)
Definition listed_times (msg_id : string) (messages : list string) : nat :=
  List.length (List.filter (String.eqb msg_id) messages).

Definition touched (t : trace) : list string :=
  flat_map (fun e => match e with
                     | EvGet m => [m]
                     | EvArchive m => [m]
                     | _ => []
                     end) t.

(** A mailbox for the examples: its messages carry a claim subject and
    no HTML part, the listing honours [maxResults], and the first archive
    call for a message fails. *)
Definition plain_message : Email.message :=
  Email.Message [("Subject", "Player(s) Claimed - Team X")]
                (Email.Part "text/plain" "aGVsbG8") [].

Definition flaky_mailbox (inbox : list string) : Email.service :=
  {| Email.labels_list := fun _ => Ok [("Label_7", "DOO Transaction")];
     Email.messages_list := fun _ _ n => Ok (firstn n inbox);
     Email.messages_get := fun _ _ => Ok plain_message;
     Email.messages_modify :=
       fun t m => if Nat.eqb (archives m t) 0
                  then Raise (OtherError "backend error") else Ok tt;
     Email.requests_post := fun _ _ _ => Ok tt |}.

Definition run_flaky (inbox : list string)
    : result Email.status * (trace * list Email.processed_entry) :=
  Email.process_email (fun _ => []) (fun s => Ok s)
    (fun _ => Ok (flaky_mailbox inbox)) "{}" None None ([], []).

(** What a pattern matches, apart from the order in which the matcher
    tries things: [matches r s rest] says that [r] matches the text [s]
    when [rest] is what follows it. *)
Fixpoint matches (r : Re.regex) (s rest : string) : Prop :=
  match r with
  | Re.Lit l => s = l
  | Re.Cls p => exists c, s = String c "" /\ p c = true
  | Re.Rep _ n p => all_chars p s = true /\ n <= String.length s
  | Re.Cat r1 r2 =>
      exists a b, s = a ++ b /\ matches r1 a (b ++ rest) /\ matches r2 b rest
  | Re.Alt r1 r2 => matches r1 s rest \/ matches r2 s rest
  | Re.Grp _ r1 => matches r1 s rest
  | Re.Eos => s = "" /\ (rest = "" \/ rest = NL)
  end.

(** A timestamp annotation [(HH:MM:SS)]: two decimal digits in each
    field. *)
Definition is_timestamp (ts : string) : bool :=
  match ts with
  | String a (String h1 (String h2 (String c1 (String m1 (String m2
      (String c2 (String s1 (String s2 (String b EmptyString))))))))) =>
      Ascii.eqb a "(" && Py.is_digit h1 && Py.is_digit h2
      && Ascii.eqb c1 ":" && Py.is_digit m1 && Py.is_digit m2
      && Ascii.eqb c2 ":" && Py.is_digit s1 && Py.is_digit s2
      && Ascii.eqb b ")"
  | _ => false
  end.

(** The title ends in [" (HH:MM:SS)"], as the specification writes the
    suffix: one space and a timestamp. *)
Definition timestamp_suffix (title : string) : bool :=
  let n := String.length title in
  (11 <=? n)%nat
  && String.eqb (Py.take 1 (Py.drop (n - 11) title)) " "
  && is_timestamp (Py.drop (n - 10) title).

(** The number of characters of [s] that are not white space. *)
Fixpoint inked (s : string) : nat :=
  match s with
  | EmptyString => 0
  | String c s' => (if Py.is_space c then 0 else 1) + inked s'
  end.

(** The tags below a list of siblings, in document order. *)
Fixpoint elements (n : Email.node) : list Email.node :=
  match n with
  | Email.Text _ => []
  | Email.Elem _ _ kids => n :: flat_map elements kids
  end.

Definition carries (cls : string) (n : Email.node) : bool :=
  match n with
  | Email.Text _ => false
  | Email.Elem _ classes _ => Email.has_class cls classes
  end.

Definition children (n : Email.node) : list Email.node :=
  match n with
  | Email.Text _ => []
  | Email.Elem _ _ kids => kids
  end.

Definition is_br (n : Email.node) : bool :=
  match n with
  | Email.Text _ => false
  | Email.Elem tag _ _ => String.eqb tag "br"
  end.

(** Two neighbouring lines are both empty; both blank. *)
Fixpoint adjacent_empty (lines : list string) : bool :=
  match lines with
  | a :: (b :: _) as rest =>
      (String.eqb a "" && String.eqb b "") || adjacent_empty rest
  | _ => false
  end.

Fixpoint adjacent_blank (lines : list string) : bool :=
  match lines with
  | a :: (b :: _) as rest => (blank a && blank b) || adjacent_blank rest
  | _ => false
  end.

Definition nonempty (s : string) : bool := negb (String.eqb s "").

(** A document whose marked container holds "a", three line breaks and
    "b". *)
Definition three_breaks : list Email.node :=
  [Email.Elem "html" []
     [Email.Elem "body" []
        [Email.Elem "div" ["darkmode-text"]
           [Email.Text "a"; Email.Elem "br" [] []; Email.Elem "br" [] [];
            Email.Elem "br" [] []; Email.Text "b"]]]].

(** [lbl] occurs in [s] with [pre] before it and [post] after it, and
    nowhere earlier. *)
Definition first_occurrence (lbl s pre post : string) : Prop :=
  s = pre ++ lbl ++ post
  /\ forall pre' post', s = pre' ++ lbl ++ post' ->
                        String.length pre <= String.length pre'.

(** The split of [s] at the first occurrence of [lbl], computed. *)
Fixpoint find_first (lbl s : string) : option (string * string) :=
  if Py.startswith lbl s then Some ("", Py.drop (String.length lbl) s)
  else
    match s with
    | EmptyString => None
    | String c s' =>
        match find_first lbl s' with
        | Some (a, b) => Some (String c a, b)
        | None => None
        end
    end.

(** A name as the listing of players has it: it is not empty, has no
    white space at its ends, no line break and no two white-space
    characters in a row. *)
Fixpoint tight (s : string) : bool :=
  match s with
  | EmptyString => true
  | String c s' =>
      (if Py.is_space c
       then negb (Ascii.eqb c Py.LF)
            && match s' with
               | String d _ => negb (Py.is_space d)
               | EmptyString => false
               end
       else true)
      && tight s'
  end.

Definition is_name (s : string) : bool :=
  match s with
  | String c _ => negb (Py.is_space c) && tight s
  | EmptyString => false
  end.

(** A gap between two names: white space that holds a line break or is
    at least two characters long. *)
Definition is_gap (g : string) : bool :=
  blank g && (Py.contains NL g || (2 <=? String.length g)%nat).

(** Names with the gap that follows each; the gap after the last name
    may be any white space. *)
Fixpoint listing (entries : list (string * string)) : string :=
  match entries with
  | [] => ""
  | (name, gap) :: rest => name ++ gap ++ listing rest
  end.

Fixpoint well_listed (entries : list (string * string)) : bool :=
  match entries with
  | [] => true
  | (name, gap) :: rest =>
      is_name name
      && match rest with
         | [] => blank gap
         | _ => is_gap gap
         end
      && well_listed rest
  end.

(** The listing without the white space after its last name. *)
Fixpoint core (entries : list (string * string)) : string :=
  match entries with
  | [] => ""
  | (name, gap) :: rest =>
      match rest with
      | [] => name
      | _ => name ++ gap ++ core rest
      end
  end.

(** [b] put before the first piece of a split. *)
Definition prepend (b : string) (pieces : list string) : list string :=
  match pieces with
  | p :: ps => (b ++ p) :: ps
  | [] => [b]
  end.

(** The text does not begin with white space. *)
Definition starts_inked (s : string) : Prop :=
  match s with
  | String d _ => Py.is_space d = false
  | EmptyString => True
  end.

(** The text between the first [lbl] and the first [nxt] after it. *)
Definition section_text (lbl nxt text : string) : option string :=
  match find_first lbl text with
  | Some (_, post) =>
      match find_first nxt post with
      | Some (cap, _) => Some cap
      | None => None
      end
  | None => None
  end.

(** A section's field: the sentinel when the section is absent or
    blank, its stripped text otherwise. *)
Definition or_sentinel (sec : option string) : string :=
  match sec with
  | Some cap => if blank cap then "(None specified)" else Py.strip cap
  | None => "(None specified)"
  end.

(** The comment: what follows the first "Comment:" up to the first
    "Note that" after it, or to the end, stripped; empty without a
    "Comment:". *)
Definition comment_text (text : string) : string :=
  match find_first "Comment:" text with
  | Some (_, post) =>
      match find_first "Note that" post with
      | Some (cap, _) => Py.strip cap
      | None => Py.strip post
      end
  | None => ""
  end.

(** The text holds "- <team> has made changes to the Trade Block" with a
    team that is not empty and on one line. *)
Definition team_phrase (text : string) : Prop :=
  exists pre raw after,
    text = pre ++ "- " ++ raw ++ " has made changes to the Trade Block" ++ after
    /\ raw <> "" /\ all_chars Py.not_newline raw = true.

(** A trade-block text: the league and "Grand Salamis", six players
    offered, every other section blank. *)
Definition salamis_names : list (string * string) :=
  [("Contreras, Willson", NL); ("Turner, Trea", NL); ("Smith, Cam", "  ");
   ("Wallner, Matt", NL ++ NL); ("Miller, Bryce", " " ++ NL ++ " ");
   ("Pfaadt, Brandon", " ")].

Definition salamis_block : string :=
  "Fantrax - The Don Orsillo Open - Grand Salamis has made changes to the Trade Block. "
  ++ "Players Offered: " ++ listing salamis_names
  ++ "Positions Offered: Stats Offered: Positions Needed: Stats Needed: Comment: "
  ++ "Note that you can adjust your notification settings.".

(** The log of [k] attempts that were retried: each a post followed by a
    wait of 500 ms. *)
Fixpoint retried (url content : string) (k : nat) : trace :=
  match k with
  | O => []
  | S k' => (retried url content k' ++ [EvPost url content; EvSleep 500])%list
  end.

(** The text [post_to_discord] sends for a highlight. *)
Definition dinger_content (h : Dingers.highlight) : string :=
  "☄️ **" ++ Dingers.clean_title (Dingers.title h) ++ "**" ++ NL
  ++ Dingers.description h ++ NL ++ "[Video](" ++ Dingers.video_url h ++ ")".

(** How one attempt ends, given the answer of the endpoint. *)
Definition attempt_outcome (answer : result response) : result (option bool) :=
  match answer with
  | Ok r => match Dingers.raise_for_status r with Ok _ => Ok None | Raise e => Raise e end
  | Raise e => Raise e
  end.


(** The highlights a poll looks at: the home-run highlights of the games
    that are live or final and have a game id, in the order of the
    schedule. *)
Definition polled_highlights (game_highlights : Z -> result string)
    (games : list Dingers.game) : list Dingers.highlight :=
  flat_map
    (fun g =>
       if Dingers.live_or_final g then
         match Dingers.gamePk g with
         | None | Some 0%Z => []
         | Some game_id => Dingers.extract_hr_highlights game_highlights game_id
         end
       else [])
    games.

(** The key of the dedup record of a highlight. *)
Definition dedup_key (doc_id : string -> string) (date : string)
    (h : Dingers.highlight) : string * string :=
  (date, doc_id (Dingers.video_url h)).

(** An endpoint that accepts every post. *)
Definition accepts_all (rp : trace -> string -> string -> result response) : Prop :=
  forall t url content,
    exists r, rp t url content = Ok r /\ Dingers.raise_for_status r = Ok tt.

(** What the attempts to post a highlight log: waits of 500 ms and posts
    of its text. *)
Definition post_or_wait (h : Dingers.highlight) (e : event) : Prop :=
  e = EvSleep 500 \/ exists u, e = EvPost u (dinger_content h).

(** A mailbox for the examples: its messages are trade-block notices
    with an HTML body, and every call succeeds. *)
Definition block_message : Email.message :=
  Email.Message [("Subject", "Trade Block Changed")]
                (Email.Part "multipart/alternative" "")
                [Email.Part "text/plain" "aGVsbG8"; Email.Part "text/html" "PHA+aGk8L3A+"].

Definition steady_mailbox (inbox : list string) : Email.service :=
  {| Email.labels_list := fun _ => Ok [("Label_7", "DOO Transaction")];
     Email.messages_list := fun _ _ n => Ok (firstn n inbox);
     Email.messages_get := fun _ _ => Ok block_message;
     Email.messages_modify := fun _ _ => Ok tt;
     Email.requests_post := fun _ _ _ => Ok tt |}.

(** What [re.sub] does with the pattern "one or more characters of the
    class [p]": every run of such characters becomes [repl]. *)
Fixpoint sub_runs (p : ascii -> bool) (repl : string) (in_run : bool) (s : string)
    : string :=
  match s with
  | EmptyString => EmptyString
  | String c s' =>
      if p c then
        if in_run then sub_runs p repl true s'
        else repl ++ sub_runs p repl true s'
      else String c (sub_runs p repl false s')
  end.

(** No two characters of the class [p] in a row. *)
Fixpoint no_adjacent (p : ascii -> bool) (s : string) : bool :=
  match s with
  | String c s' =>
      match s' with
      | String d _ => negb (p c && p d)
      | EmptyString => true
      end
      && no_adjacent p s'
  | EmptyString => true
  end.

(** The only white space is the space character. *)
Definition space_only (c : ascii) : bool := negb (Py.is_space c) || Ascii.eqb c " ".

(** A text with no white space at its ends whose only white space is
    single spaces. *)
Definition clean (s : string) : Prop :=
  Py.strip s = s /\ all_chars space_only s = true /\ no_adjacent Py.is_space s = true.

(** The text does not end with white space. *)
Fixpoint ends_inked (s : string) : Prop :=
  match s with
  | EmptyString => True
  | String c s' =>
      match s' with
      | EmptyString => Py.is_space c = false
      | _ => ends_inked s'
      end
  end.

(** [r1] is the pattern inside a group numbered [i] of [r]. *)
Fixpoint group_body (i : nat) (r r1 : Re.regex) : Prop :=
  match r with
  | Re.Cat a b => group_body i a r1 \/ group_body i b r1
  | Re.Alt a b => group_body i a r1 \/ group_body i b r1
  | Re.Grp j a => (i = j /\ r1 = a) \/ group_body i a r1
  | _ => False
  end.

(** The groups [c'] holds beyond those of [c] are texts that the patterns
    inside the groups of [r] match. *)
Definition caps_from (r : Re.regex) (c c' : Re.caps) : Prop :=
  forall i g,
    c' i = Some g ->
    c i = Some g \/ exists r1 rest, group_body i r r1 /\ matches r1 g rest.

(** A line as [_parse_trade] leaves it: stripped, on one line, and with
    no two spaces in a row. *)
Definition trade_line (line : string) : Prop :=
  Py.strip line = line
  /\ no_adjacent (Py.is_char " ") line = true
  /\ all_chars Py.not_newline line = true.

(** A name of a list of players: not empty, stripped and on one line. *)
Definition listed_name (name : string) : Prop :=
  name <> "" /\ Py.strip name = name /\ all_chars Py.not_newline name = true.

(** The messages a log fetches, in order. *)
Definition fetched (t : trace) : list string :=
  flat_map (fun e => match e with EvGet m => [m] | _ => [] end) t.

(** The text does not begin with a character of the class [p]. *)
Definition head_not (p : ascii -> bool) (s : string) : Prop :=
  match s with
  | String a _ => p a = false
  | EmptyString => True
  end.

(** The text of a draft pick as [_parse_draft] reads it: round and pick
    in digits, then the player and the team, with white space [ws] between
    the pieces. *)
Definition draft_notice (ws : list string) (round pick player team : string)
    (post : string) : string :=
  match ws with
  | [w1; w2; w3; w4; w5; w6; w7; w8; w9] =>
      "Round" ++ w1 ++ round ++ w2 ++ "," ++ w3 ++ "Pick" ++ w4 ++ pick ++ w5
      ++ ":" ++ w6 ++ player ++ w7 ++ "was picked by the team" ++ w8 ++ team
      ++ w9 ++ "." ++ post
  | _ => ""
  end.

(** Which of the nine stretches of white space must not be empty. *)
Definition draft_spacing (ws : list string) : bool :=
  match ws with
  | [w1; w2; w3; w4; w5; w6; w7; w8; w9] =>
      forallb blank ws
      && negb (String.eqb w1 "") && negb (String.eqb w4 "")
      && negb (String.eqb w7 "") && negb (String.eqb w8 "")
  | _ => false
  end.

(** A field between white space: not empty, no white space at its
    ends. *)
Definition inked_ends (s : string) : Prop :=
  s <> "" /\ starts_inked s /\ ends_inked s.

(** The text fragments below a node, in document order, a line-break tag
    counting as the string of one newline. *)
Fixpoint fragments (n : Email.node) : list string :=
  match n with
  | Email.Text s => [s]
  | Email.Elem tag _ kids =>
      if String.eqb tag "br" then [NL] else flat_map fragments kids
  end.

Definition fragments_below (n : Email.node) : list string :=
  flat_map fragments (children n).

(** [l] with its empty lines drawn out into runs: the k-th empty line of
    [l] stands one time more than the k-th number of [runs] says. *)
Fixpoint stretch (runs : list nat) (l : list string) : list string :=
  match l with
  | [] => []
  | EmptyString :: l' =>
      match runs with
      | n :: runs' => (repeat EmptyString (S n) ++ stretch runs' l')%list
      | [] => EmptyString :: stretch [] l'
      end
  | x :: l' => x :: stretch runs l'
  end.

(** The list does not begin with an empty line. *)
Definition head_filled (l : list string) : Prop :=
  match l with
  | EmptyString :: _ => False
  | _ => True
  end.

(** A document whose marked container holds text in nested tags, a single
    empty line, a run of three empty lines and a line on its own; and a
    document without a marked container. *)
Definition trade_notice : list Email.node :=
  [Email.Elem "html" []
     [Email.Elem "body" []
        [Email.Elem "p" [] [Email.Text "outside"];
         Email.Elem "td" ["x"; "darkmode-text"]
           [Email.Text "  Deal  "; Email.Elem "b" [] [Email.Text "A  for B"];
            Email.Elem "br" [] []; Email.Elem "br" [] [];
            Email.Elem "span" [] [Email.Text "x "; Email.Elem "br" [] []];
            Email.Elem "br" [] []; Email.Elem "br" [] []; Email.Elem "br" [] [];
            Email.Text "y"; Email.Elem "br" [] []; Email.Text "z"]]]].

Definition plain_page : list Email.node :=
  [Email.Elem "html" []
     [Email.Elem "body" []
        [Email.Elem "p" [] [Email.Text " Hello"; Email.Elem "br" [] []];
         Email.Elem "p" [] [Email.Text "world "]]]].

(** [c] is the letter [p] in either case: [p] itself, or the capital
    letter A..Z whose small letter is [p]. *)
Definition same_letter (c p : ascii) : Prop :=
  c = p \/ (65 <= nat_of_ascii c <= 90 /\ nat_of_ascii p = nat_of_ascii c + 32)%nat.

(** [u] spells [phrase], letter by letter, when case is ignored. *)
Fixpoint spells (u phrase : string) : Prop :=
  match u, phrase with
  | EmptyString, EmptyString => True
  | String c u', String p phrase' => same_letter c p /\ spells u' phrase'
  | _, _ => False
  end.

(** [text] mentions [phrase]: some stretch of it spells it. *)
Definition mentions (phrase text : string) : Prop :=
  exists pre u post, text = pre ++ u ++ post /\ spells u phrase.

(** A phrase of small letters and signs below 128, to which no other
    character than its own capital lowers. *)
Definition plain (phrase : string) : bool :=
  all_chars (fun p => Nat.ltb (nat_of_ascii p) 128 && negb (Py.is_upper_az p)) phrase.

(** [sep] occurs in [s]. *)
Definition occurs (sep s : string) : Prop := exists pre post, s = pre ++ sep ++ post.

(** The pieces of [s] between the occurrences of [sep], read from the
    left: [s] itself when [sep] does not occur in it; otherwise what
    stands before the first occurrence, and then the pieces of what
    follows it. *)
Inductive pieces (sep : string) : string -> list string -> Prop :=
| pieces_whole (s : string) : ~ occurs sep s -> pieces sep s [s]
| pieces_cut (x rest : string) (l : list string) :
    first_occurrence sep (x ++ sep ++ rest) x rest ->
    pieces sep rest l ->
    pieces sep (x ++ sep ++ rest) (x :: l).

(** A feed of six entries: two home runs (one named in capitals in the
    title, one in the description only, with a fourth line), a double, an
    entry of two lines, an empty entry and an entry that spells the phrase
    with a hyphen and with two spaces. *)
Definition mixed_feed : string :=
  "Judge HOMERS to left" ++ NL ++ "A solo shot" ++ NL ++ "https://v/1" ++ NL ++ NL
  ++ "Soto doubles" ++ NL ++ "Line drive to right" ++ NL ++ "https://v/2" ++ NL ++ NL
  ++ "Alonso goes deep" ++ NL ++ "His 30th Home Run" ++ NL ++ "https://v/3" ++ NL ++ "extra"
  ++ NL ++ NL
  ++ "Home run call" ++ NL ++ "https://v/4" ++ NL ++ NL
  ++ NL ++ NL
  ++ "Home-run derby" ++ NL ++ "home  run" ++ NL ++ "https://v/5".

(** The details of a trade-block notice, line by line: the team, the
    players one to a line (or "(none)"), the four fields, and the
    comment when there is one. *)
Definition block_details (b : Email.trade_block) : string :=
  "**" ++ Email.team b ++ "** updated their trade block" ++ NL
  ++ NL
  ++ "**Players Offered:**" ++ NL
  ++ match Email.players_offered b with
     | [] => "(none)"
     | players => Py.join NL players
     end ++ NL
  ++ NL
  ++ "**Positions Offered:** " ++ Email.positions_offered b ++ NL
  ++ "**Stats Offered:** " ++ Email.stats_offered b ++ NL
  ++ "**Positions Needed:** " ++ Email.positions_needed b ++ NL
  ++ "**Stats Needed:** " ++ Email.stats_needed b
  ++ match Email.comment b with
     | EmptyString => ""
     | c => NL ++ "**Comment:** " ++ c
     end.

(** Two offers: one with two players and a comment, one with neither. *)
Definition salamis_offer : Email.trade_block :=
  {| Email.team := "Grand Salamis";
     Email.players_offered := ["Mike Trout"; "Aaron Judge"];
     Email.positions_offered := "OF";
     Email.stats_offered := "(None specified)";
     Email.positions_needed := "SP, RP";
     Email.stats_needed := "K, ERA";
     Email.comment := "Open to offers" |}.

Definition bare_offer : Email.trade_block :=
  {| Email.team := "Grand Salamis";
     Email.players_offered := [];
     Email.positions_offered := "(None specified)";
     Email.stats_offered := "(None specified)";
     Email.positions_needed := "(None specified)";
     Email.stats_needed := "(None specified)";
     Email.comment := "" |}.

(* ================================================================= *)
(** ** Strings *)

Section StringFacts.

Lemma append_nil_r (s : string) : s ++ "" = s.
Proof. induction s as [|c s IH]; simpl; [reflexivity | now rewrite IH]. Qed.

Lemma append_assoc (a b c : string) : (a ++ b) ++ c = a ++ (b ++ c).
Proof. induction a as [|x a IH]; simpl; [reflexivity | now rewrite IH]. Qed.

Lemma length_append (a b : string) :
  String.length (a ++ b) = String.length a + String.length b.
Proof. induction a as [|x a IH]; simpl; [reflexivity | now rewrite IH]. Qed.

Lemma append_inv_head (a b c : string) : a ++ b = a ++ c -> b = c.
Proof. induction a as [|x a IH]; simpl; intros H; [exact H | inversion H; auto]. Qed.

Lemma startswith_append (p s : string) : Py.startswith p (p ++ s) = true.
Proof.
  induction p as [|a p IH]; simpl; [now destruct s|].
  now rewrite Ascii.eqb_refl, IH.
Qed.

Lemma startswith_inv (p s : string) :
  Py.startswith p s = true -> exists t, s = p ++ t.
Proof.
  revert s; induction p as [|a p IH]; intros s H.
  - exists s; reflexivity.
  - destruct s as [|b s]; simpl in H; [discriminate|].
    apply andb_true_iff in H as [Hab Hp].
    apply Ascii.eqb_eq in Hab; subst b.
    destruct (IH s Hp) as [t ->]. exists t; reflexivity.
Qed.

Lemma startswith_iff (p s : string) :
  Py.startswith p s = true <-> exists t, s = p ++ t.
Proof.
  split; [apply startswith_inv|]. intros [t ->]. apply startswith_append.
Qed.

Lemma drop_append (p s : string) : Py.drop (String.length p) (p ++ s) = s.
Proof. induction p as [|a p IH]; simpl; [now destruct s | exact IH]. Qed.

Lemma take_append (p s : string) : Py.take (String.length p) (p ++ s) = p.
Proof. induction p as [|a p IH]; simpl; [now destruct s | now rewrite IH]. Qed.

Lemma contains_startswith (sub s : string) :
  Py.startswith sub s = true -> Py.contains sub s = true.
Proof. intros H. destruct s; simpl; rewrite H; reflexivity. Qed.

Lemma contains_iff (sub s : string) :
  Py.contains sub s = true <-> exists pre post, s = pre ++ sub ++ post.
Proof.
  split.
  - induction s as [|c s IH]; simpl; intros H.
    + rewrite orb_false_r in H. apply startswith_inv in H as [t Ht].
      exists "", t. exact Ht.
    + apply orb_true_iff in H as [H|H].
      * apply startswith_inv in H as [t Ht]. exists "", t. exact Ht.
      * destruct (IH H) as (pre & post & ->). exists (String c pre), post. reflexivity.
  - intros (pre & post & ->). induction pre as [|c pre IH].
    + change ("" ++ sub ++ post) with (sub ++ post).
      apply contains_startswith, startswith_append.
    + change (String c pre ++ sub ++ post) with (String c (pre ++ sub ++ post)).
      simpl. rewrite IH. apply orb_true_r.
Qed.

Lemma lower_append (a b : string) : Py.lower (a ++ b) = Py.lower a ++ Py.lower b.
Proof. induction a as [|x a IH]; simpl; [reflexivity | now rewrite IH]. Qed.

Lemma lower_split (s a b : string) :
  Py.lower s = a ++ b ->
  exists a' b', s = a' ++ b' /\ Py.lower a' = a /\ Py.lower b' = b.
Proof.
  revert s; induction a as [|x a IH]; intros s H.
  - exists "", s. auto.
  - destruct s as [|c s]; simpl in H; [discriminate|].
    inversion H as [[Hc Hs]].
    destruct (IH s Hs) as (a' & b' & -> & Ha & Hb).
    exists (String c a'), b'. simpl. rewrite Ha. auto.
Qed.

Lemma icontains_iff (phrase text : string) :
  Py.contains phrase (Py.lower text) = true <-> icontains phrase text.
Proof.
  rewrite contains_iff. split.
  - intros (pre & post & H).
    apply lower_split in H as (pre' & rest & -> & _ & H).
    apply lower_split in H as (u & post' & -> & Hu & _).
    exists pre', u, post'. auto.
  - intros (pre & u & post & -> & Hu).
    exists (Py.lower pre), (Py.lower post).
    now rewrite !lower_append, Hu.
Qed.

End StringFacts.

(* ================================================================= *)
(** ** The subject classifier *)


(* ================================================================= *)
(** ** Home-run highlights *)

Lemma is_hr_iff (title description : string) :
  Dingers.is_hr title description = true
  <-> icontains "homer" title \/ icontains "home run" title
      \/ icontains "homer" description \/ icontains "home run" description.
Proof.
  unfold Dingers.is_hr. rewrite !orb_true_iff, !icontains_iff. tauto.
Qed.

Lemma hr_of_entries_In (game_id : Z) (entries : list string) (h : Dingers.highlight) :
  In h (Dingers.hr_of_entries game_id entries)
  <-> exists entry t d u rest,
        In entry entries
        /\ Py.split NL entry = t :: d :: u :: rest
        /\ h = Dingers.Highlight t d u game_id
        /\ Dingers.is_hr t d = true.
Proof.
  induction entries as [|entry entries IH].
  - simpl. split; [tauto|]. intros (? & ? & ? & ? & ? & [] & _).
  - assert (Hskip :
      (forall t d u rest, Py.split NL entry = t :: d :: u :: rest ->
                          Dingers.is_hr t d = false) ->
      (In h (Dingers.hr_of_entries game_id entries)
       <-> exists entry0 t d u rest,
           In entry0 (entry :: entries)
           /\ Py.split NL entry0 = t :: d :: u :: rest
           /\ h = Dingers.Highlight t d u game_id
           /\ Dingers.is_hr t d = true)).
    { intros Hno. rewrite IH. split.
      - intros (e & t & d & u & rest & Hin & H). exists e, t, d, u, rest.
        split; [right; exact Hin | exact H].
      - intros (e & t & d & u & rest & [<-|Hin] & Hs & Hh & Hhr).
        + rewrite (Hno _ _ _ _ Hs) in Hhr. discriminate.
        + exists e, t, d, u, rest. auto. }
    destruct entry as [|c entry'] eqn:Eentry.
    + simpl Dingers.hr_of_entries. apply Hskip. intros t d u rest H.
      discriminate H.
    + rewrite <- Eentry in *.
      assert (Hunf : Dingers.hr_of_entries game_id (entry :: entries) =
        match Py.split NL entry with
        | t :: d :: u :: _ =>
            if Dingers.is_hr t d
            then Dingers.Highlight t d u game_id :: Dingers.hr_of_entries game_id entries
            else Dingers.hr_of_entries game_id entries
        | _ => Dingers.hr_of_entries game_id entries
        end).
      { rewrite Eentry. reflexivity. }
      rewrite Hunf. clear Hunf Eentry.
      destruct (Py.split NL entry) as [|t [|d [|u rest]]] eqn:Es;
        try (apply Hskip; intros; discriminate).
      destruct (Dingers.is_hr t d) eqn:Ehr.
      * simpl. rewrite IH. split.
        -- intros [<-|(e & t' & d' & u' & rest' & Hin & H)].
           ++ exists entry, t, d, u, rest. auto.
           ++ exists e, t', d', u', rest'. split; [right; exact Hin | exact H].
        -- intros (e & t' & d' & u' & rest' & [<-|Hin] & Hs & Hh & Hhr).
           ++ rewrite Es in Hs. inversion Hs; subst. left; reflexivity.
           ++ right. exists e, t', d', u', rest'. auto.
      * apply Hskip. intros t' d' u' rest' H. inversion H; subst. exact Ehr.
Qed.

(* ================================================================= *)
(** ** The webhook post and its retries *)

(** C6.  With a webhook that answers 503, 503 and then 200,
    [post_to_discord] makes one attempt, does not wait, and raises the
    first 503 to its caller: [_should_retry_http_error] reads the status
    only [if exception.response], and a response with an error status is
    false, so no HTTP status is ever retried (not 429, 500, 502, 503 or
    504).  Connection failures and timeouts are retried up to three
    attempts, 500 ms apart, and a 404 fails at once. *)
Theorem post_to_discord_503_not_retried :
  let url := "https://discord.example/hook" in
  let post answers :=
    Dingers.post_to_discord (Some url) (answering answers) smith_homers ([], ∅) in
  (fst (post [Ok (Response 503); Ok (Response 503); Ok (Response 200)])
     = Raise (HTTPError (Some (Response 503)))
   /\ posts_in (fst (snd (post [Ok (Response 503); Ok (Response 503); Ok (Response 200)]))) = 1
   /\ sleeps_in (fst (snd (post [Ok (Response 503); Ok (Response 503); Ok (Response 200)]))) = [])
  /\ (forall c, In c Dingers.retryable_status_codes ->
        Dingers._should_retry_http_error (HTTPError (Some (Response c))) = false)
  /\ (fst (post [Raise ConnectionError; Raise Timeout; Ok (Response 200)]) = Ok None
      /\ posts_in (fst (snd (post [Raise ConnectionError; Raise Timeout; Ok (Response 200)]))) = 3
      /\ sleeps_in (fst (snd (post [Raise ConnectionError; Raise Timeout; Ok (Response 200)])))
         = [500; 500]%Z)
  /\ (fst (post [Ok (Response 404); Ok (Response 200)])
        = Raise (HTTPError (Some (Response 404)))
      /\ posts_in (fst (snd (post [Ok (Response 404); Ok (Response 200)]))) = 1).
Proof.
  cbv zeta. repeat split; try (vm_compute; reflexivity).
  intros c Hc. simpl in Hc.
  repeat (destruct Hc as [<-|Hc]; [reflexivity|]). destruct Hc.
Qed.

(* ================================================================= *)
(** ** The dedup record *)

Lemma bind_unfold {S A B} (m : M S A) (f : A -> M S B) (st : trace * S) :
  (m ≫= f) st = match m st with
                | (Ok a, st') => f a st'
                | (Raise e, st') => (Raise e, st')
                end.
Proof. reflexivity. Qed.

Lemma has_posted_video_spec (doc_id : string -> string) (date url : string)
    (t : trace) (docs : Dingers.store) :
  Dingers.has_posted_video doc_id date url (t, docs)
  = (Ok (bool_decide (is_Some (docs !! (date, doc_id url)))), (t, docs)).
Proof. reflexivity. Qed.

(** With no webhook URL, a highlight that is not in the store is marked
    as posted although nothing is sent. *)
Lemma post_new_unset (doc_id : string -> string)
    (rp : trace -> string -> string -> result response) (now : Z)
    (date : string) (h : Dingers.highlight) (t : trace) (docs : Dingers.store) :
  docs !! (date, doc_id (Dingers.video_url h)) = None ->
  Dingers.post_new None doc_id rp now date [h] (t, docs)
  = (Ok tt,
     (t, <[(date, doc_id (Dingers.video_url h)) :=
             Dingers.VideoDoc (Dingers.video_url h) (Dingers.title h)
               (Dingers.description h) now (now + 2 * 86400)]> docs)).
Proof.
  intros Hnone.
  unfold Dingers.post_new, Dingers.has_posted_video, Dingers.post_to_discord,
    Dingers.retrying, Dingers.post_once, Dingers.mark_video_posted, catch,
    get_state, put_state, mbind, M_bind, mret, M_ret.
  simpl. rewrite Hnone.
  rewrite bool_decide_eq_false_2; [reflexivity|]. intros [? H]; discriminate.
Qed.

Lemma smith_feed_highlights :
  Dingers.extract_hr_highlights (fun _ => Ok smith_feed) 7 = [smith_homers].
Proof. vm_compute. reflexivity. Qed.

Lemma main_one_live_game (url : option string) (doc_id : string -> string)
    (gh : Z -> result string) (rp : trace -> string -> string -> result response)
    (now : Z) (date : string) (st : trace * Dingers.store) :
  Dingers.main url doc_id gh rp (Ok [Dingers.Game "Live" (Some 7%Z)]) now date st
  = match Dingers.post_new url doc_id rp now date
            (Dingers.extract_hr_highlights gh 7) st with
    | (Ok _, st') => (Ok tt, st')
    | (Raise e, st') => (Raise e, st')
    end.
Proof.
  unfold Dingers.main, Dingers.get_todays_games.
  cbn [Dingers.check_games].
  change (Dingers.live_or_final (Dingers.Game "Live" (Some 7%Z))) with true.
  cbn [Dingers.gamePk]. unfold mbind, M_bind.
  destruct (Dingers.post_new url doc_id rp now date
              (Dingers.extract_hr_highlights gh 7) st) as [[[]|e] st']; reflexivity.
Qed.

(** C9.  With no webhook URL set, one live game and one home-run highlight
    that was not posted before, [main] issues no post at all and still
    writes the dedup record: [post_to_discord] returns [False] without
    raising, and [main] does not look at what it returns. *)
Theorem main_marks_without_posting (doc_id : string -> string) (now : Z) :
  let date := "2026-04-01" in
  let run :=
    Dingers.main None doc_id (fun _ => Ok smith_feed)
      (answering []) (Ok [Dingers.Game "Live" (Some 7%Z)]) now date in
  fst (Dingers.has_posted_video doc_id date "https://example.com/v.mp4" ([], ∅))
    = Ok false
  /\ fst (run ([], ∅)) = Ok tt
  /\ fst (snd (run ([], ∅))) = []
  /\ fst (Dingers.has_posted_video doc_id date "https://example.com/v.mp4"
            (snd (run ([], ∅))))
     = Ok true.
Proof.
  cbv zeta.
  rewrite main_one_live_game, smith_feed_highlights.
  rewrite post_new_unset by apply lookup_empty.
  cbn [fst snd]. rewrite !has_posted_video_spec. cbn [fst snd].
  change (Dingers.video_url smith_homers) with "https://example.com/v.mp4".
  rewrite lookup_empty, lookup_insert_eq.
  repeat split.
Qed.

(* ================================================================= *)
(** ** The matcher: a match sets the groups on its path *)

Section MatcherGroups.

Context {R : Type}.

Lemma rep_greedy_some (p : ascii -> bool) (n : nat) (s : string)
    (k : string -> option R) (x : R) :
  Re.rep_greedy p n s k = Some x -> exists s', k s' = Some x.
Proof.
  revert n; induction s as [|c s IH]; intros n H; simpl in H.
  - destruct n; [eauto | discriminate].
  - destruct (p c).
    + destruct (Re.rep_greedy p (Nat.pred n) s k) eqn:E.
      * inversion H; subst. eapply IH; eauto.
      * destruct n; [eauto | discriminate].
    + destruct n; [eauto | discriminate].
Qed.

Lemma rep_lazy_some (p : ascii -> bool) (n : nat) (s : string)
    (k : string -> option R) (x : R) :
  Re.rep_lazy p n s k = Some x -> exists s', k s' = Some x.
Proof.
  revert n; induction s as [|c s IH]; intros n H; simpl in H.
  - destruct n; [|discriminate]. destruct (k "") eqn:E; [|discriminate].
    inversion H; subst; eauto.
  - destruct n.
    + destruct (k (String c s)) eqn:E.
      * inversion H; subst; eauto.
      * destruct (p c); [|discriminate]. eapply IH; eauto.
    + destruct (p c); [|discriminate]. eapply IH; eauto.
Qed.

Lemma rmatch_groups (r : Re.regex) :
  forall (s : string) (c : Re.caps) (k : string -> Re.caps -> option R) (x : R),
    Re.rmatch r s c k = Some x ->
    exists s' c',
      k s' c' = Some x
      /\ (forall i, defines i r = true -> c' i <> None)
      /\ (forall i, c i <> None -> c' i <> None).
Proof.
  induction r as [l|p|g n p|r1 IH1 r2 IH2|r1 IH1 r2 IH2|j r1 IH1|];
    intros s c k x H; simpl in H.
  - destruct (Py.startswith l s); [|discriminate].
    eexists _, c. repeat split; eauto; try discriminate.
  - destruct s as [|a s]; [discriminate|]. destruct (p a); [|discriminate].
    eexists _, c. repeat split; eauto; try discriminate.
  - destruct g.
    + apply rep_greedy_some in H as [s' H]. exists s', c.
      repeat split; eauto; try discriminate.
    + apply rep_lazy_some in H as [s' H]. exists s', c.
      repeat split; eauto; try discriminate.
  - apply IH1 in H as (s1 & c1 & H & Hd1 & Hm1).
    apply IH2 in H as (s2 & c2 & H & Hd2 & Hm2).
    exists s2, c2. repeat split; auto.
    intros i Hi. simpl in Hi. apply orb_true_iff in Hi as [Hi|Hi]; auto.
  - destruct (Re.rmatch r1 s c k) eqn:E.
    + inversion H; subst. apply IH1 in E as (s1 & c1 & E & Hd & Hm).
      exists s1, c1. repeat split; auto.
      intros i Hi. simpl in Hi. apply andb_true_iff in Hi as [Hi _]; auto.
    + apply IH2 in H as (s1 & c1 & H & Hd & Hm).
      exists s1, c1. repeat split; auto.
      intros i Hi. simpl in Hi. apply andb_true_iff in Hi as [_ Hi]; auto.
  - apply IH1 in H as (s1 & c1 & H & Hd & Hm).
    eexists s1, _. split; [exact H|]. unfold Re.set_cap. split.
    + intros i Hi. simpl in Hi. destruct (Nat.eqb i j); [discriminate|].
      simpl in Hi. auto.
    + intros i Hi. destruct (Nat.eqb i j); [discriminate|]. auto.
  - exists s, c. repeat split; auto; try discriminate.
    destruct s as [|a [|b s]]; try discriminate; auto.
    destruct (Ascii.eqb a Py.LF); [auto | discriminate].
Qed.

End MatcherGroups.

Lemma match_at_groups (r : Re.regex) (s rest : string) (c : Re.caps) (i : nat) :
  Re.match_at r s = Some (rest, c) -> defines i r = true -> c i <> None.
Proof.
  unfold Re.match_at. intros H Hi.
  apply rmatch_groups in H as (s' & c' & H & Hd & _).
  inversion H; subst. auto.
Qed.

Lemma search_groups (r : Re.regex) (s : string) (c : Re.caps) (i : nat) :
  Re.search r s = Some c -> defines i r = true -> c i <> None.
Proof.
  induction s as [|a s IH]; simpl; intros H Hi.
  - destruct (Re.match_at r "") as [[rest c']|] eqn:E; [|discriminate].
    inversion H; subst. eapply match_at_groups; eauto.
  - destruct (Re.match_at r (String a s)) as [[rest c']|] eqn:E.
    + inversion H; subst. eapply match_at_groups; eauto.
    + auto.
Qed.

Lemma group_strip_ok (r : Re.regex) (s : string) (c : Re.caps) (i : nat) :
  Re.search r s = Some c -> defines i r = true ->
  exists g, c i = Some g /\ group_strip c i = Ok (Py.strip g).
Proof.
  intros H Hi. pose proof (search_groups _ _ _ _ H Hi) as Hc.
  unfold group_strip. destruct (c i) as [g|]; [eauto | contradiction].
Qed.

Lemma group1_or_empty_ok (r : Re.regex) (s : string) :
  defines 1 r = true ->
  exists v, Email.group1_or_empty (Re.search r s) = Ok v.
Proof.
  intros Hi. unfold Email.group1_or_empty.
  destruct (Re.search r s) as [c|] eqn:E; [|eauto].
  destruct (group_strip_ok _ _ _ _ E Hi) as (g & _ & ->). eauto.
Qed.

(* ================================================================= *)
(** ** The extractors never raise *)

Ltac use_group H i :=
  let g := fresh "g" in
  let Hg := fresh "Hg" in
  destruct (group_strip_ok _ _ _ i H eq_refl) as (g & _ & Hg);
  rewrite Hg; clear Hg; cbn [mbind result_bind].

Ltac use_section :=
  match goal with
  | |- context [Email.extract_section ?t ?a ?b] =>
      let v := fresh "v" in
      let Hv := fresh "Hv" in
      destruct (group1_or_empty_ok (Email.section_re a b) t eq_refl) as [v Hv];
      unfold Email.extract_section; rewrite Hv; clear Hv; cbn [mbind result_bind]
  | |- context [Email.group1_or_empty (Re.search ?r ?t)] =>
      let v := fresh "v" in
      let Hv := fresh "Hv" in
      destruct (group1_or_empty_ok r t eq_refl) as [v Hv];
      rewrite Hv; clear Hv; cbn [mbind result_bind]
  end.

Lemma parse_trade_block_total (text : string) :
  Email._parse_trade_block text = Ok None
  \/ exists b, Email._parse_trade_block text = Ok (Some (Email.BlockData b)).
Proof.
  unfold Email._parse_trade_block.
  destruct (Re.search Email.team_re text) as [m|] eqn:E; [right | left; reflexivity].
  use_group E 1. repeat use_section. eauto.
Qed.

Lemma parse_trade_total (soup : string -> list Email.node) (html : string) :
  Email._parse_trade soup html = Ok None
  \/ exists details, Email._parse_trade soup html = Ok (Some (Email.TradeData details)).
Proof.
  unfold Email._parse_trade.
  destruct (Email.find_class "darkmode-text" (soup html)) as [div|]; [|left; reflexivity].
  destruct (Re.search Email.executed_re (Email.trade_text div)) as [m|] eqn:E;
    [right | left; reflexivity].
  use_group E 1. eauto.
Qed.

Lemma parse_claim_total (text : string) :
  Email._parse_claim text = Ok (Some (Email.RawData text))
  \/ exists team player details,
       Email._parse_claim text = Ok (Some (Email.ClaimData team player details)).
Proof.
  unfold Email._parse_claim.
  destruct (Re.search Email.claim_re text) as [m|] eqn:E; [right | left; reflexivity].
  use_group E 1. use_group E 2. use_group E 3. use_group E 4. eauto.
Qed.

Lemma parse_drop_total (text : string) :
  Email._parse_drop text = Ok (Some (Email.RawData text))
  \/ exists players, Email._parse_drop text = Ok (Some (Email.DropData players)).
Proof.
  unfold Email._parse_drop.
  destruct (Re.search Email.drop_re text) as [m|] eqn:E; [right | left; reflexivity].
  use_group E 1. eauto.
Qed.

Lemma parse_draft_total (text : string) :
  Email._parse_draft text = Ok (Some (Email.RawData text))
  \/ exists round pick player team,
       Email._parse_draft text = Ok (Some (Email.DraftData round pick player team)).
Proof.
  unfold Email._parse_draft.
  destruct (Re.search Email.draft_re text) as [m|] eqn:E; [right | left; reflexivity].
  use_group E 1. use_group E 2. use_group E 3. use_group E 4. eauto.
Qed.

(** C3.  Each of the five extractors returns a value on every input and
    raises nothing: the trade-block and trade extractors return no result
    or their record, the claim, drop and draft extractors return their
    record or the raw text they were given.  The only call in them that can
    raise is a method call on a group that took no part in a match, and
    every group they read is on every path through its pattern.  (The
    HTML of a trade is read through the parsed document, whatever the
    parser built.) *)
Theorem extractors_never_raise
    (soup : string -> list Email.node) (text html : string) :
  (Email._parse_trade_block text = Ok None
   \/ exists b, Email._parse_trade_block text = Ok (Some (Email.BlockData b)))
  /\ (Email._parse_trade soup html = Ok None
      \/ exists details,
           Email._parse_trade soup html = Ok (Some (Email.TradeData details)))
  /\ (Email._parse_claim text = Ok (Some (Email.RawData text))
      \/ exists team player details,
           Email._parse_claim text = Ok (Some (Email.ClaimData team player details)))
  /\ (Email._parse_drop text = Ok (Some (Email.RawData text))
      \/ exists players, Email._parse_drop text = Ok (Some (Email.DropData players)))
  /\ (Email._parse_draft text = Ok (Some (Email.RawData text))
      \/ exists round pick player team,
           Email._parse_draft text
           = Ok (Some (Email.DraftData round pick player team))).
Proof.
  repeat split.
  - apply parse_trade_block_total.
  - apply parse_trade_total.
  - apply parse_claim_total.
  - apply parse_drop_total.
  - apply parse_draft_total.
Qed.

(* ================================================================= *)
(** ** The inbox loop *)

Section Inbox.

Variable soup : string -> list Email.node.
Variable b64decode_utf8 : string -> result string.
Variable svc : Email.service.
Variables tx_url tb_url : option string.

Let psm := Email._process_single_message soup b64decode_utf8 svc.
Let one := Email.process_one soup b64decode_utf8 svc tx_url tb_url.
Let all := Email.process_all soup b64decode_utf8 svc tx_url tb_url.

(** Processing one message fetches it, posts at most once, archives
    nothing and leaves the [processed] list alone. *)
Lemma process_single_message_log (msg_id : string)
    (st : trace * list Email.processed_entry) :
  exists r evs,
    psm msg_id tx_url tb_url st = (r, ((fst st ++ evs)%list, snd st))
    /\ (evs = [EvGet msg_id]
        \/ exists url content, evs = [EvGet msg_id; EvPost url content]).
Proof.
  destruct st as [t p]. unfold psm, Email._process_single_message.
  unfold mbind, M_bind, call, lift, mret, M_ret, Email._post_to_discord. cbn [fst snd].
  destruct (Email.messages_get svc t msg_id) as [m|e]; [|eauto 6].
  assert (Hget : exists evs, (t ++ [EvGet msg_id])%list = (t ++ evs)%list
                 /\ (evs = [EvGet msg_id]
                     \/ exists url content, evs = [EvGet msg_id; EvPost url content]))
    by eauto.
  destruct (Email._detect_transaction_type (Email.subject_of (Email.headers m)));
    [ | | | | | destruct Hget as (evs & -> & H); eauto ];
    (destruct (Email._extract_html_body b64decode_utf8 m) as [[[|a html]|]|e];
     [ destruct Hget as (evs & -> & H); eauto
     | | destruct Hget as (evs & -> & H); eauto
     | destruct Hget as (evs & -> & H); eauto ]);
    (destruct (Email.parse_by_type _ _ _) as [d|e];
     [| destruct Hget as (evs & -> & H); eauto ]);
    (destruct (Email._format_discord_message _ _) as [msg|e];
     [| destruct Hget as (evs & -> & H); eauto ]);
    (destruct (Email.configured _) as [url|];
     [| destruct Hget as (evs & -> & H); eauto ]);
    unfold call; cbn [fst snd]; rewrite <- app_assoc; cbn [app];
    destruct (Email.requests_post _ _ _ _) as [[]|e];
    do 2 eexists; (split; [reflexivity|]); right; eauto.
Qed.

(** The body of the loop, by cases on how processing and the first
    archive call end. *)
Lemma process_one_cases (msg_id : string) (st : trace * list Email.processed_entry) :
  one msg_id st =
  match psm msg_id tx_url tb_url st with
  | (Raise _, (t1, p1)) => (Ok tt, ((t1 ++ [EvArchive msg_id])%list, p1))
  | (Ok result, (t1, p1)) =>
      let p2 := match result with Some r => (p1 ++ [r])%list | None => p1 end in
      match Email.messages_modify svc t1 msg_id with
      | Ok _ => (Ok tt, ((t1 ++ [EvArchive msg_id])%list, p2))
      | Raise _ => (Ok tt, ((t1 ++ [EvArchive msg_id; EvArchive msg_id])%list, p2))
      end
  end.
Proof.
  unfold one, Email.process_one, catch. fold psm.
  unfold mbind at 1. unfold M_bind at 1.
  destruct (psm msg_id tx_url tb_url st) as [[result|e] [t1 p1]].
  - unfold mbind, M_bind, Email.archive, call, get_state, put_state, mret, M_ret.
    destruct result as [r|]; cbn [fst snd];
      destruct (Email.messages_modify svc t1 msg_id) as [[]|e];
      try reflexivity;
      destruct (Email.messages_modify svc (t1 ++ [EvArchive msg_id])%list msg_id)
        as [[]|e'];
      rewrite <- app_assoc; reflexivity.
  - unfold Email.archive, call, mret, M_ret. cbn [fst snd].
    destruct (Email.messages_modify svc t1 msg_id) as [[]|e']; reflexivity.
Qed.

Lemma archives_app (msg_id : string) (a b : trace) :
  archives msg_id (a ++ b)%list = archives msg_id a + archives msg_id b.
Proof. unfold archives. now rewrite List.filter_app, List.length_app. Qed.

Lemma archives_unit (msg_id m : string) :
  archives msg_id [EvArchive m] = if String.eqb m msg_id then 1 else 0.
Proof. unfold archives. simpl. now destruct (String.eqb m msg_id). Qed.

Lemma process_single_message_archives (msg_id m : string)
    (st : trace * list Email.processed_entry) :
  archives m (fst (snd (psm msg_id tx_url tb_url st))) = archives m (fst st)
  /\ snd (snd (psm msg_id tx_url tb_url st)) = snd st.
Proof.
  destruct (process_single_message_log msg_id st) as (r & evs & -> & H).
  cbn [fst snd]. split; [|reflexivity]. rewrite archives_app.
  destruct H as [->|(u & c & ->)]; unfold archives; simpl; lia.
Qed.

Lemma touched_app (a b : trace) : touched (a ++ b)%list = (touched a ++ touched b)%list.
Proof. unfold touched. apply flat_map_app. Qed.

(** One turn of the loop never raises; it logs one archive call for its
    message, or two, and none for any other message. *)
Lemma process_one_log (msg_id : string) (st : trace * list Email.processed_entry) :
  exists evs p2 n,
    one msg_id st = (Ok tt, ((fst st ++ evs)%list, p2))
    /\ (n = 1 \/ n = 2)
    /\ (forall m, archives m evs = if String.eqb msg_id m then n else 0)
    /\ ((forall t i, Email.messages_modify svc t i = Ok tt) -> n = 1)
    /\ List.length p2 <= S (List.length (snd st))
    /\ (forall m, In m (touched evs) -> m = msg_id).
Proof.
  rewrite process_one_cases.
  destruct (process_single_message_log msg_id st) as (r & evs & -> & Hevs).
  assert (Ha : forall m, archives m evs = 0).
  { intros m. destruct Hevs as [->|(u & c & ->)]; reflexivity. }
  assert (Ht : forall m, In m (touched evs) -> m = msg_id).
  { intros m. destruct Hevs as [->|(u & c & ->)]; simpl; intuition. }
  assert (Hone : forall m, archives m (evs ++ [EvArchive msg_id])%list
                           = if String.eqb msg_id m then 1 else 0).
  { intros m. rewrite archives_app, Ha, archives_unit. reflexivity. }
  assert (Htwo : forall m, archives m (evs ++ [EvArchive msg_id; EvArchive msg_id])%list
                           = if String.eqb msg_id m then 2 else 0).
  { intros m. rewrite archives_app, Ha. unfold archives. simpl.
    destruct (String.eqb msg_id m); reflexivity. }
  assert (Ht1 : forall m, In m (touched (evs ++ [EvArchive msg_id])%list) -> m = msg_id).
  { intros m. rewrite touched_app, in_app_iff. simpl. intuition. }
  assert (Ht2 : forall m,
             In m (touched (evs ++ [EvArchive msg_id; EvArchive msg_id])%list)
             -> m = msg_id).
  { intros m. rewrite touched_app, in_app_iff. simpl. intuition. }
  destruct r as [result|e].
  - cbv zeta.
    assert (Hlen : List.length (match result with
                                | Some r => (snd st ++ [r])%list
                                | None => snd st
                                end) <= S (List.length (snd st))).
    { destruct result; [rewrite List.length_app; simpl; lia | lia]. }
    destruct (Email.messages_modify svc (fst st ++ evs)%list msg_id) as [[]|e] eqn:E.
    + eexists (evs ++ [EvArchive msg_id])%list, _, 1.
      rewrite app_assoc. repeat split; auto.
    + eexists (evs ++ [EvArchive msg_id; EvArchive msg_id])%list, _, 2.
      rewrite app_assoc. repeat split; auto.
      intros Hok. rewrite Hok in E. discriminate.
  - eexists (evs ++ [EvArchive msg_id])%list, _, 1.
    rewrite app_assoc. repeat split; auto.
Qed.

Lemma listed_times_cons (m msg_id : string) (rest : list string) :
  listed_times m (msg_id :: rest)
  = (if String.eqb msg_id m then 1 else 0) + listed_times m rest.
Proof.
  unfold listed_times. simpl. rewrite (String.eqb_sym m msg_id).
  destruct (String.eqb msg_id m); reflexivity.
Qed.

(** The whole loop. *)
Lemma process_all_log (messages : list string) :
  forall st : trace * list Email.processed_entry,
  exists evs p2,
    all messages st = (Ok tt, ((fst st ++ evs)%list, p2))
    /\ (forall m, listed_times m messages <= archives m evs
                  /\ archives m evs <= 2 * listed_times m messages)
    /\ ((forall t i, Email.messages_modify svc t i = Ok tt) ->
        forall m, archives m evs = listed_times m messages)
    /\ List.length p2 <= List.length (snd st) + List.length messages
    /\ (forall m, In m (touched evs) -> In m messages).
Proof.
  induction messages as [|msg_id rest IH]; intros st.
  - exists [], (snd st). rewrite app_nil_r. destruct st. simpl.
    repeat split; auto; try lia.
  - destruct (process_one_log msg_id st) as (evs1 & p1 & n & H1 & Hn & Ha1 & Hok1 & Hl1 & Ht1).
    destruct (IH ((fst st ++ evs1)%list, p1)) as (evs2 & p2 & H2 & Ha2 & Hok2 & Hl2 & Ht2).
    exists (evs1 ++ evs2)%list, p2.
    split.
    { unfold all. cbn [Email.process_all]. fold all. fold one.
      unfold mbind at 1. unfold M_bind at 1. rewrite H1, H2.
      cbn [fst snd]. rewrite app_assoc. reflexivity. }
    cbn [fst snd] in *.
    repeat split.
    + rewrite archives_app, Ha1, listed_times_cons.
      destruct (Ha2 m). destruct (String.eqb msg_id m); lia.
    + rewrite archives_app, Ha1, listed_times_cons.
      destruct (Ha2 m). destruct (String.eqb msg_id m); lia.
    + intros Hok m. rewrite archives_app, Ha1, listed_times_cons, (Hok2 Hok m).
      rewrite (Hok1 Hok). reflexivity.
    + simpl. lia.
    + intros m. rewrite touched_app, in_app_iff. intros [H|H].
      * left. symmetry. auto.
      * right. auto.
Qed.

End Inbox.

(** C4, as the source has it.  A turn of the loop never raises and
    processing itself archives nothing.  The archive call is issued once
    when processing raised or when the first archive call succeeded, and
    a second time when processing returned and the first archive call
    raised, whatever classification, body extraction, parsing and posting
    did.  Over a pass every listed message is archived at least once and
    at most twice per listing, exactly once when no archive call raises.
    A message without an HTML body gives no result and is archived all
    the same. *)
Theorem archive_issued_per_message
    (soup : string -> list Email.node) (b64decode_utf8 : string -> result string)
    (svc : Email.service) (tx_url tb_url : option string) :
  let psm := Email._process_single_message soup b64decode_utf8 svc in
  let one := Email.process_one soup b64decode_utf8 svc tx_url tb_url in
  let all := Email.process_all soup b64decode_utf8 svc tx_url tb_url in
  (forall msg_id st,
      fst (one msg_id st) = Ok tt
      /\ archives msg_id (fst (snd (psm msg_id tx_url tb_url st)))
         = archives msg_id (fst st)
      /\ archives msg_id (fst (snd (one msg_id st)))
         = archives msg_id (fst st)
           + match fst (psm msg_id tx_url tb_url st),
                   Email.messages_modify svc
                     (fst (snd (psm msg_id tx_url tb_url st))) msg_id with
             | Ok _, Raise _ => 2
             | _, _ => 1
             end)
  /\ (forall messages st m,
        fst (all messages st) = Ok tt
        /\ archives m (fst st) + listed_times m messages
           <= archives m (fst (snd (all messages st)))
        /\ archives m (fst (snd (all messages st)))
           <= archives m (fst st) + 2 * listed_times m messages)
  /\ (forall messages st m,
        (forall t i, Email.messages_modify svc t i = Ok tt) ->
        archives m (fst (snd (all messages st)))
        = archives m (fst st) + listed_times m messages)
  /\ (forall msg_id st message,
        Email.messages_get svc (fst st) msg_id = Ok message ->
        Email._extract_html_body b64decode_utf8 message = Ok None ->
        fst (psm msg_id tx_url tb_url st) = Ok None
        /\ snd (snd (one msg_id st)) = snd st
        /\ archives msg_id (fst st) < archives msg_id (fst (snd (one msg_id st)))).
Proof.
  intros psm one all. split; [|split; [|split]].
  - intros msg_id st. split; [|split].
    + destruct (process_one_log soup b64decode_utf8 svc tx_url tb_url msg_id st)
        as (evs & p2 & n & H & _). unfold one. rewrite H. reflexivity.
    + apply process_single_message_archives.
    + unfold one. rewrite process_one_cases. fold psm.
      pose proof (process_single_message_archives soup b64decode_utf8 svc
                    tx_url tb_url msg_id msg_id st) as [Ha _]. fold psm in Ha.
      destruct (psm msg_id tx_url tb_url st) as [[result|e] [t1 p1]];
        cbn [fst snd] in *.
      * destruct (Email.messages_modify svc t1 msg_id) as [[]|e];
          cbn [fst snd]; rewrite archives_app, Ha; unfold archives; simpl;
          rewrite String.eqb_refl; simpl; lia.
      * rewrite archives_app, Ha, archives_unit, String.eqb_refl. reflexivity.
  - intros messages st m.
    destruct (process_all_log soup b64decode_utf8 svc tx_url tb_url messages st)
      as (evs & p2 & H & Ha & _). unfold all. rewrite H. cbn [fst snd].
    rewrite archives_app. destruct (Ha m). repeat split; lia.
  - intros messages st m Hok.
    destruct (process_all_log soup b64decode_utf8 svc tx_url tb_url messages st)
      as (evs & p2 & H & _ & Ha & _). unfold all. rewrite H. cbn [fst snd].
    rewrite archives_app, (Ha Hok). reflexivity.
  - intros msg_id st message Hget Hbody.
    assert (Hnone : psm msg_id tx_url tb_url st
                    = (Ok None, ((fst st ++ [EvGet msg_id])%list, snd st))).
    { unfold psm, Email._process_single_message, mbind, M_bind, call, lift, mret, M_ret.
      destruct st as [t p]. cbn [fst snd] in *. rewrite Hget.
      destruct (Email._detect_transaction_type _); rewrite ?Hbody; reflexivity. }
    split; [|split].
    + rewrite Hnone. reflexivity.
    + unfold one. rewrite process_one_cases. fold psm. rewrite Hnone.
      destruct (Email.messages_modify svc _ msg_id) as [[]|e]; reflexivity.
    + destruct (process_one_log soup b64decode_utf8 svc tx_url tb_url msg_id st)
        as (evs & p2 & n & H & Hn & Ha & _). unfold one. rewrite H. cbn [fst snd].
      rewrite archives_app, Ha, String.eqb_refl. lia.
Qed.

(** C4, as the specification has it, fails: for a message that is
    skipped (no HTML body) and whose first archive call raises, the
    archive call is issued twice. *)
Lemma archive_issued_twice :
  fst (run_flaky ["m1"]) = Ok (Email.StatusOk [])
  /\ archives "m1" (fst (snd (run_flaky ["m1"]))) = 2.
Proof. vm_compute. split; reflexivity. Qed.

Ltac log_done :=
  repeat split; auto; try (simpl; lia); try discriminate;
  try (simpl; intros ? []).

Lemma process_email_log
    (soup : string -> list Email.node) (b64decode_utf8 : string -> result string)
    (_get_gmail_service : string -> result Email.service)
    (credentials : string) (tx_url tb_url : option string)
    (st : trace * list Email.processed_entry) :
  (forall svc t labels n l,
      _get_gmail_service credentials = Ok svc ->
      Email.messages_list svc t labels n = Ok l -> List.length l <= n) ->
  exists r evs p listed,
    Email.process_email soup b64decode_utf8 _get_gmail_service credentials
      tx_url tb_url st = (r, ((fst st ++ evs)%list, p))
    /\ List.length listed <= 50
    /\ (forall m, In m (touched evs) -> In m listed)
    /\ (forall processed,
          r = Ok (Email.StatusOk processed) -> List.length processed <= 50).
Proof.
  intros Hcap. destruct st as [t0 p0].
  unfold Email.process_email, Email._get_label_id.
  unfold mbind, M_bind, lift, call, catch, mret, M_ret, put_state, get_state.
  cbn [fst snd].
  destruct (_get_gmail_service credentials) as [svc|e] eqn:Esvc.
  2:{ exists (Raise e), [], p0, []. rewrite app_nil_r.
      log_done. }
  destruct (Email.labels_list svc t0) as [labels|e].
  2:{ exists (Raise e), [EvLabels], p0, [].
      log_done. }
  destruct (fst <$> List.find _ labels) as [[|a label_id]|].
  1,3: (eexists _, [EvLabels], p0, [];
        log_done).
  destruct (Email.messages_list svc _ _ 50) as [[|m0 l]|e] eqn:El;
    cbn [fst snd] in *.
  - eexists _, [EvLabels; EvList _ _], p0, []. rewrite <- app_assoc.
    log_done.
  - pose proof (Hcap _ _ _ _ _ eq_refl El) as Hlen.
    match goal with
    | |- context [Email.process_all soup b64decode_utf8 svc tx_url tb_url ?ms ?s0] =>
        destruct (process_all_log soup b64decode_utf8 svc tx_url tb_url ms s0)
          as (evs & p2 & H & _ & _ & Hp & Ht); rewrite H
    end.
    cbn [fst snd] in *.
    eexists _, ([EvLabels; EvList _ _] ++ evs)%list, p2, (m0 :: l).
    rewrite <- !app_assoc. repeat split; auto.
    intros p Hp'. inversion Hp'; subst. simpl in Hp, Hlen. lia.
  - eexists _, [EvLabels; EvList _ _], p0, []. rewrite <- app_assoc.
    log_done.
Qed.

(** C10.  When the mail API honours [maxResults], one invocation of
    [process_email] handles at most 50 messages: the [processed] list it
    returns has at most 50 entries, and every message it fetches or
    archives is one of the at most 50 that were listed, so the others stay
    as they are. *)
Theorem process_email_at_most_50
    (soup : string -> list Email.node) (b64decode_utf8 : string -> result string)
    (_get_gmail_service : string -> result Email.service)
    (credentials : string) (tx_url tb_url : option string)
    (st : trace * list Email.processed_entry) :
  (forall svc t labels n l,
      _get_gmail_service credentials = Ok svc ->
      Email.messages_list svc t labels n = Ok l -> List.length l <= n) ->
  let run :=
    Email.process_email soup b64decode_utf8 _get_gmail_service credentials
      tx_url tb_url st in
  (forall processed,
      fst run = Ok (Email.StatusOk processed) -> List.length processed <= 50)
  /\ exists evs listed,
       fst (snd run) = (fst st ++ evs)%list
       /\ List.length listed <= 50
       /\ forall m, In m (touched evs) -> In m listed.
Proof.
  intros Hcap run.
  destruct (process_email_log soup b64decode_utf8 _get_gmail_service credentials
              tx_url tb_url st Hcap) as (r & evs & p & listed & H & Hl & Ht & Hp).
  subst run. rewrite H. cbn [fst snd]. split; [exact Hp|].
  exists evs, listed. auto.
Qed.

(** The statement above at a mailbox of 60 messages whose listing gives
    the first [maxResults] of them. *)
Lemma process_email_at_most_50_inbox_of_60 :
  let inbox := map (fun n => String (ascii_of_nat (48 + n)) "") (seq 0 60) in
  let run :=
    Email.process_email (fun _ => []) (fun s => Ok s)
      (fun _ => Ok (flaky_mailbox inbox)) "{}" None None ([], []) in
  (forall processed,
      fst run = Ok (Email.StatusOk processed) -> List.length processed <= 50)
  /\ exists evs listed,
       fst (snd run) = ([] ++ evs)%list
       /\ List.length listed <= 50
       /\ forall m, In m (touched evs) -> In m listed.
Proof.
  intros inbox.
  apply (process_email_at_most_50 (fun _ => []) (fun s => Ok s)
           (fun _ => Ok (flaky_mailbox inbox)) "{}" None None ([], [])).
  intros svc t labels n l Hsvc Hl. inversion Hsvc; subst svc.
  simpl in Hl. inversion Hl; subst l. apply List.firstn_le_length.
Defined.

(* ================================================================= *)
(** ** The matcher finds a match exactly when there is one *)

Section MatcherMeaning.

Context {R : Type}.

Lemma rep_greedy_sound (p : ascii -> bool) (s : string) :
  forall (n : nat) (k : string -> option R) (x : R),
    Re.rep_greedy p n s k = Some x ->
    exists w rest,
      s = w ++ rest /\ all_chars p w = true /\ n <= String.length w
      /\ k rest = Some x.
Proof.
  induction s as [|c s IH]; intros n k x H; simpl in H.
  - destruct n; [|discriminate]. exists "", "". auto.
  - assert (Hstop : match n with O => k (String c s) | S _ => None end = Some x ->
                    exists w rest, String c s = w ++ rest /\ all_chars p w = true
                                   /\ n <= String.length w /\ k rest = Some x).
    { destruct n; [|discriminate]. intros Hk. exists "", (String c s). auto. }
    destruct (p c) eqn:Ep; [|auto].
    destruct (Re.rep_greedy p (Nat.pred n) s k) eqn:E; [|auto].
    inversion H; subst.
    apply IH in E as (w & rest & -> & Hw & Hn & Hk).
    exists (String c w), rest. simpl. rewrite Ep, Hw. repeat split; auto. lia.
Qed.

Lemma rep_lazy_sound (p : ascii -> bool) (s : string) :
  forall (n : nat) (k : string -> option R) (x : R),
    Re.rep_lazy p n s k = Some x ->
    exists w rest,
      s = w ++ rest /\ all_chars p w = true /\ n <= String.length w
      /\ k rest = Some x.
Proof.
  induction s as [|c s IH]; intros n k x H; simpl in H.
  - destruct n; [|discriminate]. destruct (k "") eqn:E; [|discriminate].
    inversion H; subst. exists "", "". auto.
  - assert (Hmore : (if p c then Re.rep_lazy p (Nat.pred n) s k else None) = Some x ->
                    exists w rest, String c s = w ++ rest /\ all_chars p w = true
                                   /\ n <= String.length w /\ k rest = Some x).
    { destruct (p c) eqn:Ep; [|discriminate]. intros E.
      apply IH in E as (w & rest & -> & Hw & Hn & Hk).
      exists (String c w), rest. simpl. rewrite Ep, Hw. repeat split; auto. lia. }
    destruct n; [|auto].
    destruct (k (String c s)) eqn:E; [|auto].
    inversion H; subst. exists "", (String c s). auto.
Qed.

Lemma rmatch_sound (r : Re.regex) :
  forall (s : string) (c : Re.caps) (k : string -> Re.caps -> option R) (x : R),
    Re.rmatch r s c k = Some x ->
    exists s1 s2 c', s = s1 ++ s2 /\ matches r s1 s2 /\ k s2 c' = Some x.
Proof.
  induction r as [l|p|g n p|r1 IH1 r2 IH2|r1 IH1 r2 IH2|j r1 IH1|];
    intros s c k x H; simpl in H.
  - destruct (Py.startswith l s) eqn:E; [|discriminate].
    apply startswith_inv in E as [t ->]. rewrite drop_append in H.
    exists l, t, c. simpl. auto.
  - destruct s as [|a s]; [discriminate|]. destruct (p a) eqn:E; [|discriminate].
    exists (String a ""), s, c. simpl. eauto.
  - destruct g.
    + apply rep_greedy_sound in H as (w & rest & -> & Hw & Hn & Hk).
      exists w, rest, c. simpl. auto.
    + apply rep_lazy_sound in H as (w & rest & -> & Hw & Hn & Hk).
      exists w, rest, c. simpl. auto.
  - apply IH1 in H as (a & s' & c1 & -> & Ha & H).
    apply IH2 in H as (b & s2 & c2 & -> & Hb & H).
    exists (a ++ b), s2, c2. rewrite append_assoc. split; [reflexivity|].
    split; [|exact H]. simpl. exists a, b. auto.
  - destruct (Re.rmatch r1 s c k) eqn:E.
    + inversion H; subst. apply IH1 in E as (s1 & s2 & c' & -> & Hm & Hk).
      exists s1, s2, c'. simpl. auto.
    + apply IH2 in H as (s1 & s2 & c' & -> & Hm & Hk).
      exists s1, s2, c'. simpl. auto.
  - apply IH1 in H as (s1 & s2 & c' & -> & Hm & Hk).
    exists s1, s2. eexists. simpl. eauto.
  - exists "", s, c. simpl.
    destruct s as [|a [|b s]]; try discriminate; auto.
    destruct (Ascii.eqb a Py.LF) eqn:E; [|discriminate].
    apply Ascii.eqb_eq in E; subst a. auto.
Qed.

Lemma rep_greedy_complete (p : ascii -> bool) (w : string) :
  forall (n : nat) (rest : string) (k : string -> option R),
    all_chars p w = true -> n <= String.length w -> k rest <> None ->
    Re.rep_greedy p n (w ++ rest) k <> None.
Proof.
  induction w as [|c w IH]; intros n rest k Hw Hn Hk.
  - simpl in Hn. assert (n = 0) by lia; subst n. simpl.
    destruct rest as [|a rest]; simpl; [exact Hk|].
    destruct (p a); [|exact Hk].
    destruct (Re.rep_greedy p 0 rest k); [discriminate | exact Hk].
  - simpl in Hw. apply andb_true_iff in Hw as [Hc Hw].
    change (String c w ++ rest) with (String c (w ++ rest)). simpl. rewrite Hc.
    assert (H : Re.rep_greedy p (Nat.pred n) (w ++ rest) k <> None).
    { apply IH; auto. simpl in Hn. lia. }
    destruct (Re.rep_greedy p (Nat.pred n) (w ++ rest) k); [discriminate | contradiction].
Qed.

Lemma rep_lazy_complete (p : ascii -> bool) (w : string) :
  forall (n : nat) (rest : string) (k : string -> option R),
    all_chars p w = true -> n <= String.length w -> k rest <> None ->
    Re.rep_lazy p n (w ++ rest) k <> None.
Proof.
  induction w as [|c w IH]; intros n rest k Hw Hn Hk.
  - simpl in Hn. assert (n = 0) by lia; subst n.
    change ("" ++ rest) with rest.
    destruct rest as [|a rest]; simpl.
    + destruct (k ""); [discriminate | contradiction].
    + destruct (k (String a rest)); [discriminate | contradiction].
  - simpl in Hw. apply andb_true_iff in Hw as [Hc Hw].
    change (String c w ++ rest) with (String c (w ++ rest)). simpl. rewrite Hc.
    assert (H : Re.rep_lazy p (Nat.pred n) (w ++ rest) k <> None).
    { apply IH; auto. simpl in Hn. lia. }
    destruct n; [|exact H].
    destruct (k (String c (w ++ rest))); [discriminate | exact H].
Qed.

Lemma rmatch_complete (r : Re.regex) :
  forall (s1 s2 : string) (c : Re.caps) (k : string -> Re.caps -> option R),
    matches r s1 s2 -> (forall c', k s2 c' <> None) ->
    Re.rmatch r (s1 ++ s2) c k <> None.
Proof.
  induction r as [l|p|g n p|r1 IH1 r2 IH2|r1 IH1 r2 IH2|j r1 IH1|];
    intros s1 s2 c k Hm Hk; simpl in Hm.
  - subst s1. simpl. rewrite startswith_append, drop_append. apply Hk.
  - destruct Hm as (a & -> & Ha). simpl. rewrite Ha. apply Hk.
  - destruct Hm as [Hw Hn]. destruct g; simpl.
    + apply rep_greedy_complete; auto.
    + apply rep_lazy_complete; auto.
  - destruct Hm as (a & b & -> & Ha & Hb). rewrite append_assoc. simpl.
    apply IH1; [exact Ha|]. intros c'. apply IH2; auto.
  - simpl. destruct Hm as [Hm|Hm].
    + pose proof (IH1 s1 s2 c k Hm Hk) as H.
      destruct (Re.rmatch r1 (s1 ++ s2) c k); [discriminate | contradiction].
    + destruct (Re.rmatch r1 (s1 ++ s2) c k); [discriminate|].
      apply IH2; auto.
  - simpl. apply IH1; [exact Hm|]. intros c'. apply Hk.
  - destruct Hm as [-> [->| ->]]; simpl; apply Hk.
Qed.

End MatcherMeaning.

Lemma match_at_sound (r : Re.regex) (s rest : string) (c : Re.caps) :
  Re.match_at r s = Some (rest, c) ->
  exists s1, s = s1 ++ rest /\ matches r s1 rest.
Proof.
  unfold Re.match_at. intros H.
  apply rmatch_sound in H as (s1 & s2 & c' & -> & Hm & Hk).
  inversion Hk; subst. eauto.
Qed.

Lemma match_at_complete (r : Re.regex) (s1 s2 : string) :
  matches r s1 s2 -> Re.match_at r (s1 ++ s2) <> None.
Proof.
  intros Hm. unfold Re.match_at. apply rmatch_complete; [exact Hm|]. discriminate.
Qed.

(** [re.search] finds a match if and only if some stretch of the text
    matches the pattern. *)
Lemma search_iff (r : Re.regex) (s : string) :
  Re.search r s <> None
  <-> exists pre s1 s2, s = pre ++ s1 ++ s2 /\ matches r s1 s2.
Proof.
  split.
  - induction s as [|a s IH]; simpl; intros H.
    + destruct (Re.match_at r "") as [[rest c]|] eqn:E; [|contradiction].
      apply match_at_sound in E as (s1 & -> & Hm). exists "", s1, rest. auto.
    + destruct (Re.match_at r (String a s)) as [[rest c]|] eqn:E.
      * apply match_at_sound in E as (s1 & -> & Hm). exists "", s1, rest. auto.
      * destruct (IH H) as (pre & s1 & s2 & -> & Hm).
        exists (String a pre), s1, s2. auto.
  - intros (pre & s1 & s2 & -> & Hm). induction pre as [|a pre IH].
    + change ("" ++ s1 ++ s2) with (s1 ++ s2).
      pose proof (match_at_complete r s1 s2 Hm) as H.
      destruct (s1 ++ s2) eqn:E; simpl;
        destruct (Re.match_at r _) as [[? ?]|]; try discriminate; contradiction.
    + change (String a pre ++ s1 ++ s2) with (String a (pre ++ s1 ++ s2)). simpl.
      destruct (Re.match_at r _) as [[? ?]|]; [discriminate | exact IH].
Qed.

(* ================================================================= *)
(** ** White space and [strip] *)

Lemma all_chars_append (p : ascii -> bool) (a b : string) :
  all_chars p (a ++ b) = all_chars p a && all_chars p b.
Proof.
  induction a as [|c a IH]; simpl; [reflexivity|].
  now rewrite IH, andb_assoc.
Qed.

Lemma inked_append (a b : string) : inked (a ++ b) = inked a + inked b.
Proof. induction a as [|c a IH]; simpl; [reflexivity | rewrite IH; lia]. Qed.

Lemma blank_inked (s : string) : blank s = true <-> inked s = 0.
Proof.
  unfold blank. induction s as [|c s IH]; simpl; [tauto|].
  destruct (Py.is_space c); simpl; [exact IH|]. split; [discriminate | lia].
Qed.

Lemma between_out (lo hi n : nat) : n < lo \/ hi < n -> Py.between lo hi n = false.
Proof.
  intros H. unfold Py.between. apply andb_false_iff.
  destruct H; [left | right]; apply Nat.leb_gt; exact H.
Qed.

Lemma digit_not_space (c : ascii) : Py.is_digit c = true -> Py.is_space c = false.
Proof.
  unfold Py.is_digit, Py.is_space, Py.between. intros Hc.
  apply andb_true_iff in Hc as [Hlo Hhi]. apply Nat.leb_le in Hlo, Hhi.
  fold (Py.between 9 13 (Py.code c)). fold (Py.between 28 32 (Py.code c)).
  rewrite !between_out by lia.
  destruct (Nat.eqb_spec (Py.code c) 133); [lia|].
  destruct (Nat.eqb_spec (Py.code c) 160); [lia|]. reflexivity.
Qed.

Lemma is_timestamp_inked (ts : string) : is_timestamp ts = true -> inked ts = 10.
Proof.
  unfold is_timestamp.
  destruct ts as [|a [|h1 [|h2 [|c1 [|m1 [|m2 [|c2 [|s1 [|s2 [|b [|]]]]]]]]]]];
    try discriminate.
  intros H. repeat (apply andb_true_iff in H as [H ?]).
  repeat match goal with
         | E : Ascii.eqb _ _ = true |- _ => apply Ascii.eqb_eq in E; subst
         end.
  simpl. rewrite !digit_not_space by assumption. reflexivity.
Qed.

Lemma rstrip_blank (s : string) : blank s = true -> Py.rstrip s = "".
Proof.
  unfold blank. induction s as [|c s IH]; simpl; [reflexivity|].
  intros H. apply andb_true_iff in H as [Hc Hs]. now rewrite IH, Hc.
Qed.

Lemma rstrip_empty_blank (s : string) : Py.rstrip s = "" -> blank s = true.
Proof.
  unfold blank. induction s as [|c s IH]; simpl; [reflexivity|].
  destruct (Py.rstrip s) eqn:E; [|discriminate].
  destruct (Py.is_space c); [|discriminate]. intros _. simpl. auto.
Qed.

Lemma rstrip_cons_inked (c : ascii) (s : string) :
  blank (String c s) = false -> Py.rstrip (String c s) = String c (Py.rstrip s).
Proof.
  intros H. simpl. destruct (Py.rstrip s) eqn:E; [|reflexivity].
  apply rstrip_empty_blank in E. unfold blank in *. simpl in H. rewrite E in H.
  rewrite andb_true_r in H. now rewrite H.
Qed.

Lemma rstrip_append_blank (s e : string) :
  blank e = true -> Py.rstrip (s ++ e) = Py.rstrip s.
Proof.
  intros He. induction s as [|c s IH].
  - simpl. now rewrite rstrip_blank.
  - change (String c s ++ e) with (String c (s ++ e)). simpl. now rewrite IH.
Qed.

Lemma rstrip_idem (s : string) : Py.rstrip (Py.rstrip s) = Py.rstrip s.
Proof.
  induction s as [|c s IH]; [reflexivity|].
  destruct (blank (String c s)) eqn:E.
  - rewrite (rstrip_blank _ E). reflexivity.
  - rewrite (rstrip_cons_inked _ _ E).
    assert (E' : blank (String c (Py.rstrip s)) = false).
    { unfold blank in *. simpl in *. destruct (Py.is_space c); [|reflexivity].
      simpl in *. destruct (all_chars Py.is_space (Py.rstrip s)) eqn:E2; [|reflexivity].
      pose proof (rstrip_blank _ E2) as H. rewrite IH in H.
      apply rstrip_empty_blank in H. unfold blank in H. congruence. }
    rewrite (rstrip_cons_inked _ _ E'), IH. reflexivity.
Qed.

Lemma lstrip_rstrip (s : string) : Py.lstrip (Py.rstrip s) = Py.rstrip (Py.lstrip s).
Proof.
  induction s as [|c s IH]; [reflexivity|].
  destruct (blank (String c s)) eqn:E.
  - rewrite (rstrip_blank _ E). simpl.
    unfold blank in E. simpl in E. apply andb_true_iff in E as [Hc Hs].
    rewrite Hc, <- IH, (rstrip_blank s Hs). reflexivity.
  - rewrite (rstrip_cons_inked _ _ E). simpl.
    destruct (Py.is_space c) eqn:Hc; [exact IH|].
    now rewrite (rstrip_cons_inked _ _ E).
Qed.

Lemma strip_rstrip (s : string) : Py.strip (Py.rstrip s) = Py.strip s.
Proof. unfold Py.strip. now rewrite lstrip_rstrip, rstrip_idem. Qed.

Lemma strip_blank (s : string) : blank s = true -> Py.strip s = "".
Proof.
  unfold Py.strip. intros H. rewrite <- lstrip_rstrip, (rstrip_blank _ H). reflexivity.
Qed.

(* ================================================================= *)
(** ** [re.sub], one step at a time *)

Lemma sub_go_skip (r : Re.regex) (repl a rest : string) :
  Re.sub_go r repl (String.length a) (a ++ rest) = Re.sub_go r repl 0 rest.
Proof. induction a as [|c a IH]; simpl; [reflexivity | exact IH]. Qed.

Lemma sub_go_hit (r : Re.regex) (repl s1 rest : string) (c : Re.caps) :
  Re.match_at r (s1 ++ rest) = Some (rest, c) -> s1 <> "" ->
  Re.sub_go r repl 0 (s1 ++ rest) = repl ++ Re.sub_go r repl 0 rest.
Proof.
  intros H Hne. destruct s1 as [|a s1]; [contradiction|].
  change (String a s1 ++ rest) with (String a (s1 ++ rest)) in *.
  cbn [Re.sub_go]. rewrite H. cbn [String.length].
  rewrite length_append.
  replace (S (String.length s1 + String.length rest) - String.length rest)
    with (S (String.length s1)) by lia.
  rewrite sub_go_skip. reflexivity.
Qed.

Lemma sub_go_miss (r : Re.regex) (repl : string) (a : ascii) (s : string) :
  Re.match_at r (String a s) = None ->
  Re.sub_go r repl 0 (String a s) = String a (Re.sub_go r repl 0 s).
Proof. intros H. cbn [Re.sub_go]. rewrite H. reflexivity. Qed.

(** Where the pattern matches nowhere, [re.sub] changes nothing. *)
Lemma sub_go_nowhere (r : Re.regex) (repl s : string) :
  (forall pre t, s = pre ++ t -> Re.match_at r t = None) ->
  Re.sub_go r repl 0 s = s.
Proof.
  induction s as [|a s IH]; intros H.
  - cbn [Re.sub_go]. rewrite (H "" ""); reflexivity.
  - rewrite sub_go_miss by (apply (H ""); reflexivity).
    rewrite IH; [reflexivity|]. intros pre t ->. apply (H (String a pre)). reflexivity.
Qed.

(** A greedy repetition that can take a whole run takes it first. *)
Lemma rep_greedy_all {R : Type} (p : ascii -> bool) (w rest : string)
    (k : string -> option R) (x : R) :
  all_chars p w = true ->
  match rest with String a _ => p a = false | EmptyString => True end ->
  k rest = Some x ->
  forall n, n <= String.length w -> Re.rep_greedy p n (w ++ rest) k = Some x.
Proof.
  intros Hw Hrest Hk. induction w as [|c w IH]; intros n Hn.
  - simpl in Hn. assert (n = 0) by lia; subst n.
    change ("" ++ rest) with rest. destruct rest as [|a rest]; simpl; [exact Hk|].
    rewrite Hrest. exact Hk.
  - simpl in Hw. apply andb_true_iff in Hw as [Hc Hw].
    change (String c w ++ rest) with (String c (w ++ rest)). simpl. rewrite Hc.
    rewrite IH; auto. simpl in Hn. lia.
Qed.

(* ================================================================= *)
(** ** Title cleaning *)

Lemma timestamp_match (w ts w2 : string) :
  blank w = true -> is_timestamp ts = true -> blank w2 = true ->
  Re.match_at Dingers.timestamp_re (w ++ ts ++ w2) = Some ("", Re.no_caps).
Proof.
  intros Hw Hts Hw2. unfold is_timestamp in Hts.
  destruct ts as [|a [|h1 [|h2 [|c1 [|m1 [|m2 [|c2 [|s1 [|s2 [|b [|]]]]]]]]]]];
    try discriminate.
  repeat (apply andb_true_iff in Hts as [Hts ?]).
  repeat match goal with
         | E : Ascii.eqb _ _ = true |- _ => apply Ascii.eqb_eq in E; subst
         end.
  unfold Re.match_at, Dingers.timestamp_re. cbn [Re.cat Re.rmatch].
  apply rep_greedy_all with (n := 0); [exact Hw | reflexivity | | lia].
  cbn [String.append Py.startswith Py.drop String.length Ascii.eqb Bool.eqb andb].
  repeat match goal with
         | E : Py.is_digit _ = true |- _ => rewrite E; clear E
         end.
  cbn [Py.startswith Py.drop String.length Ascii.eqb Bool.eqb andb].
  rewrite <- (append_nil_r w2) at 1.
  apply rep_greedy_all with (n := 0); [exact Hw2 | exact I | reflexivity | lia].
Qed.

Lemma timestamp_match_shape (s rest : string) (c : Re.caps) :
  Re.match_at Dingers.timestamp_re s = Some (rest, c) ->
  exists w ts w2,
    s = w ++ ts ++ w2 /\ blank w = true /\ is_timestamp ts = true
    /\ blank w2 = true.
Proof.
  intros H. apply match_at_sound in H as (s1 & -> & Hm).
  unfold Dingers.timestamp_re in Hm. cbn [Re.cat matches] in Hm.
  repeat match goal with
         | H : exists _, _ |- _ => destruct H
         | H : _ /\ _ |- _ => destruct H
         end.
  subst.
  match goal with
  | Hw : all_chars Py.is_space ?w = true,
    Hw2 : all_chars Py.is_space ?w2 = true |- context [?w ++ "(" ++ _] =>
      exists w;
      match goal with
      | |- context [String ?h1 "" ++ String ?h2 "" ++ ":" ++ String ?m1 "" ++
                    String ?m2 "" ++ ":" ++ String ?s1 "" ++ String ?s2 "" ++ _] =>
          exists (String "(" (String h1 (String h2 (String ":" (String m1
                   (String m2 (String ":" (String s1 (String s2 ")")))))))));
          exists (w2 ++ rest)
      end
  end.
  split; [|split; [assumption|split]].
  - rewrite !append_assoc. reflexivity.
  - cbn. repeat match goal with
                | E : _ = true |- _ => rewrite E; clear E
                end. reflexivity.
  - unfold blank. rewrite all_chars_append.
    match goal with
    | Hw2 : all_chars Py.is_space ?w2 = true |- context [all_chars _ ?w2] => rewrite Hw2
    end.
    match goal with
    | H : rest = "" \/ rest = NL |- _ => destruct H; subst; reflexivity
    end.
Qed.

(** [re.sub] on a title that ends in a timestamp annotation: what is left
    is the text before it, without its trailing white space. *)
Lemma sub_timestamp (base w ts w2 : string) :
  blank w = true -> is_timestamp ts = true -> blank w2 = true ->
  Re.sub Dingers.timestamp_re "" (base ++ w ++ ts ++ w2) = Py.rstrip base.
Proof.
  intros Hw Hts Hw2. unfold Re.sub.
  assert (Hend : Re.sub_go Dingers.timestamp_re "" 0 "" = "") by reflexivity.
  assert (Hne : forall v, v ++ ts ++ w2 <> "").
  { intros v Hv. apply (f_equal inked) in Hv.
    rewrite !inked_append, (is_timestamp_inked _ Hts) in Hv. simpl in Hv. lia. }
  assert (Hhit : forall v, blank v = true ->
            Re.sub_go Dingers.timestamp_re "" 0 (v ++ ts ++ w2) = "").
  { intros v Hv. pose proof (timestamp_match v ts w2 Hv Hts Hw2) as Hm.
    rewrite <- (append_nil_r (v ++ ts ++ w2)).
    rewrite <- (append_nil_r (v ++ ts ++ w2)) in Hm.
    rewrite (sub_go_hit _ _ _ _ _ Hm (Hne v)). exact Hend. }
  induction base as [|a base IH].
  - change ("" ++ w ++ ts ++ w2) with (w ++ ts ++ w2). apply Hhit, Hw.
  - destruct (blank (String a base)) eqn:E.
    + rewrite (rstrip_blank _ E), <- append_assoc. apply Hhit.
      unfold blank in *. now rewrite all_chars_append, E, Hw.
    + rewrite (rstrip_cons_inked _ _ E).
      change (String a base ++ w ++ ts ++ w2) with (String a (base ++ w ++ ts ++ w2)).
      rewrite sub_go_miss; [now rewrite IH|].
      destruct (Re.match_at Dingers.timestamp_re _) as [[rest c]|] eqn:Em;
        [|reflexivity].
      exfalso. apply timestamp_match_shape in Em as (v & ts' & v2 & Heq & Hv & Hts' & Hv2).
      apply (f_equal inked) in Heq.
      change (String a (base ++ w ++ ts ++ w2)) with (String a base ++ w ++ ts ++ w2) in Heq.
      rewrite !inked_append, (is_timestamp_inked _ Hts), (is_timestamp_inked _ Hts') in Heq.
      apply blank_inked in Hv, Hv2, Hw, Hw2. rewrite Hv, Hv2, Hw, Hw2 in Heq.
      assert (inked (String a base) = 0) by lia.
      apply blank_inked in H. congruence.
Qed.

(** C7, as the source has it.  [clean_title] removes a timestamp
    annotation "(HH:MM:SS)" that ends the title, together with the white
    space around it, and strips the white space at both ends of what is
    left: "Smith homers (02:34:56)" becomes "Smith homers".  A title that
    does not end in such an annotation comes back stripped of leading and
    trailing white space, and so unchanged when it has none. *)
Theorem clean_title_strips :
  Dingers.clean_title "Smith homers (02:34:56)" = "Smith homers"
  /\ Dingers.clean_title "Jones doubles" = "Jones doubles"
  /\ (forall base w ts w2,
         blank w = true -> is_timestamp ts = true -> blank w2 = true ->
         Dingers.clean_title (base ++ w ++ ts ++ w2) = Py.strip base)
  /\ (forall title,
         (forall base w ts w2,
             blank w = true -> is_timestamp ts = true -> blank w2 = true ->
             title <> base ++ w ++ ts ++ w2) ->
         Dingers.clean_title title = Py.strip title
         /\ (Py.strip title = title -> Dingers.clean_title title = title)).
Proof.
  split; [vm_compute; reflexivity|]. split; [vm_compute; reflexivity|]. split.
  - intros base w ts w2 Hw Hts Hw2. unfold Dingers.clean_title.
    rewrite sub_timestamp by assumption. apply strip_rstrip.
  - intros title Hno.
    assert (H : Dingers.clean_title title = Py.strip title).
    { unfold Dingers.clean_title, Re.sub. rewrite sub_go_nowhere; [reflexivity|].
      intros pre t ->.
      destruct (Re.match_at Dingers.timestamp_re t) as [[rest c]|] eqn:Em;
        [|reflexivity].
      exfalso. apply timestamp_match_shape in Em as (v & ts & v2 & -> & Hv & Hts & Hv2).
      exact (Hno pre v ts v2 Hv Hts Hv2 eq_refl). }
    split; [exact H|]. intros Hs. now rewrite H.
Qed.

(** C7, as the specification has it, fails: this title does not end in
    " (HH:MM:SS)" and is changed all the same. *)
Lemma clean_title_changes_unstamped :
  timestamp_suffix " Smith homers" = false
  /\ Dingers.clean_title " Smith homers" <> " Smith homers".
Proof. split; [reflexivity|]. vm_compute. discriminate. Qed.

(* ================================================================= *)
(** ** Body extraction *)

Lemma node_induction (P : Email.node -> Prop) :
  (forall s, P (Email.Text s)) ->
  (forall tag classes kids, Forall P kids -> P (Email.Elem tag classes kids)) ->
  forall n, P n.
Proof.
  intros HT HE. fix IH 1. intros [s|tag classes kids]; [apply HT|].
  apply HE. induction kids as [|k kids IHk]; constructor; [apply IH | exact IHk].
Qed.

Lemma find_app {A} (f : A -> bool) (a b : list A) :
  List.find f (a ++ b)%list
  = match List.find f a with Some x => Some x | None => List.find f b end.
Proof.
  induction a as [|x a IH]; simpl; [reflexivity|]. destruct (f x); auto.
Qed.

(** [find(class_=...)] returns the first tag, in document order, that
    carries the class. *)
Lemma find_class_node_first (cls : string) (n : Email.node) :
  Email.find_class_node cls n = List.find (carries cls) (elements n).
Proof.
  induction n as [s|tag classes kids IH] using node_induction; [reflexivity|].
  cbn [Email.find_class_node elements List.find carries].
  destruct (Email.has_class cls classes); [reflexivity|].
  induction IH as [|k kids Hk _ IHk]; [reflexivity|].
  cbn [flat_map]. rewrite find_app, <- Hk.
  destruct (Email.find_class_node cls k); [reflexivity | exact IHk].
Qed.

Lemma find_class_first (cls : string) (doc : list Email.node) :
  Email.find_class cls doc = List.find (carries cls) (flat_map elements doc).
Proof.
  induction doc as [|k doc IH]; [reflexivity|].
  cbn [Email.find_class flat_map]. rewrite find_app, <- find_class_node_first.
  destruct (Email.find_class_node cls k); [reflexivity | exact IH].
Qed.

(** After the replacement no line-break tag is left below the container,
    and what was there apart from line breaks is as it was. *)
Lemma replace_br_no_br (n : Email.node) :
  List.existsb is_br (elements (Email.replace_br n)) = false.
Proof.
  induction n as [s|tag classes kids IH] using node_induction; [reflexivity|].
  cbn [Email.replace_br]. destruct (String.eqb tag "br") eqn:E; [reflexivity|].
  cbn [elements List.existsb is_br]. rewrite E. cbn [orb].
  induction IH as [|k kids Hk _ IHk]; [reflexivity|].
  cbn [map flat_map]. now rewrite existsb_app, Hk, IHk.
Qed.

Lemma replace_br_id (n : Email.node) :
  List.existsb is_br (elements n) = false -> Email.replace_br n = n.
Proof.
  induction n as [s|tag classes kids IH] using node_induction; [reflexivity|].
  cbn [elements List.existsb is_br Email.replace_br].
  destruct (String.eqb tag "br"); [discriminate|]. cbn [orb]. intros H.
  f_equal. induction IH as [|k kids Hk _ IHk]; [reflexivity|].
  cbn [flat_map] in H. rewrite existsb_app in H.
  apply orb_false_iff in H as [H1 H2].
  cbn [map]. now rewrite Hk, IHk.
Qed.

(** Collapsing: no two neighbouring empty lines are left, the other lines
    stay as they are and in their order, and lines that had no two
    neighbouring empty ones are not touched. *)
Lemma adjacent_empty_cons (a b : string) (l : list string) :
  adjacent_empty (a :: b :: l)
  = (String.eqb a "" && String.eqb b "") || adjacent_empty (b :: l).
Proof. reflexivity. Qed.

Lemma collapse_blank_no_run (lines : list string) :
  forall prev,
    adjacent_empty (Email.collapse_blank prev lines) = false
    /\ (prev = true ->
        match Email.collapse_blank prev lines with
        | a :: _ => a <> ""
        | [] => True
        end).
Proof.
  induction lines as [|line rest IH]; intros prev; [simpl; auto|].
  destruct line as [|c line]; cbn [Email.collapse_blank].
  - destruct (IH true) as [Hrun Hhead]. destruct prev.
    + split; [exact Hrun | intros _; exact (Hhead eq_refl)].
    + split; [|discriminate].
      specialize (Hhead eq_refl).
      destruct (Email.collapse_blank true rest) as [|a l] eqn:E; [reflexivity|].
      rewrite adjacent_empty_cons, Hrun.
      destruct a; [contradiction | reflexivity].
  - destruct (IH false) as [Hrun _]. split; [|intros _; discriminate].
    destruct (Email.collapse_blank false rest) as [|a l] eqn:E; [reflexivity|].
    rewrite adjacent_empty_cons, Hrun. reflexivity.
Qed.

Lemma collapse_blank_keeps (lines : list string) :
  forall prev,
    List.filter nonempty (Email.collapse_blank prev lines)
    = List.filter nonempty lines.
Proof.
  induction lines as [|line rest IH]; intros prev; [reflexivity|].
  destruct line as [|c line]; cbn [Email.collapse_blank].
  - destruct prev; cbn [List.filter nonempty String.eqb negb]; apply IH.
  - cbn [List.filter nonempty String.eqb negb]. now rewrite IH.
Qed.

Lemma collapse_blank_id (lines : list string) :
  adjacent_empty lines = false ->
  Email.collapse_blank false lines = lines
  /\ (match lines with "" :: _ => False | _ => True end ->
      Email.collapse_blank true lines = lines).
Proof.
  induction lines as [|line rest IH]; intros H; [simpl; auto|].
  assert (Hrest : adjacent_empty rest = false).
  { destruct rest as [|b rest']; [reflexivity|].
    rewrite adjacent_empty_cons in H. apply orb_false_iff in H as [_ H]. exact H. }
  destruct (IH Hrest) as [IH1 IH2].
  destruct line as [|c line]; cbn [Email.collapse_blank].
  - split; [|contradiction]. f_equal. apply IH2.
    destruct rest as [|[|b0 b] rest']; try exact I.
    rewrite adjacent_empty_cons in H. discriminate.
  - now rewrite IH1.
Qed.

Lemma replace_brs_no_br (div : Email.node) :
  List.existsb is_br (flat_map elements (children (Email.replace_brs div))) = false.
Proof.
  destruct div as [s|tag classes kids]; [reflexivity|].
  cbn [Email.replace_brs children].
  induction kids as [|k kids IH]; [reflexivity|].
  cbn [map flat_map]. now rewrite existsb_app, replace_br_no_br, IH.
Qed.

Lemma strings_replace_br (n : Email.node) :
  Email.strings (Email.replace_br n) = fragments n.
Proof.
  induction n as [s|tag classes kids IH] using node_induction; [reflexivity|].
  cbn [Email.replace_br fragments]. destruct (String.eqb tag "br"); [reflexivity|].
  cbn [Email.strings]. induction IH as [|k kids Hk _ IHk]; [reflexivity|].
  cbn [map flat_map]. now rewrite Hk, IHk.
Qed.

Lemma strings_replace_brs (div : Email.node) :
  carries "darkmode-text" div = true ->
  Email.strings (Email.replace_brs div) = fragments_below div.
Proof.
  destruct div as [s|tag classes kids]; [discriminate|]. intros _.
  unfold fragments_below. cbn [Email.replace_brs Email.strings children].
  induction kids as [|k kids IH]; [reflexivity|].
  cbn [map flat_map]. now rewrite strings_replace_br, IH.
Qed.

Lemma find_class_carries (cls : string) (doc : list Email.node) (div : Email.node) :
  Email.find_class cls doc = Some div -> carries cls div = true.
Proof.
  rewrite find_class_first. intros H. now apply List.find_some in H as [_ H].
Qed.

(** ** Runs of empty lines *)

Lemma stretch_head (runs : list nat) (l : list string) :
  head_filled l -> head_filled (stretch runs l).
Proof. destruct l as [|[|c x] l]; [intros _; exact I | contradiction | intros _; exact I]. Qed.

Lemma adjacent_empty_tail (a : string) (l : list string) :
  adjacent_empty (a :: l) = false -> adjacent_empty l = false.
Proof.
  destruct l as [|b l]; [reflexivity|]. rewrite adjacent_empty_cons.
  intros H. now apply orb_false_iff in H as [_ H].
Qed.

Lemma adjacent_empty_head (l : list string) :
  adjacent_empty ("" :: l) = false -> head_filled l.
Proof.
  destruct l as [|[|c b] l]; try (intros _; exact I).
  rewrite adjacent_empty_cons. discriminate.
Qed.

Lemma repeat_empty_inj (a b : nat) (t t' : list string) :
  head_filled t -> head_filled t' ->
  (repeat "" a ++ t)%list = (repeat "" b ++ t')%list -> t = t'.
Proof.
  revert b. induction a as [|a IH]; intros [|b] Ht Ht' H; cbn [repeat app] in H.
  - exact H.
  - subst t. contradiction.
  - subst t'. contradiction.
  - injection H as H. now apply (IH b).
Qed.

(** Collapsing undoes the drawing out: the collapsed lines, with each of
    their empty lines drawn out into a run, are the lines. *)
Lemma collapse_blank_stretch (lines : list string) :
  (exists runs, lines = stretch runs (Email.collapse_blank false lines))
  /\ (forall n, exists runs,
        (repeat "" (S n) ++ lines)%list
        = stretch runs ("" :: Email.collapse_blank true lines)).
Proof.
  induction lines as [|line rest [IH1 IH2]].
  - split; [exists []; reflexivity|]. intros n. exists [n].
    cbn [Email.collapse_blank stretch]. reflexivity.
  - destruct line as [|c line]; cbn [Email.collapse_blank].
    + split.
      * destruct (IH2 0) as [runs Hr]. exists runs. exact Hr.
      * intros n. destruct (IH2 (S n)) as [runs Hr]. exists runs.
        rewrite <- Hr. change (repeat "" (S (S n))) with ("" :: repeat "" (S n)).
        rewrite (repeat_cons (S n) ""), <- app_assoc. reflexivity.
    + destruct IH1 as [runs Hr]. split.
      * exists runs. cbn [stretch]. now rewrite <- Hr.
      * intros n. exists (n :: runs). cbn [stretch]. now rewrite <- Hr.
Qed.

(** Lines without two neighbouring empty ones are fixed by the lines
    they are drawn out into. *)
Lemma stretch_unique (r r' : list string) :
  adjacent_empty r = false -> adjacent_empty r' = false ->
  forall runs runs', stretch runs r = stretch runs' r' -> r = r'.
Proof.
  revert r'. induction r as [|x r IH]; intros r' Hr Hr' runs runs' H.
  - destruct r' as [|[|c y] r']; [reflexivity| |discriminate].
    cbn [stretch] in H. destruct runs'; discriminate.
  - pose proof (adjacent_empty_tail _ _ Hr) as Hr1.
    destruct x as [|c x].
    + destruct r' as [|[|c y] r'].
      * cbn [stretch] in H. destruct runs; discriminate.
      * pose proof (adjacent_empty_tail _ _ Hr') as Hr1'.
        f_equal.
        assert (Hgen : exists a b runs1 runs1',
                   (repeat "" a ++ stretch runs1 r)%list = (repeat "" b ++ stretch runs1' r')%list).
        { cbn [stretch] in H.
          destruct runs as [|n runs], runs' as [|n' runs'].
          - exists 1, 1, [], []. exact H.
          - exists 1, (S n'), [], runs'. exact H.
          - exists (S n), 1, runs, []. exact H.
          - exists (S n), (S n'), runs, runs'. exact H. }
        destruct Hgen as (a & b & runs1 & runs1' & Hgen).
        apply repeat_empty_inj in Hgen;
          [| apply stretch_head, adjacent_empty_head, Hr
           | apply stretch_head, adjacent_empty_head, Hr'].
        exact (IH r' Hr1 Hr1' _ _ Hgen).
      * cbn [stretch] in H. destruct runs; discriminate.
    + destruct r' as [|[|d y] r'].
      * discriminate.
      * cbn [stretch] in H. destruct runs'; discriminate.
      * pose proof (adjacent_empty_tail _ _ Hr') as Hr1'.
        cbn [stretch] in H. injection H as Hc Hx Hrest. subst.
        f_equal. exact (IH r' Hr1 Hr1' _ _ Hrest).
Qed.

(** C5, as the source has it.  Both readers of the body find the content
    container as the first tag, in document order, that carries the class
    [darkmode-text].  [_extract_text_content] returns the text fragments
    below the container, in document order and with every line-break tag
    counted as the string of one newline, joined with single spaces and
    stripped at the ends; without a container it returns the strings of
    the whole document joined and stripped in the same way.  It collapses
    nothing.  [_parse_trade] joins the same fragments with nothing between
    them, splits at the newlines, normalises each line, and collapses:
    what it keeps has no two neighbouring empty lines, and the normalised
    lines are what it keeps with each of its empty lines drawn out into a
    run of one or more, so that every run of empty lines has become one
    empty line, a single empty line has stayed, and every other line
    stands where it stood; no other list of lines has these two
    properties.  [_parse_trade] has no fallback: without a container it
    returns no result.  On a container that holds nested tags, a single
    empty line and a run of three, both readers give what is written out
    below. *)
Theorem body_extraction (soup : string -> list Email.node) (html : string) :
  let doc := soup html in
  Email.find_class "darkmode-text" doc
    = List.find (carries "darkmode-text") (flat_map elements doc)
  /\ (Email.find_class "darkmode-text" doc = None ->
      Email._extract_text_content soup html
        = Py.strip (Py.join " " (flat_map Email.strings doc))
      /\ Email._parse_trade soup html = Ok None)
  /\ (forall div,
        Email.find_class "darkmode-text" doc = Some div ->
        let lines :=
          map Email.normalise_line (Py.split NL (Py.join "" (fragments_below div))) in
        Email._extract_text_content soup html
          = Py.strip (Py.join " " (fragments_below div))
        /\ List.existsb is_br (flat_map elements (children (Email.replace_brs div)))
           = false
        /\ Email.trade_text div = Py.join NL (Email.trade_lines div)
        /\ adjacent_empty (Email.trade_lines div) = false
        /\ (exists runs, lines = stretch runs (Email.trade_lines div))
        /\ (forall kept runs,
              adjacent_empty kept = false -> lines = stretch runs kept ->
              kept = Email.trade_lines div)
        /\ List.filter nonempty (Email.trade_lines div) = List.filter nonempty lines
        /\ (adjacent_empty lines = false -> Email.trade_lines div = lines))
  /\ Email._extract_text_content (fun _ => trade_notice) ""
     = "Deal   A  for B " ++ NL ++ " " ++ NL ++ " x  " ++ NL ++ " " ++ NL ++ " " ++ NL
       ++ " " ++ NL ++ " y " ++ NL ++ " z"
  /\ Email.find_class "darkmode-text" trade_notice
     = List.find (carries "darkmode-text") (flat_map elements trade_notice)
  /\ (forall div,
        Email.find_class "darkmode-text" trade_notice = Some div ->
        fragments_below div
          = ["  Deal  "; "A  for B"; NL; NL; "x "; NL; NL; NL; NL; "y"; NL; "z"]
        /\ Email.trade_lines div = ["Deal A for B"; ""; "x"; ""; "y"; "z"]
        /\ Email.trade_text div
           = "Deal A for B" ++ NL ++ NL ++ "x" ++ NL ++ NL ++ "y" ++ NL ++ "z")
  /\ Email.find_class "darkmode-text" plain_page = None
  /\ Email._extract_text_content (fun _ => plain_page) "" = "Hello world"
  /\ Email._parse_trade (fun _ => plain_page) "" = Ok None.
Proof.
  intros doc. split; [apply find_class_first|]. split.
  { intros Hnone. unfold Email._extract_text_content, Email._parse_trade.
    fold doc. rewrite Hnone. split; reflexivity. }
  split.
  { intros div Hdiv lines.
    pose proof (strings_replace_brs div (find_class_carries _ _ _ Hdiv)) as Hfr.
    assert (Hlines : Email.trade_lines div = Email.collapse_blank false lines).
    { unfold Email.trade_lines, Email.get_text. rewrite Hfr. reflexivity. }
    unfold Email._extract_text_content. fold doc.
    rewrite Hdiv. unfold Email.get_text. rewrite Hfr.
    split; [reflexivity|]. split; [apply replace_brs_no_br|].
    split; [reflexivity|]. rewrite Hlines.
    split; [apply collapse_blank_no_run|].
    split; [apply collapse_blank_stretch|].
    split.
    { intros kept runs Hkept Hk.
      destruct (collapse_blank_stretch lines) as [[runs' Hr] _].
      apply (stretch_unique kept _ Hkept (proj1 (collapse_blank_no_run lines false))
               runs runs').
      now rewrite <- Hk, <- Hr. }
    split; [apply collapse_blank_keeps|].
    intros H. apply collapse_blank_id. exact H. }
  split; [vm_compute; reflexivity|].
  split; [vm_compute; reflexivity|].
  split.
  { intros div Hdiv. vm_compute in Hdiv. injection Hdiv as <-.
    repeat split; vm_compute; reflexivity. }
  repeat split; vm_compute; reflexivity.
Qed.

(** C5, as the specification has it, fails: on a container with three
    line breaks in a row [_extract_text_content] returns two blank lines
    in a row. *)
Lemma extract_text_keeps_blank_runs :
  Email._extract_text_content (fun _ => three_breaks) ""
    = "a " ++ NL ++ " " ++ NL ++ " " ++ NL ++ " b"
  /\ adjacent_blank
       (Py.split NL (Email._extract_text_content (fun _ => three_breaks) ""))
     = true.
Proof. split; vm_compute; reflexivity. Qed.

(* ================================================================= *)
(** ** Searching for a label *)

Lemma startswith_drop (lbl s : string) :
  Py.startswith lbl s = true -> s = lbl ++ Py.drop (String.length lbl) s.
Proof.
  intros H. apply startswith_inv in H as [t ->]. now rewrite drop_append.
Qed.

Lemma find_first_spec (lbl s pre post : string) :
  find_first lbl s = Some (pre, post) -> first_occurrence lbl s pre post.
Proof.
  revert pre post. induction s as [|c s IH]; intros pre post H.
  - cbn [find_first] in H. destruct (Py.startswith lbl "") eqn:E; [|discriminate].
    inversion H; subst. split; [|intros; simpl; lia].
    apply (startswith_drop _ _ E).
  - cbn [find_first] in H. destruct (Py.startswith lbl (String c s)) eqn:E.
    + inversion H; subst. split; [|intros; simpl; lia].
      apply (startswith_drop _ _ E).
    + destruct (find_first lbl s) as [[a b]|] eqn:Ef; [|discriminate].
      inversion H; subst. destruct (IH _ _ eq_refl) as [Hs Hmin].
      split; [simpl; now rewrite <- Hs|].
      intros pre' post' Hdec. destruct pre' as [|c' pre'].
      * change ("" ++ lbl ++ post') with (lbl ++ post') in Hdec.
        rewrite Hdec, startswith_append in E. discriminate.
      * inversion Hdec; subst. simpl. apply le_n_S. eapply Hmin. eassumption.
Qed.

Lemma first_occurrence_before (lbl pre post a b : string) :
  first_occurrence lbl (pre ++ lbl ++ post) pre post ->
  pre = a ++ b -> b <> "" ->
  Py.startswith lbl (b ++ lbl ++ post) = false.
Proof.
  intros [_ Hmin] -> Hb.
  destruct (Py.startswith lbl (b ++ lbl ++ post)) eqn:E; [|reflexivity].
  exfalso. apply startswith_inv in E as [t Ht].
  specialize (Hmin a t). rewrite append_assoc, Ht in Hmin.
  specialize (Hmin eq_refl). rewrite length_append in Hmin.
  destruct b; [contradiction | simpl in Hmin; lia].
Qed.

Lemma first_occurrence_suffix (lbl a t cap rest : string) :
  first_occurrence lbl (a ++ t) (a ++ cap) rest -> t = cap ++ lbl ++ rest ->
  first_occurrence lbl t cap rest.
Proof.
  intros [_ Hmin] ->. split; [reflexivity|].
  intros pre' post' Hdec. specialize (Hmin (a ++ pre') post').
  rewrite Hdec, append_assoc in Hmin. specialize (Hmin eq_refl).
  rewrite !length_append in Hmin. lia.
Qed.

Lemma match_at_lit_miss (lbl : string) (r : Re.regex) (s : string) :
  Py.startswith lbl s = false -> Re.match_at (Re.Cat (Re.Lit lbl) r) s = None.
Proof. intros H. unfold Re.match_at. cbn [Re.rmatch]. now rewrite H. Qed.

(** A search for a pattern that begins with a literal starts matching at
    the first occurrence of the literal. *)
Lemma search_from_first (lbl : string) (r : Re.regex) (pre post : string) :
  first_occurrence lbl (pre ++ lbl ++ post) pre post ->
  Re.search (Re.Cat (Re.Lit lbl) r) (pre ++ lbl ++ post)
  = Re.search (Re.Cat (Re.Lit lbl) r) (lbl ++ post).
Proof.
  intros Hfirst.
  assert (H : forall a b, pre = a ++ b ->
            Re.search (Re.Cat (Re.Lit lbl) r) (b ++ lbl ++ post)
            = Re.search (Re.Cat (Re.Lit lbl) r) (lbl ++ post)).
  { intros a b. revert a. induction b as [|c b IH]; intros a Hab; [reflexivity|].
    change (String c b ++ lbl ++ post) with (String c (b ++ lbl ++ post)).
    cbn [Re.search].
    change (String c (b ++ lbl ++ post)) with (String c b ++ lbl ++ post).
    rewrite match_at_lit_miss
      by (eapply first_occurrence_before; [exact Hfirst | exact Hab | discriminate]).
    apply (IH (a ++ String c "")). rewrite Hab, append_assoc. reflexivity. }
  apply (H "" pre). reflexivity.
Qed.

Lemma search_hit (r : Re.regex) (s rest : string) (c : Re.caps) :
  Re.match_at r s = Some (rest, c) -> Re.search r s = Some c.
Proof. intros H. destruct s; cbn [Re.search]; rewrite H; reflexivity. Qed.

(** A lazy repetition stops at the first place where what follows
    matches. *)
Lemma rep_lazy_until {R : Type} (p : ascii -> bool) (cap rest : string)
    (k : string -> option R) (x : R) :
  all_chars p cap = true ->
  k rest = Some x ->
  forall n,
    n <= String.length cap ->
    (forall a b, cap = a ++ b -> b <> "" -> n <= String.length a ->
                 k (b ++ rest) = None) ->
    Re.rep_lazy p n (cap ++ rest) k = Some x.
Proof.
  intros Hp Hk. induction cap as [|c cap IH]; intros n Hn Hnone.
  - simpl in Hn. assert (n = 0) by lia; subst n.
    change ("" ++ rest) with rest. destruct rest; simpl; rewrite Hk; reflexivity.
  - simpl in Hp. apply andb_true_iff in Hp as [Hc Hp].
    change (String c cap ++ rest) with (String c (cap ++ rest)).
    cbn [Re.rep_lazy]. rewrite Hc.
    assert (Hrec : Re.rep_lazy p (Nat.pred n) (cap ++ rest) k = Some x).
    { apply IH; [exact Hp | simpl in Hn; lia |].
      intros a b Hab Hb Hlen. apply (Hnone (String c a) b).
      - rewrite Hab. reflexivity.
      - exact Hb.
      - simpl. lia. }
    destruct n; [|exact Hrec].
    change (String c (cap ++ rest)) with (String c cap ++ rest).
    rewrite (Hnone "" (String c cap)); [exact Hrec | reflexivity | discriminate | simpl; lia].
Qed.

Lemma all_any (s : string) : all_chars Py.any_char s = true.
Proof. induction s as [|c s IH]; [reflexivity | exact IH]. Qed.

Lemma take_captured (cap rest : string) :
  Py.take (String.length (cap ++ rest) - String.length rest) (cap ++ rest) = cap.
Proof.
  rewrite length_append.
  replace (String.length cap + String.length rest - String.length rest)
    with (String.length cap) by lia.
  apply take_append.
Qed.

(** [lbl(.*?)nxt] with DOTALL, at an occurrence of [lbl]: group 1 runs to
    the first [nxt] after it. *)
Lemma match_section (lbl nxt cap rest : string) :
  first_occurrence nxt (cap ++ nxt ++ rest) cap rest ->
  Re.match_at
    (Re.cat [Re.Lit lbl; Re.Grp 1 (Re.Rep Re.Lazy 0 Py.any_char); Re.Lit nxt])
    (lbl ++ cap ++ nxt ++ rest)
  = Some (rest, Re.set_cap 1 cap Re.no_caps).
Proof.
  intros Hfirst. unfold Re.match_at. cbn [Re.cat Re.rmatch].
  rewrite startswith_append, drop_append.
  apply rep_lazy_until with (n := 0); [apply all_any | | lia |].
  - cbv beta. rewrite startswith_append, drop_append, take_captured. reflexivity.
  - intros a b Hab Hb _. cbv beta.
    now rewrite (first_occurrence_before _ _ _ _ _ Hfirst Hab Hb).
Qed.

Lemma search_section (lbl nxt text a cap rest : string) :
  first_occurrence lbl text a (cap ++ nxt ++ rest) ->
  first_occurrence nxt (cap ++ nxt ++ rest) cap rest ->
  Re.search
    (Re.cat [Re.Lit lbl; Re.Grp 1 (Re.Rep Re.Lazy 0 Py.any_char); Re.Lit nxt]) text
  = Some (Re.set_cap 1 cap Re.no_caps).
Proof.
  intros Hl Hn. pose proof Hl as [-> _].
  cbn [Re.cat]. rewrite search_from_first by exact Hl.
  eapply search_hit. apply (match_section lbl nxt cap rest Hn).
Qed.

Lemma extract_section_layout (lbl nxt text a cap rest : string) :
  first_occurrence (lbl ++ ":") text a (cap ++ (nxt ++ ":") ++ rest) ->
  first_occurrence (nxt ++ ":") (cap ++ (nxt ++ ":") ++ rest) cap rest ->
  Email.extract_section text lbl nxt = Ok (Py.strip cap).
Proof.
  intros Hl Hn. unfold Email.extract_section, Email.section_re.
  rewrite (search_section _ _ _ _ _ _ Hl Hn). reflexivity.
Qed.

(** The team pattern at an occurrence of "- ": group 1 is the text up to
    the first " has made changes to the Trade Block", on one line. *)
Lemma match_team (raw after : string) :
  raw <> "" -> all_chars Py.not_newline raw = true ->
  first_occurrence " has made changes to the Trade Block"
    (raw ++ " has made changes to the Trade Block" ++ after) raw after ->
  Re.match_at Email.team_re
    ("- " ++ raw ++ " has made changes to the Trade Block" ++ after)
  = Some (after, Re.set_cap 1 raw Re.no_caps).
Proof.
  intros Hne Hline Hfirst. unfold Re.match_at, Email.team_re.
  cbn [Re.cat Re.rmatch].
  rewrite startswith_append, drop_append.
  apply rep_lazy_until with (n := 1); [exact Hline | | |].
  - cbv beta. rewrite startswith_append, drop_append, take_captured. reflexivity.
  - destruct raw; [contradiction | simpl; lia].
  - intros a b Hab Hb _. cbv beta.
    now rewrite (first_occurrence_before _ _ _ _ _ Hfirst Hab Hb).
Qed.

Lemma search_team (text pre raw after : string) :
  first_occurrence "- " text pre
    (raw ++ " has made changes to the Trade Block" ++ after) ->
  raw <> "" -> all_chars Py.not_newline raw = true ->
  first_occurrence " has made changes to the Trade Block"
    (raw ++ " has made changes to the Trade Block" ++ after) raw after ->
  Re.search Email.team_re text = Some (Re.set_cap 1 raw Re.no_caps).
Proof.
  intros Hd Hne Hline Hs. pose proof Hd as [-> _].
  change Email.team_re
    with (Re.Cat (Re.Lit "- ")
            (Re.Cat (Re.Grp 1 (Re.Rep Re.Lazy 1 Py.not_newline))
                    (Re.Lit " has made changes to the Trade Block"))).
  rewrite search_from_first by exact Hd.
  eapply search_hit. apply (match_team raw after Hne Hline Hs).
Qed.

(** A lazy repetition over a run that may all be taken stops somewhere in
    the run, or at its end. *)
Lemma rep_lazy_within {R : Type} (p : ascii -> bool) (w rest : string)
    (k : string -> option R) :
  all_chars p w = true -> k rest <> None ->
  exists a b, w = a ++ b /\ k (b ++ rest) <> None
              /\ Re.rep_lazy p 0 (w ++ rest) k = k (b ++ rest).
Proof.
  intros Hp Hk. induction w as [|c w IH].
  - exists "", "". repeat split; auto.
    change ("" ++ rest) with rest.
    destruct rest; simpl; destruct (k _); try reflexivity; contradiction.
  - simpl in Hp. apply andb_true_iff in Hp as [Hc Hp].
    destruct (k (String c w ++ rest)) eqn:E.
    + exists "", (String c w). repeat split; [congruence|].
      change (String c w ++ rest) with (String c (w ++ rest)) in *.
      cbn [Re.rep_lazy]. rewrite E. reflexivity.
    + destruct (IH Hp) as (a & b & -> & Hb & Hrec).
      exists (String c a), b. repeat split; [exact Hb|].
      change (String c (a ++ b) ++ rest) with (String c ((a ++ b) ++ rest)) in *.
      cbn [Re.rep_lazy]. rewrite E, Hc. exact Hrec.
Qed.

(* ================================================================= *)
(** ** [re.split], one step at a time *)

Lemma cons_head_prepend (c : ascii) (pieces : list string) :
  Py.cons_head c pieces = prepend (String c "") pieces.
Proof. destruct pieces; reflexivity. Qed.

Lemma prepend_prepend (a b : string) (pieces : list string) :
  pieces <> [] -> prepend a (prepend b pieces) = prepend (a ++ b) pieces.
Proof.
  destruct pieces as [|p ps]; [contradiction|]. intros _. simpl.
  now rewrite append_assoc.
Qed.

Lemma split_go_nonempty (r : Re.regex) (s : string) :
  forall skip, Re.split_go r skip s <> [].
Proof.
  induction s as [|a s IH]; intros skip.
  - destruct skip; cbn [Re.split_go]; [|discriminate].
    destruct (Re.match_at r "") as [[rest c]|]; [|discriminate].
    destruct (String.length "" - String.length rest); discriminate.
  - destruct skip; cbn [Re.split_go]; [|apply IH].
    destruct (Re.match_at r (String a s)) as [[rest c]|].
    + destruct (String.length (String a s) - String.length rest); discriminate.
    + specialize (IH 0). destruct (Re.split_go r 0 s); [contradiction | discriminate].
Qed.

Lemma split_go_skip (r : Re.regex) (a rest : string) :
  Re.split_go r (String.length a) (a ++ rest) = Re.split_go r 0 rest.
Proof. induction a as [|c a IH]; simpl; [reflexivity | exact IH]. Qed.

Lemma split_go_hit (r : Re.regex) (s1 rest : string) (c : Re.caps) :
  Re.match_at r (s1 ++ rest) = Some (rest, c) -> s1 <> "" ->
  Re.split_go r 0 (s1 ++ rest) = "" :: Re.split_go r 0 rest.
Proof.
  intros H Hne. destruct s1 as [|a s1]; [contradiction|].
  change (String a s1 ++ rest) with (String a (s1 ++ rest)) in *.
  cbn [Re.split_go]. rewrite H. cbn [String.length].
  rewrite length_append.
  replace (S (String.length s1 + String.length rest) - String.length rest)
    with (S (String.length s1)) by lia.
  rewrite split_go_skip. reflexivity.
Qed.

Lemma split_go_miss (r : Re.regex) (a : ascii) (s : string) :
  Re.match_at r (String a s) = None ->
  Re.split_go r 0 (String a s) = prepend (String a "") (Re.split_go r 0 s).
Proof.
  intros H. cbn [Re.split_go]. rewrite H. apply cons_head_prepend.
Qed.

(* ================================================================= *)
(** ** The listing of players *)

Lemma players_miss (c : ascii) (t : string) :
  Ascii.eqb c Py.LF = false ->
  (Py.is_space c = false \/ (Py.is_space c = true /\ starts_inked t)) ->
  Re.match_at Email.players_split_re (String c t) = None.
Proof.
  intros Hlf H. unfold Re.match_at, Email.players_split_re.
  cbn [Re.alt Re.rmatch Re.rep_greedy Nat.pred]. unfold Py.is_char.
  rewrite (Ascii.eqb_sym Py.LF c), Hlf.
  destruct H as [Hc|[Hc Ht]]; rewrite Hc; [reflexivity|].
  destruct t as [|d t]; [reflexivity|]. simpl in Ht.
  cbn [Re.rep_greedy Nat.pred]. rewrite Ht. reflexivity.
Qed.

Lemma starts_inked_not_lf (t : string) :
  starts_inked t ->
  match t with String a _ => Py.is_char Py.LF a = false | EmptyString => True end.
Proof.
  destruct t as [|a t]; [auto|]. intros H. unfold Py.is_char.
  destruct (Ascii.eqb Py.LF a) eqn:E; [|reflexivity].
  apply Ascii.eqb_eq in E. subst a. vm_compute in H. discriminate.
Qed.

Lemma rep_greedy_head_miss {R : Type} (p : ascii -> bool) (n : nat) (a : ascii)
    (s : string) (k : string -> option R) :
  p a = false -> Re.rep_greedy p (S n) (String a s) k = None.
Proof. intros H. cbn [Re.rep_greedy]. now rewrite H. Qed.

Lemma players_hit_newlines (w t : string) :
  w <> "" -> all_chars (Py.is_char Py.LF) w = true ->
  match t with String a _ => Py.is_char Py.LF a = false | EmptyString => True end ->
  Re.match_at Email.players_split_re (w ++ t) = Some (t, Re.no_caps).
Proof.
  intros Hne Hw Ht. unfold Re.match_at, Email.players_split_re.
  cbn [Re.alt Re.rmatch].
  rewrite (rep_greedy_all (Py.is_char Py.LF) w t _ (t, Re.no_caps));
    auto. destruct w; [contradiction | simpl; lia].
Qed.

Lemma players_hit_spaces (g t : string) :
  blank g = true -> 2 <= String.length g ->
  match g with String a _ => Py.is_char Py.LF a = false | EmptyString => True end ->
  starts_inked t ->
  Re.match_at Email.players_split_re (g ++ t) = Some (t, Re.no_caps).
Proof.
  intros Hg Hlen Hhead Ht. unfold Re.match_at, Email.players_split_re.
  cbn [Re.alt Re.rmatch].
  destruct g as [|a g]; [simpl in Hlen; lia|].
  change (String a g ++ t) with (String a (g ++ t)).
  rewrite rep_greedy_head_miss by exact Hhead.
  change (String a (g ++ t)) with (String a g ++ t).
  apply rep_greedy_all; auto.
Qed.

Lemma tight_tail (c : ascii) (s : string) : tight (String c s) = true -> tight s = true.
Proof. cbn [tight]. intros H. apply andb_true_iff in H as [_ H]. exact H. Qed.

Lemma tight_miss (c : ascii) (s rest : string) :
  tight (String c s) = true ->
  Re.match_at Email.players_split_re (String c (s ++ rest)) = None.
Proof.
  cbn [tight]. intros H. apply andb_true_iff in H as [H _].
  destruct (Py.is_space c) eqn:Ec.
  - apply andb_true_iff in H as [Hlf Hnext]. apply negb_true_iff in Hlf.
    apply players_miss; [exact Hlf|]. right. split; [exact Ec|].
    destruct s as [|d s]; [discriminate|]. simpl. now apply negb_true_iff.
  - apply players_miss; [|left; exact Ec].
    destruct (Ascii.eqb c Py.LF) eqn:E; [|reflexivity].
    apply Ascii.eqb_eq in E. subst c. vm_compute in Ec. discriminate.
Qed.

(** Inside a name nothing is split. *)
Lemma split_name (n rest : string) :
  tight n = true ->
  Re.split_go Email.players_split_re 0 (n ++ rest)
  = prepend n (Re.split_go Email.players_split_re 0 rest).
Proof.
  intros Hn. induction n as [|c n IH].
  - change ("" ++ rest) with rest.
    pose proof (split_go_nonempty Email.players_split_re rest 0) as H.
    destruct (Re.split_go _ 0 rest); [contradiction | reflexivity].
  - change (String c n ++ rest) with (String c (n ++ rest)).
    rewrite split_go_miss by (apply tight_miss; exact Hn).
    rewrite IH by (eapply tight_tail; exact Hn).
    rewrite prepend_prepend by apply split_go_nonempty. reflexivity.
Qed.

Lemma newline_span (g : string) :
  exists w g',
    g = w ++ g' /\ all_chars (Py.is_char Py.LF) w = true
    /\ match g' with
       | String a _ => Py.is_char Py.LF a = false
       | EmptyString => True
       end.
Proof.
  induction g as [|c g IH].
  - exists "", "". auto.
  - destruct (Py.is_char Py.LF c) eqn:E.
    + destruct IH as (w & g' & -> & Hw & Hg').
      exists (String c w), g'.
      split; [reflexivity|]. split; [|exact Hg'].
      cbn [all_chars]. now rewrite E, Hw.
    + exists "", (String c g). auto.
Qed.

Lemma split_spaces (g rest : string) :
  blank g = true ->
  match g with String a _ => Py.is_char Py.LF a = false | EmptyString => True end ->
  starts_inked rest ->
  (2 <= String.length g
   /\ Re.split_go Email.players_split_re 0 (g ++ rest)
      = "" :: Re.split_go Email.players_split_re 0 rest)
  \/ (String.length g <= 1
      /\ Re.split_go Email.players_split_re 0 (g ++ rest)
         = prepend g (Re.split_go Email.players_split_re 0 rest)).
Proof.
  intros Hg Hhead Hrest.
  destruct g as [|a [|b g]].
  - right. split; [simpl; lia|]. change ("" ++ rest) with rest.
    pose proof (split_go_nonempty Email.players_split_re rest 0) as H.
    destruct (Re.split_go _ 0 rest); [contradiction | reflexivity].
  - right. split; [simpl; lia|].
    change (String a "" ++ rest) with (String a rest).
    apply split_go_miss. apply players_miss.
    + unfold Py.is_char in Hhead. now rewrite Ascii.eqb_sym.
    + right. unfold blank in Hg. simpl in Hg. rewrite andb_true_r in Hg. auto.
  - left. split; [simpl; lia|].
    eapply split_go_hit; [|discriminate].
    apply players_hit_spaces; auto. simpl; lia.
Qed.

(** At a gap the text is split, and the pieces the gap leaves are blank. *)
Lemma split_gap (g rest : string) :
  is_gap g = true -> starts_inked rest ->
  exists bs b,
    bs <> [] /\ Forall (fun p => blank p = true) bs /\ blank b = true
    /\ Re.split_go Email.players_split_re 0 (g ++ rest)
       = (bs ++ prepend b (Re.split_go Email.players_split_re 0 rest))%list.
Proof.
  unfold is_gap. intros Hgap Hrest. apply andb_true_iff in Hgap as [Hblank Hgap].
  destruct (newline_span g) as (w & g' & -> & Hw & Hg').
  assert (Hb' : blank g' = true).
  { unfold blank in *. rewrite all_chars_append in Hblank.
    apply andb_true_iff in Hblank as [_ H]. exact H. }
  destruct (split_spaces g' rest Hb' Hg' Hrest) as [[Hlen Hs]|[Hlen Hs]].
  - destruct w as [|c w].
    + exists [""], "". change ("" ++ g') with g'. rewrite Hs.
      pose proof (split_go_nonempty Email.players_split_re rest 0) as H.
      destruct (Re.split_go _ 0 rest); [contradiction|].
      repeat split; auto; discriminate.
    + exists [""; ""], "". rewrite append_assoc.
      erewrite split_go_hit;
        [ | apply players_hit_newlines;
            [discriminate | exact Hw | destruct g'; [simpl in Hlen; lia | exact Hg']]
          | discriminate].
      rewrite Hs.
      pose proof (split_go_nonempty Email.players_split_re rest 0) as H.
      destruct (Re.split_go _ 0 rest); [contradiction|].
      repeat split; auto; discriminate.
  - destruct w as [|c w].
    + exfalso. change ("" ++ g') with g' in *.
      destruct g' as [|a [|b g'']]; [discriminate | | simpl in Hlen; lia].
      cbn in Hgap. unfold Py.is_char in Hg'. rewrite Hg' in Hgap. discriminate.
    + exists [""], g'. rewrite append_assoc.
      erewrite split_go_hit;
        [ | apply players_hit_newlines; [discriminate | exact Hw |]
          | discriminate].
      * rewrite Hs. repeat split; auto; discriminate.
      * destruct g' as [|a g'']; [|exact Hg'].
        change ("" ++ rest) with rest. apply starts_inked_not_lf, Hrest.
Qed.

Lemma lstrip_blank_append (b p : string) :
  blank b = true -> Py.lstrip (b ++ p) = Py.lstrip p.
Proof.
  unfold blank. induction b as [|c b IH]; [reflexivity|].
  cbn [all_chars]. intros H. apply andb_true_iff in H as [Hc Hb].
  change (String c b ++ p) with (String c (b ++ p)). cbn [Py.lstrip].
  rewrite Hc. auto.
Qed.

Lemma strip_blank_prefix (b p : string) :
  blank b = true -> Py.strip (b ++ p) = Py.strip p.
Proof. intros H. unfold Py.strip. now rewrite lstrip_blank_append. Qed.

Lemma tight_rstrip (s : string) : tight s = true -> Py.rstrip s = s.
Proof.
  induction s as [|c s IH]; [reflexivity|].
  intros H. pose proof (tight_tail _ _ H) as Hs. cbn [Py.rstrip]. rewrite (IH Hs).
  destruct s as [|d s]; [|reflexivity].
  cbn [tight] in H. destruct (Py.is_space c); [|reflexivity].
  rewrite andb_false_r in H. discriminate.
Qed.

Lemma is_name_inv (n : string) :
  is_name n = true ->
  exists c t, n = String c t /\ Py.is_space c = false /\ tight n = true.
Proof.
  destruct n as [|c t]; [discriminate|]. unfold is_name. intros H.
  apply andb_true_iff in H as [Hc Ht]. apply negb_true_iff in Hc. eauto.
Qed.

Lemma rstrip_append_inked (x y : string) :
  Py.rstrip y <> "" -> Py.rstrip (x ++ y) = x ++ Py.rstrip y.
Proof.
  intros Hy. induction x as [|c x IH]; [reflexivity|].
  change (String c x ++ y) with (String c (x ++ y)). cbn [Py.rstrip]. rewrite IH.
  change (String c x ++ Py.rstrip y) with (String c (x ++ Py.rstrip y)).
  destruct (x ++ Py.rstrip y) eqn:E; [|reflexivity].
  destruct x; [|discriminate]. contradiction.
Qed.

Lemma strip_name_blank (n e : string) :
  is_name n = true -> blank e = true -> Py.strip (n ++ e) = n.
Proof.
  intros Hn He. destruct (is_name_inv n Hn) as (c & t & -> & Hc & Ht).
  unfold Py.strip. change (String c t ++ e) with (String c (t ++ e)).
  cbn [Py.lstrip]. rewrite Hc.
  change (String c (t ++ e)) with (String c t ++ e).
  now rewrite rstrip_append_blank, tight_rstrip.
Qed.

Lemma strip_nonblank_cons (p : string) (l : list string) :
  Email.strip_nonblank (p :: l)
  = if String.eqb (Py.strip p) "" then Email.strip_nonblank l
    else Py.strip p :: Email.strip_nonblank l.
Proof.
  unfold Email.strip_nonblank. cbn [List.filter].
  destruct (String.eqb (Py.strip p) ""); reflexivity.
Qed.

Lemma strip_nonblank_app (a b : list string) :
  Email.strip_nonblank (a ++ b)%list
  = (Email.strip_nonblank a ++ Email.strip_nonblank b)%list.
Proof.
  unfold Email.strip_nonblank. now rewrite List.filter_app, List.map_app.
Qed.

Lemma strip_nonblank_blanks (bs : list string) :
  Forall (fun p => blank p = true) bs -> Email.strip_nonblank bs = [].
Proof.
  induction 1 as [|p bs Hp _ IH]; [reflexivity|].
  rewrite strip_nonblank_cons, (strip_blank _ Hp). exact IH.
Qed.

Lemma strip_nonblank_prepend (b : string) (pieces : list string) :
  blank b = true -> pieces <> [] ->
  Email.strip_nonblank (prepend b pieces) = Email.strip_nonblank pieces.
Proof.
  intros Hb Hne. destruct pieces as [|p ps]; [contradiction|].
  cbn [prepend]. now rewrite !strip_nonblank_cons, strip_blank_prefix.
Qed.

Lemma core_starts_inked (entries : list (string * string)) :
  well_listed entries = true -> starts_inked (core entries).
Proof.
  destruct entries as [|[n g] rest]; [intros _; exact I|].
  cbn [well_listed core]. intros H.
  apply andb_true_iff in H as [H _]. apply andb_true_iff in H as [Hn _].
  destruct (is_name_inv n Hn) as (c & t & -> & Hc & _).
  destruct rest; exact Hc.
Qed.

Lemma split_empty : Re.split_go Email.players_split_re 0 "" = [""].
Proof. reflexivity. Qed.

(** The names of a listing are what the splitting and stripping of
    [_parse_trade_block] leave of it. *)
Lemma split_core (entries : list (string * string)) :
  entries <> [] -> well_listed entries = true ->
  Email.strip_nonblank (Re.split_go Email.players_split_re 0 (core entries))
  = map fst entries.
Proof.
  induction entries as [|[n g] rest IH]; [contradiction|]. intros _ H.
  cbn [well_listed] in H. apply andb_true_iff in H as [H Hrest].
  apply andb_true_iff in H as [Hn Hg].
  destruct (is_name_inv n Hn) as (c & t & En & Hc & Ht).
  destruct rest as [|e2 rest].
  - cbn [core map fst]. rewrite <- (append_nil_r n) at 1.
    rewrite split_name, split_empty by exact Ht. cbn [prepend].
    rewrite strip_nonblank_cons, (strip_name_blank n "" Hn eq_refl).
    rewrite En. reflexivity.
  - change (core ((n, g) :: e2 :: rest)) with (n ++ g ++ core (e2 :: rest)).
    rewrite split_name by exact Ht.
    destruct (split_gap g (core (e2 :: rest)) Hg (core_starts_inked _ Hrest))
      as (bs & b & Hbs & Hblank & Hb & ->).
    destruct bs as [|b0 bs]; [contradiction|].
    pose proof (List.Forall_inv Hblank) as Hb0.
    pose proof (List.Forall_inv_tail Hblank) as Hbs'.
    cbn [prepend app]. rewrite strip_nonblank_cons, (strip_name_blank n b0 Hn Hb0).
    rewrite strip_nonblank_app, (strip_nonblank_blanks _ Hbs').
    rewrite strip_nonblank_prepend by (auto; apply split_go_nonempty).
    rewrite IH by (auto; discriminate).
    rewrite En at 1. reflexivity.
Qed.

Lemma rstrip_listing (entries : list (string * string)) :
  entries <> [] -> well_listed entries = true ->
  Py.rstrip (listing entries) = core entries.
Proof.
  induction entries as [|[n g] rest IH]; [contradiction|]. intros _ H.
  cbn [well_listed] in H. apply andb_true_iff in H as [H Hrest].
  apply andb_true_iff in H as [Hn Hg].
  destruct (is_name_inv n Hn) as (c & t & En & Hc & Ht).
  destruct rest as [|e2 rest].
  - cbn [listing core]. rewrite append_nil_r.
    now rewrite rstrip_append_blank, tight_rstrip.
  - change (listing ((n, g) :: e2 :: rest)) with (n ++ g ++ listing (e2 :: rest)).
    change (core ((n, g) :: e2 :: rest)) with (n ++ g ++ core (e2 :: rest)).
    assert (Hcore : Py.rstrip (listing (e2 :: rest)) = core (e2 :: rest))
      by (apply IH; [discriminate | exact Hrest]).
    rewrite <- append_assoc, rstrip_append_inked, Hcore, append_assoc; [reflexivity|].
    rewrite Hcore. pose proof (core_starts_inked _ Hrest) as Hs.
    destruct e2 as [n2 g2]. cbn [well_listed] in Hrest.
    apply andb_true_iff in Hrest as [Hr _]. apply andb_true_iff in Hr as [Hn2 _].
    destruct (is_name_inv n2 Hn2) as (c2 & t2 & -> & _ & _).
    cbn [core]. destruct rest; discriminate.
Qed.

Lemma players_of_listing (sep0 : string) (entries : list (string * string)) :
  blank sep0 = true -> well_listed entries = true ->
  Email.strip_nonblank
    (Re.split Email.players_split_re (Py.strip (sep0 ++ listing entries)))
  = map fst entries.
Proof.
  intros Hsep Hwl. rewrite strip_blank_prefix by exact Hsep.
  destruct entries as [|e rest] eqn:E; [reflexivity|]. rewrite <- E in *.
  assert (Hne : entries <> []) by (rewrite E; discriminate).
  assert (Hs : Py.strip (listing entries) = core entries).
  { unfold Py.strip. rewrite <- lstrip_rstrip, rstrip_listing by assumption.
    pose proof (core_starts_inked _ Hwl) as Hc.
    destruct (core entries) as [|c t]; [reflexivity|].
    simpl in Hc. cbn [Py.lstrip]. now rewrite Hc. }
  rewrite Hs. unfold Re.split. now apply split_core.
Qed.

(* ================================================================= *)
(** ** The labelled sections *)

Lemma find_first_none (lbl s : string) :
  find_first lbl s = None -> Py.contains lbl s = false.
Proof.
  induction s as [|c s IH]; cbn [find_first Py.contains].
  - destruct (Py.startswith lbl ""); [discriminate | reflexivity].
  - destruct (Py.startswith lbl (String c s)); [discriminate|].
    destruct (find_first lbl s) as [[a b]|]; [discriminate|].
    intros _. now apply IH.
Qed.

Lemma search_lit_absent (lbl : string) (r : Re.regex) (s : string) :
  Py.contains lbl s = false -> Re.search (Re.Cat (Re.Lit lbl) r) s = None.
Proof.
  induction s as [|c s IH]; cbn [Py.contains Re.search]; intros H;
    apply orb_false_iff in H as [Hs Hc]; rewrite (match_at_lit_miss _ _ _ Hs); auto.
Qed.

Lemma append_suffix (a b c d : string) :
  a ++ b = c ++ d -> String.length a <= String.length c -> exists x, b = x ++ d.
Proof.
  revert c. induction a as [|x a IH]; intros c H Hlen.
  - exists c. exact H.
  - destruct c as [|y c]; [simpl in Hlen; lia|].
    simpl in H. inversion H; subst. apply (IH c); [assumption | simpl in Hlen; lia].
Qed.

(** Without a [nxt] after the first [lbl], the section pattern matches
    nowhere. *)
Lemma search_section_none (lbl nxt text : string) :
  section_text lbl nxt text = None ->
  Re.search
    (Re.cat [Re.Lit lbl; Re.Grp 1 (Re.Rep Re.Lazy 0 Py.any_char); Re.Lit nxt]) text
  = None.
Proof.
  unfold section_text. cbn [Re.cat].
  destruct (find_first lbl text) as [[a post]|] eqn:E1.
  - destruct (find_first nxt post) as [[cap rest]|] eqn:E2; [discriminate|]. intros _.
    apply find_first_spec in E1. pose proof E1 as [-> _].
    rewrite search_from_first by exact E1.
    apply find_first_none in E2.
    match goal with |- ?x = None => destruct x eqn:E; [|reflexivity] end.
    exfalso.
    assert (Hs : Re.search
                   (Re.Cat (Re.Lit lbl)
                      (Re.Cat (Re.Grp 1 (Re.Rep Re.Lazy 0 Py.any_char)) (Re.Lit nxt)))
                   (lbl ++ post) <> None) by congruence.
    apply search_iff in Hs as (pre & s1 & s2 & Hdec & Hm).
    cbn [matches] in Hm.
    destruct Hm as (x & y & -> & -> & w & z & -> & _ & ->).
    assert (Hd : lbl ++ post = (pre ++ lbl ++ w) ++ nxt ++ s2)
      by (rewrite Hdec, !append_assoc; reflexivity).
    apply append_suffix in Hd as [u ->]; [|rewrite !length_append; lia].
    assert (Hc : Py.contains nxt (u ++ nxt ++ s2) = true)
      by (apply contains_iff; eauto).
    congruence.
  - intros _. apply search_lit_absent, find_first_none, E1.
Qed.

(** A section is the stripped text between the first occurrence of its
    label and the first occurrence of the next label after it, and
    empty when there is none. *)
Lemma extract_section_spec (text lbl nxt : string) :
  Email.extract_section text lbl nxt
  = Ok (match section_text (lbl ++ ":") (nxt ++ ":") text with
        | Some cap => Py.strip cap
        | None => ""
        end).
Proof.
  destruct (section_text (lbl ++ ":") (nxt ++ ":") text) as [cap|] eqn:E.
  - unfold section_text in E.
    destruct (find_first (lbl ++ ":") text) as [[a post]|] eqn:E1; [|discriminate].
    destruct (find_first (nxt ++ ":") post) as [[cap' rest]|] eqn:E2; [|discriminate].
    inversion E; subst cap'.
    apply find_first_spec in E1, E2. pose proof E2 as [-> _].
    exact (extract_section_layout _ _ _ _ _ _ E1 E2).
  - unfold Email.extract_section, Email.section_re.
    now rewrite (search_section_none _ _ _ E).
Qed.

Lemma blank_lstrip (s : string) : blank (Py.lstrip s) = blank s.
Proof.
  unfold blank. induction s as [|c s IH]; [reflexivity|].
  cbn [Py.lstrip all_chars]. destruct (Py.is_space c) eqn:E; [exact IH|].
  cbn [all_chars]. now rewrite E.
Qed.

Lemma strip_empty_blank (s : string) : Py.strip s = "" -> blank s = true.
Proof.
  unfold Py.strip. intros H. apply rstrip_empty_blank in H.
  now rewrite blank_lstrip in H.
Qed.

Lemma strip_append_blank (s e : string) :
  blank e = true -> Py.strip (s ++ e) = Py.strip s.
Proof.
  intros H. unfold Py.strip. now rewrite <- !lstrip_rstrip, rstrip_append_blank.
Qed.

Lemma or_default_section (sec : option string) :
  Email.or_default (match sec with Some cap => Py.strip cap | None => "" end)
  = or_sentinel sec.
Proof.
  destruct sec as [cap|]; [|reflexivity]. unfold or_sentinel.
  destruct (blank cap) eqn:E; [now rewrite strip_blank|].
  destruct (Py.strip cap) eqn:Es; [|reflexivity].
  apply strip_empty_blank in Es. congruence.
Qed.

(** ** The comment *)

Lemma match_comment (post : string) :
  exists rest cap,
    Re.match_at Email.comment_re ("Comment:" ++ post)
    = Some (rest, Re.set_cap 1 cap Re.no_caps)
    /\ Py.strip cap = match find_first "Note that" post with
                      | Some (c, _) => Py.strip c
                      | None => Py.strip post
                      end.
Proof.
  unfold Re.match_at, Email.comment_re. cbn [Re.cat Re.alt Re.rmatch].
  rewrite startswith_append, drop_append.
  destruct (find_first "Note that" post) as [[c r]|] eqn:E.
  - apply find_first_spec in E. pose proof E as [-> _].
    exists r, c. split; [|reflexivity].
    apply rep_lazy_until with (n := 0); [apply all_any | | lia |].
    + cbv beta. rewrite startswith_append, drop_append, take_captured. reflexivity.
    + intros a b Hab Hb _. cbv beta.
      rewrite (first_occurrence_before _ _ _ _ _ E Hab Hb).
      destruct b as [|x b]; [contradiction|].
      change (String x b ++ "Note that" ++ r) with (String x (b ++ "Note that" ++ r)).
      destruct b; reflexivity.
  - apply find_first_none in E.
    rewrite <- (append_nil_r post).
    match goal with
    | |- context [Re.rep_lazy _ 0 _ ?k] =>
        destruct (rep_lazy_within Py.any_char post "" k (all_any post))
          as (a & b & Hab & Hk & ->)
    end.
    { cbv beta. discriminate. }
    cbv beta in *. subst post. rewrite append_assoc, take_captured in *.
    rewrite append_nil_r in *.
    destruct (Py.startswith "Note that" b) eqn:Es.
    { apply startswith_inv in Es as [t ->].
      assert (Hc : Py.contains "Note that" (a ++ "Note that" ++ t) = true)
        by (apply contains_iff; eauto).
      congruence. }
    destruct b as [|x [|y s]]; try contradiction.
    + exists "", a. now rewrite append_nil_r.
    + destruct (Ascii.eqb x Py.LF) eqn:Ex; [|contradiction].
      exists (String x ""), a. split; [reflexivity|].
      symmetry. apply strip_append_blank.
      apply Ascii.eqb_eq in Ex. subst x. reflexivity.
Qed.

(** The comment is the stripped text after the first "Comment:", up to
    the first "Note that" after it or to the end. *)
Lemma comment_spec (text : string) :
  Email.group1_or_empty (Re.search Email.comment_re text) = Ok (comment_text text).
Proof.
  unfold comment_text.
  change Email.comment_re
    with (Re.Cat (Re.Lit "Comment:")
            (Re.Cat (Re.Grp 1 (Re.Rep Re.Lazy 0 Py.any_char))
                    (Re.Alt (Re.Lit "Note that") Re.Eos))).
  destruct (find_first "Comment:" text) as [[a post]|] eqn:E.
  - apply find_first_spec in E. pose proof E as [-> _].
    destruct (match_comment post) as (rest & cap & Hm & Hcap).
    rewrite search_from_first by exact E.
    change Email.comment_re
      with (Re.Cat (Re.Lit "Comment:")
              (Re.Cat (Re.Grp 1 (Re.Rep Re.Lazy 0 Py.any_char))
                      (Re.Alt (Re.Lit "Note that") Re.Eos))) in Hm.
    rewrite (search_hit _ _ _ _ Hm).
    unfold Email.group1_or_empty, group_strip, Re.set_cap. cbn.
    now rewrite Hcap.
  - apply find_first_none in E. now rewrite search_lit_absent.
Qed.

(** ** The team *)

Lemma search_team_iff (text : string) :
  Re.search Email.team_re text <> None <-> team_phrase text.
Proof.
  rewrite search_iff. unfold team_phrase. split.
  - intros (pre & s1 & s2 & -> & Hm).
    change Email.team_re
      with (Re.Cat (Re.Lit "- ")
              (Re.Cat (Re.Grp 1 (Re.Rep Re.Lazy 1 Py.not_newline))
                      (Re.Lit " has made changes to the Trade Block"))) in Hm.
    cbn [matches] in Hm.
    destruct Hm as (x & y & -> & -> & w & z & -> & [Hw Hlen] & ->).
    exists pre, w, s2. rewrite !append_assoc. repeat split; [|exact Hw].
    destruct w; [simpl in Hlen; lia | discriminate].
  - intros (pre & raw & after & -> & Hne & Hline).
    exists pre, ("- " ++ raw ++ " has made changes to the Trade Block"), after.
    split; [now rewrite !append_assoc|].
    change Email.team_re
      with (Re.Cat (Re.Lit "- ")
              (Re.Cat (Re.Grp 1 (Re.Rep Re.Lazy 1 Py.not_newline))
                      (Re.Lit " has made changes to the Trade Block"))).
    cbn [matches].
    exists "- ", (raw ++ " has made changes to the Trade Block").
    repeat split.
    exists raw, " has made changes to the Trade Block". repeat split; [exact Hline|].
    destruct raw; [contradiction | simpl; lia].
Qed.

Lemma after_last_none (sep s : string) :
  Py.contains sep s = false -> Py.after_last sep s = None.
Proof.
  induction s as [|c s IH]; [reflexivity|].
  cbn [Py.contains Py.after_last]. intros H. apply orb_false_iff in H as [Hs Hc].
  now rewrite (IH Hc), Hs.
Qed.

Lemma after_last_skip (sep a s t : string) :
  Py.after_last sep s = Some t -> Py.after_last sep (a ++ s) = Some t.
Proof.
  intros H. induction a as [|c a IH]; [exact H|].
  change (String c a ++ s) with (String c (a ++ s)). cbn [Py.after_last].
  now rewrite IH.
Qed.

Lemma after_last_here (c : ascii) (sep tm : string) :
  Py.contains (String c sep) (sep ++ tm) = false ->
  Py.after_last (String c sep) (String c sep ++ tm) = Some tm.
Proof.
  intros H. change (String c sep ++ tm) with (String c (sep ++ tm)).
  cbn [Py.after_last]. rewrite (after_last_none _ _ H).
  change (String c (sep ++ tm)) with (String c sep ++ tm).
  now rewrite startswith_append, drop_append.
Qed.

(** The league prefix goes: what follows the last " - " is the team. *)
Lemma team_normalised (raw tm : string) :
  Py.strip raw = raw ->
  (raw = tm \/ exists league, raw = league ++ " - " ++ tm) ->
  Py.contains " - " (" " ++ tm) = false ->
  (if Py.contains " - " (Py.strip raw)
   then Py.strip (Py.rsplit1_last " - " (Py.strip raw))
   else Py.strip raw) = Py.strip tm.
Proof.
  intros Hs Hraw Htm. rewrite Hs.
  assert (Htm' : Py.contains " - " tm = false).
  { change (" " ++ tm) with (String " " tm) in Htm. cbn [Py.contains] in Htm.
    now apply orb_false_iff in Htm as [_ Htm]. }
  destruct Hraw as [->|[league ->]].
  - now rewrite Htm'.
  - assert (Hc : Py.contains " - " (league ++ " - " ++ tm) = true)
      by (apply contains_iff; eauto).
    rewrite Hc. unfold Py.rsplit1_last.
    rewrite (after_last_skip _ league _ tm); [reflexivity|].
    apply after_last_here.
    change ("- " ++ tm) with (String "-" (" " ++ tm)).
    cbn [Py.contains]. now rewrite Htm.
Qed.

(** ** The trade-block offer *)

(** What [_parse_trade_block] returns on a text with a team match, field
    by field. *)
Lemma parse_trade_block_fields (text : string) (m : Re.caps) (g : string) :
  Re.search Email.team_re text = Some m -> m 1 = Some g ->
  Email._parse_trade_block text
  = Ok (Some (Email.BlockData {|
      Email.team :=
        if Py.contains " - " (Py.strip g)
        then Py.strip (Py.rsplit1_last " - " (Py.strip g))
        else Py.strip g;
      Email.players_offered :=
        Email.strip_nonblank
          (Re.split Email.players_split_re
             match section_text "Players Offered:" "Positions Offered:" text with
             | Some cap => Py.strip cap
             | None => ""
             end);
      Email.positions_offered :=
        or_sentinel (section_text "Positions Offered:" "Stats Offered:" text);
      Email.stats_offered :=
        or_sentinel (section_text "Stats Offered:" "Positions Needed:" text);
      Email.positions_needed :=
        or_sentinel (section_text "Positions Needed:" "Stats Needed:" text);
      Email.stats_needed :=
        or_sentinel (section_text "Stats Needed:" "Comment:" text);
      Email.comment := comment_text text |})).
Proof.
  intros E Hg. unfold Email._parse_trade_block. rewrite E.
  unfold group_strip. rewrite Hg. cbn [mbind result_bind].
  rewrite !extract_section_spec. cbn [mbind result_bind].
  change (Re.search Email.stats_needed_re text)
    with (Re.search (Email.section_re "Stats Needed" "Comment") text).
  fold (Email.extract_section text "Stats Needed" "Comment").
  rewrite extract_section_spec, comment_spec. cbn [mbind result_bind].
  rewrite !or_default_section. reflexivity.
Qed.

(** C1 (as the code has it).  The trade-block parser gives no result
    exactly when the text holds no "- <team> has made changes to the
    Trade Block" with a non-empty team on one line.  Otherwise it returns
    an offer in which: each of positions_offered, stats_offered,
    positions_needed and stats_needed is the stripped text between the
    first occurrence of its label and the first occurrence of the next
    label after it, and the sentinel "(None specified)" when that section
    is absent or blank; the comment is the stripped text after the first
    "Comment:" up to the first "Note that" or the end, and the EMPTY
    string (not the sentinel) when absent or blank; players_offered are
    the names of the "Players Offered" section, in order, when they are
    set apart by line breaks or by two or more white-space characters, and
    none when the section is absent; and the team is what follows the last
    " - " of the matched text, so that a league prefix is dropped. *)
Theorem parse_trade_block_offer (text : string) :
  (Email._parse_trade_block text = Ok None <-> ~ team_phrase text)
  /\ (team_phrase text ->
      exists b,
        Email._parse_trade_block text = Ok (Some (Email.BlockData b))
        /\ Email.positions_offered b
           = or_sentinel (section_text "Positions Offered:" "Stats Offered:" text)
        /\ Email.stats_offered b
           = or_sentinel (section_text "Stats Offered:" "Positions Needed:" text)
        /\ Email.positions_needed b
           = or_sentinel (section_text "Positions Needed:" "Stats Needed:" text)
        /\ Email.stats_needed b
           = or_sentinel (section_text "Stats Needed:" "Comment:" text)
        /\ Email.comment b = comment_text text
        /\ (forall sep0 entries,
              section_text "Players Offered:" "Positions Offered:" text
              = Some (sep0 ++ listing entries) ->
              blank sep0 = true -> well_listed entries = true ->
              Email.players_offered b = map fst entries)
        /\ (section_text "Players Offered:" "Positions Offered:" text = None ->
            Email.players_offered b = [])
        /\ (forall raw tm,
              section_text "- " " has made changes to the Trade Block" text
              = Some raw ->
              raw <> "" -> all_chars Py.not_newline raw = true ->
              Py.strip raw = raw ->
              (raw = tm \/ exists league, raw = league ++ " - " ++ tm) ->
              Py.contains " - " (" " ++ tm) = false ->
              Email.team b = Py.strip tm)).
Proof.
  destruct (Re.search Email.team_re text) as [m|] eqn:E.
  - assert (Hp : team_phrase text) by (apply search_team_iff; congruence).
    destruct (group_strip_ok _ _ _ 1 E eq_refl) as (g & Hg & _).
    pose proof (parse_trade_block_fields text m g E Hg) as Hparse.
    split.
    + rewrite Hparse. split; [discriminate | intros Hn; contradiction].
    + intros _. eexists. split; [exact Hparse|].
      cbn [Email.team Email.players_offered Email.positions_offered
           Email.stats_offered Email.positions_needed Email.stats_needed
           Email.comment].
      do 5 (split; [reflexivity|]).
      split; [|split].
      * intros sep0 entries Hsec Hsep Hwl. rewrite Hsec.
        now apply players_of_listing.
      * intros Hnone. rewrite Hnone. reflexivity.
      * intros raw tm Hsec Hne Hline Hstrip Hraw Htm.
        unfold section_text in Hsec.
        destruct (find_first "- " text) as [[pre post]|] eqn:E1; [|discriminate].
        destruct (find_first " has made changes to the Trade Block" post)
          as [[raw' after]|] eqn:E2; [|discriminate].
        inversion Hsec; subst raw'.
        apply find_first_spec in E1, E2. pose proof E2 as [-> _].
        pose proof (search_team text pre raw after E1 Hne Hline E2) as Hm.
        rewrite E in Hm. inversion Hm; subst m.
        unfold Re.set_cap in Hg. cbn in Hg. inversion Hg; subst g.
        now apply team_normalised.
  - assert (Hp : ~ team_phrase text).
    { intros H. apply search_team_iff in H. contradiction. }
    split.
    + unfold Email._parse_trade_block. rewrite E. split; auto.
    + intros H. contradiction.
Qed.

(** The text of "Grand Salamis" with its league prefix and six players:
    the six names in order, the four unspecified sections at the
    sentinel, the comment empty. *)
Lemma parse_trade_block_offer_salamis :
  Email._parse_trade_block salamis_block
  = Ok (Some (Email.BlockData {|
      Email.team := "Grand Salamis";
      Email.players_offered :=
        ["Contreras, Willson"; "Turner, Trea"; "Smith, Cam"; "Wallner, Matt";
         "Miller, Bryce"; "Pfaadt, Brandon"];
      Email.positions_offered := "(None specified)";
      Email.stats_offered := "(None specified)";
      Email.positions_needed := "(None specified)";
      Email.stats_needed := "(None specified)";
      Email.comment := "" |})).
Proof.
  destruct (parse_trade_block_offer salamis_block) as [_ H].
  destruct H as (b & Hb & H1 & H2 & H3 & H4 & H5 & H6 & _ & H7).
  { apply search_team_iff. vm_compute. discriminate. }
  specialize (H6 " " salamis_names eq_refl eq_refl eq_refl).
  assert (Hne : "The Don Orsillo Open - Grand Salamis" <> "") by discriminate.
  specialize (H7 "The Don Orsillo Open - Grand Salamis" "Grand Salamis"
                 eq_refl Hne eq_refl eq_refl
                 (or_intror (ex_intro _ "The Don Orsillo Open" eq_refl)) eq_refl).
  rewrite Hb. destruct b. cbn in H1, H2, H3, H4, H5, H6, H7.
  now subst.
Defined.

(** C1, counterexample to the claim as worded: on that text the comment
    section is blank, and the comment of the offer is the empty string,
    not the sentinel. *)
Lemma trade_block_comment_not_sentinel :
  exists b,
    Email._parse_trade_block salamis_block = Ok (Some (Email.BlockData b))
    /\ section_text "Comment:" "Note that" salamis_block = Some " "
    /\ Email.comment b = ""
    /\ Email.comment b <> "(None specified)".
Proof.
  eexists. split; [vm_compute; reflexivity|].
  split; [reflexivity|]. split; [reflexivity | discriminate].
Qed.

(* ================================================================= *)
(** * Further properties of the code *)

(** ** The attempts of a post *)

Lemma catch_post_once (c : ascii) (u : string)
    (rp : trace -> string -> string -> result response)
    (h : Dingers.highlight) (hd : exn -> Dingers.run (option bool))
    (t : trace) (docs : Dingers.store) :
  catch (Dingers.post_once (Some (String c u)) rp h) hd (t, docs)
  = match attempt_outcome (rp t (String c u) (dinger_content h)) with
    | Ok r => (Ok r, ((t ++ [EvPost (String c u) (dinger_content h)])%list, docs))
    | Raise e => hd e ((t ++ [EvPost (String c u) (dinger_content h)])%list, docs)
    end.
Proof.
  unfold catch, Dingers.post_once, Email.configured, call, lift, mbind, M_bind, mret, M_ret.
  cbn [fst snd]. fold (dinger_content h).
  destruct (rp t (String c u) (dinger_content h)) as [r|e]; [|reflexivity].
  unfold attempt_outcome. destruct (Dingers.raise_for_status r) as [[]|e]; reflexivity.
Qed.

(** X1.  With a webhook URL set, [post_to_discord] makes one, two or three
    attempts, each a post of the same text, with a wait of 500 ms before
    every attempt but the first, and leaves the store alone.  Every attempt
    before the last ended in an exception that is retried; the call ends as
    its last attempt ended; and when it stops before the third attempt,
    that attempt succeeded or ended in an exception that is not retried. *)
Theorem post_to_discord_attempts (c : ascii) (u : string)
    (rp : trace -> string -> string -> result response)
    (h : Dingers.highlight) (t : trace) (docs : Dingers.store) :
  let url := String c u in
  let content := dinger_content h in
  let outcome k := attempt_outcome (rp (t ++ retried url content k)%list url content) in
  exists k,
    k <= 2
    /\ Dingers.post_to_discord (Some url) rp h (t, docs)
       = (outcome k, ((t ++ retried url content k ++ [EvPost url content])%list, docs))
    /\ (forall i, i < k ->
          exists e, outcome i = Raise e /\ Dingers.should_retry e = true)
    /\ (k < 2 -> forall e, outcome k = Raise e -> Dingers.should_retry e = false).
Proof.
  cbv zeta. unfold Dingers.post_to_discord.
  cbn [Dingers.retrying]. rewrite catch_post_once.
  set (url := String c u). set (content := dinger_content h).
  destruct (attempt_outcome (rp t url content)) as [r|e] eqn:E1.
  { exists 0. cbn [retried app]. rewrite app_nil_r, E1.
    split; [lia|]. split; [reflexivity|]. split; [intros; lia | intros _ e He; discriminate]. }
  destruct (Dingers.should_retry e) eqn:R1.
  2:{ exists 0. cbn [retried app]. rewrite app_nil_r, E1.
      split; [lia|]. split; [reflexivity|].
      split; [intros; lia | intros _ e' He; congruence]. }
  unfold mbind at 1. unfold M_bind at 1. unfold call at 1. cbn [fst snd].
  subst url. rewrite catch_post_once. set (url := String c u). fold content.
  rewrite <- !app_assoc. cbn [app].
  assert (H0 : forall i, i < 1 ->
            exists e0, attempt_outcome (rp (t ++ retried url content i)%list url content) = Raise e0
                       /\ Dingers.should_retry e0 = true).
  { intros i Hi. assert (i = 0) by lia; subst i. cbn [retried]. rewrite app_nil_r. eauto. }
  destruct (attempt_outcome (rp (t ++ [EvPost url content; EvSleep 500])%list url content))
    as [r|e2] eqn:E2.
  { exists 1. cbn [retried app]. rewrite E2.
    split; [lia|]. split; [reflexivity|]. split; [exact H0 | intros _ e' He; discriminate]. }
  destruct (Dingers.should_retry e2) eqn:R2.
  2:{ exists 1. cbn [retried app]. rewrite E2.
      split; [lia|]. split; [reflexivity|]. split; [exact H0 | intros _ e' He; congruence]. }
  unfold mbind at 1. unfold M_bind at 1. unfold call at 1. cbn [fst snd].
  subst url. rewrite catch_post_once. set (url := String c u). fold content.
  rewrite <- !app_assoc. cbn [app].
  exists 2. cbn [retried app].
  split; [lia|]. split.
  { match goal with
    | |- match ?x with _ => _ end = _ => destruct x as [r|e3]; [reflexivity|]
    end.
    unfold raise. destruct (Dingers.should_retry e3); reflexivity. }
  split; [|intros; lia].
  intros i Hi. destruct i as [|[|i]]; [apply H0; lia | | lia].
  cbn [retried app]. eauto.
Qed.

(** ** The poll of the highlights *)

Section Poll.

Variable url : option string.
Variable doc_id : string -> string.
Variable rp : trace -> string -> string -> result response.
Variable now : Z.
Variable date : string.

Let post := Dingers.post_to_discord url rp.
Let post_new := Dingers.post_new url doc_id rp now date.

Lemma post_once_log (h : Dingers.highlight) (st : trace * Dingers.store) :
  exists r evs,
    Dingers.post_once url rp h st = (r, ((fst st ++ evs)%list, snd st))
    /\ Forall (post_or_wait h) evs.
Proof.
  destruct st as [t docs]. unfold Dingers.post_once.
  destruct (Email.configured url) as [u|].
  - unfold call, lift, mbind, M_bind, mret, M_ret. cbn [fst snd].
    fold (dinger_content h).
    assert (Hev : Forall (post_or_wait h) [EvPost u (dinger_content h)]).
    { constructor; [right; eauto | constructor]. }
    destruct (rp t u (dinger_content h)) as [r|e]; [|eauto].
    destruct (Dingers.raise_for_status r) as [[]|e]; eauto.
  - exists (Ok (Some false)), []. rewrite app_nil_r. split; [reflexivity | constructor].
Qed.

Lemma retrying_log (h : Dingers.highlight) (more : nat) :
  forall st : trace * Dingers.store,
  exists r evs,
    Dingers.retrying more 500 Dingers.should_retry (Dingers.post_once url rp h) st
    = (r, ((fst st ++ evs)%list, snd st))
    /\ Forall (post_or_wait h) evs.
Proof.
  induction more as [|more IH]; intros st;
    destruct (post_once_log h st) as (r & evs & H & Hevs);
    cbn [Dingers.retrying]; unfold catch at 1; rewrite H.
  - destruct r as [a|e]; [eauto|].
    unfold raise. destruct (Dingers.should_retry e); eauto.
  - destruct r as [a|e]; [eauto|].
    destruct (Dingers.should_retry e); [|unfold raise; eauto].
    unfold mbind at 1. unfold M_bind at 1. unfold call at 1. cbn [fst snd].
    destruct (IH (((fst st ++ evs) ++ [EvSleep 500])%list, snd st))
      as (r2 & evs2 & -> & Hevs2).
    cbn [fst snd]. exists r2, (evs ++ [EvSleep 500] ++ evs2)%list.
    rewrite !app_assoc. split; [reflexivity|].
    rewrite <- app_assoc. apply Forall_app. split; [exact Hevs|].
    apply Forall_app. split; [|exact Hevs2].
    constructor; [left; reflexivity | constructor].
Qed.


Lemma post_new_cons (h : Dingers.highlight) (rest : list Dingers.highlight)
    (t : trace) (docs : Dingers.store) :
  post_new (h :: rest) (t, docs)
  = match docs !! dedup_key doc_id date h with
    | Some _ => post_new rest (t, docs)
    | None =>
        match post h (t, docs) with
        | (Ok _, (t1, docs1)) =>
            post_new rest
              (t1, <[dedup_key doc_id date h :=
                       Dingers.VideoDoc (Dingers.video_url h) (Dingers.title h)
                         (Dingers.description h) now (now + 2 * 86400)]> docs1)
        | (Raise _, st1) => post_new rest st1
        end
    end.
Proof.
  unfold post_new, post. cbn [Dingers.post_new].
  unfold mbind at 1. unfold M_bind at 1. rewrite has_posted_video_spec.
  unfold dedup_key.
  destruct (docs !! (date, doc_id (Dingers.video_url h))) as [d|] eqn:E.
  - rewrite bool_decide_eq_true_2 by eauto. reflexivity.
  - rewrite bool_decide_eq_false_2 by (intros [? ?]; discriminate).
    unfold mbind at 1. unfold M_bind at 1. unfold catch at 1.
    unfold mbind at 1. unfold M_bind at 1.
    destruct (Dingers.post_to_discord url rp h (t, docs)) as [[a|e] [t1 docs1]];
      reflexivity.
Qed.

Lemma post_new_log (hs : list Dingers.highlight) :
  forall (t : trace) (docs : Dingers.store),
  exists evs docs',
    post_new hs (t, docs) = (Ok tt, ((t ++ evs)%list, docs'))
    /\ docs ⊆ docs'
    /\ Forall (fun e => exists h, In h hs
                 /\ docs !! dedup_key doc_id date h = None
                 /\ post_or_wait h e) evs
    /\ (forall k, is_Some (docs' !! k) ->
          is_Some (docs !! k)
          \/ exists h, In h hs /\ k = dedup_key doc_id date h).
Proof.
  induction hs as [|h rest IH]; intros t docs.
  - exists [], docs. rewrite app_nil_r. repeat split; auto. 
  - rewrite post_new_cons.
    destruct (docs !! dedup_key doc_id date h) as [d|] eqn:E.
    + destruct (IH t docs) as (evs & docs' & -> & Hsub & Hev & Hrec).
      exists evs, docs'. repeat split; auto.
      * eapply List.Forall_impl; [|exact Hev]. intros e (h' & Hin & Hn & Hp).
        exists h'. split; [right; exact Hin | auto].
      * intros k Hk. destruct (Hrec k Hk) as [?|(h' & Hin & ->)]; [auto|].
        right. exists h'. split; [right; exact Hin | reflexivity].
    + unfold post, Dingers.post_to_discord.
      destruct (retrying_log h 2 (t, docs)) as (r & evs1 & -> & Hev1).
      cbn [fst snd].
      set (docs1 := match r with
                    | Ok _ => <[dedup_key doc_id date h :=
                                  Dingers.VideoDoc (Dingers.video_url h) (Dingers.title h)
                                    (Dingers.description h) now (now + 2 * 86400)]> docs
                    | Raise _ => docs
                    end).
      assert (Hsub1 : docs ⊆ docs1).
      { subst docs1. destruct r; [apply insert_subseteq; exact E | reflexivity]. }
      assert (Hrec1 : forall k, is_Some (docs1 !! k) ->
                        is_Some (docs !! k) \/ k = dedup_key doc_id date h).
      { subst docs1. intros k Hk. destruct r; [|auto].
        destruct (decide (k = dedup_key doc_id date h)) as [->|Hne]; [auto|].
        rewrite lookup_insert_ne in Hk by congruence. auto. }
      assert (Hgo : exists evs docs',
                 post_new rest ((t ++ evs1)%list, docs1) = (Ok tt, (((t ++ evs1) ++ evs)%list, docs'))
                 /\ docs1 ⊆ docs'
                 /\ Forall (fun e => exists h, In h rest
                              /\ docs1 !! dedup_key doc_id date h = None
                              /\ post_or_wait h e) evs
                 /\ (forall k, is_Some (docs' !! k) ->
                       is_Some (docs1 !! k)
                       \/ exists h, In h rest /\ k = dedup_key doc_id date h))
        by apply IH.
      destruct Hgo as (evs2 & docs' & Hrun & Hsub2 & Hev2 & Hrec2).
      exists (evs1 ++ evs2)%list, docs'. split.
      { subst docs1. rewrite app_assoc. destruct r; exact Hrun. }
      split; [etransitivity; eassumption|]. split.
      { apply Forall_app. split.
        - eapply List.Forall_impl; [|exact Hev1]. intros e He.
          exists h. split; [left; reflexivity | auto].
        - eapply List.Forall_impl; [|exact Hev2]. intros e (h' & Hin & Hn & Hp).
          exists h'. split; [right; exact Hin|]. split; [|exact Hp].
          eapply lookup_weaken_None; eassumption. }
      intros k Hk. destruct (Hrec2 k Hk) as [H1|(h' & Hin & ->)].
      * destruct (Hrec1 k H1) as [?| ->]; [auto|].
        right. exists h. split; [left; reflexivity | reflexivity].
      * right. exists h'. split; [right; exact Hin | reflexivity].
Qed.

Lemma post_new_app (a b : list Dingers.highlight) :
  forall st, post_new (a ++ b)%list st
             = match post_new a st with
               | (Ok _, st') => post_new b st'
               | (Raise e, st') => (Raise e, st')
               end.
Proof.
  induction a as [|h a IH]; intros [t docs]; [reflexivity|].
  change ((h :: a) ++ b)%list with (h :: (a ++ b))%list.
  rewrite !post_new_cons.
  destruct (docs !! dedup_key doc_id date h); [apply IH|].
  destruct (post h (t, docs)) as [[x|e] [t1 docs1]]; apply IH.
Qed.

(** With every highlight recorded, the loop does nothing. *)
Lemma post_new_recorded (hs : list Dingers.highlight) (t : trace) (docs : Dingers.store) :
  (forall h, In h hs -> is_Some (docs !! dedup_key doc_id date h)) ->
  post_new hs (t, docs) = (Ok tt, (t, docs)).
Proof.
  induction hs as [|h rest IH]; intros Hall; [reflexivity|].
  rewrite post_new_cons.
  destruct (Hall h (or_introl eq_refl)) as [d ->].
  apply IH. intros h' Hin. apply Hall. right. exact Hin.
Qed.

(** With an endpoint that accepts every post, the loop leaves every
    highlight recorded. *)
Lemma post_new_records (hs : list Dingers.highlight) :
  accepts_all rp ->
  forall (t : trace) (docs : Dingers.store) (h : Dingers.highlight),
    In h hs ->
    is_Some (snd (snd (post_new hs (t, docs))) !! dedup_key doc_id date h).
Proof.
  intros Hacc. induction hs as [|h0 rest IH]; intros t docs h Hin; [destruct Hin|].
  assert (Hkeep : forall t1 docs1,
             is_Some (docs1 !! dedup_key doc_id date h0) ->
             is_Some (snd (snd (post_new rest (t1, docs1))) !! dedup_key doc_id date h)).
  { intros t1 docs1 H0. destruct Hin as [<-|Hin]; [|apply IH; exact Hin].
    destruct (post_new_log rest t1 docs1) as (evs & docs' & -> & Hsub & _).
    cbn [snd]. destruct H0 as [d Hd]. exists d.
    eapply lookup_weaken; eassumption. }
  rewrite post_new_cons.
  destruct (docs !! dedup_key doc_id date h0) as [d|] eqn:E.
  - apply Hkeep. rewrite E. eauto.
  - assert (Hok : exists a t1, post h0 (t, docs) = (Ok a, (t1, docs))).
    { unfold post, Dingers.post_to_discord. cbn [Dingers.retrying].
      unfold catch at 1. unfold Dingers.post_once.
      destruct (Email.configured url) as [u|]; [|eauto].
      unfold call, lift, mbind, M_bind, mret, M_ret. cbn [fst snd].
      destruct (Hacc t u
                  ("☄️ **" ++ Dingers.clean_title (Dingers.title h0) ++ "**" ++ NL
                   ++ Dingers.description h0 ++ NL ++ "[Video](" ++ Dingers.video_url h0 ++ ")"))
        as (r & -> & ->). eauto. }
    destruct Hok as (a & t1 & ->). apply Hkeep. rewrite lookup_insert_eq. eauto.
Qed.

End Poll.

Lemma check_games_polled (url : option string) (doc_id : string -> string)
    (gh : Z -> result string) (rp : trace -> string -> string -> result response)
    (now : Z) (date : string) (games : list Dingers.game) :
  forall st,
    Dingers.check_games url doc_id gh rp now date games st
    = Dingers.post_new url doc_id rp now date (polled_highlights gh games) st.
Proof.
  induction games as [|g rest IH]; intros st; [reflexivity|].
  cbn [Dingers.check_games polled_highlights flat_map].
  rewrite post_new_app. unfold mbind at 1. unfold M_bind at 1.
  destruct (Dingers.live_or_final g); [|apply IH].
  destruct (Dingers.gamePk g) as [[|p|p]|]; try apply IH.
  - destruct (Dingers.post_new url doc_id rp now date
                (Dingers.extract_hr_highlights gh (Z.pos p)) st) as [[[]|e] st'];
      [apply IH | reflexivity].
  - destruct (Dingers.post_new url doc_id rp now date
                (Dingers.extract_hr_highlights gh (Z.neg p)) st) as [[[]|e] st'];
      [apply IH | reflexivity].
Qed.

Lemma polled_In (gh : Z -> result string) (games : list Dingers.game)
    (h : Dingers.highlight) :
  In h (polled_highlights gh games) ->
  exists g,
    In g games /\ Dingers.live_or_final g = true
    /\ Dingers.gamePk g = Some (Dingers.game_id h)
    /\ Dingers.game_id h <> 0%Z
    /\ In h (Dingers.extract_hr_highlights gh (Dingers.game_id h))
    /\ Dingers.is_hr (Dingers.title h) (Dingers.description h) = true.
Proof.
  unfold polled_highlights. rewrite in_flat_map. intros (g & Hg & Hin).
  exists g. split; [exact Hg|].
  destruct (Dingers.live_or_final g); [|destruct Hin].
  split; [reflexivity|].
  assert (Hid : forall i, In h (Dingers.extract_hr_highlights gh i) ->
                  Dingers.game_id h = i
                  /\ Dingers.is_hr (Dingers.title h) (Dingers.description h) = true).
  { intros i. unfold Dingers.extract_hr_highlights.
    destruct (gh i) as [text|e]; [|intros []].
    rewrite hr_of_entries_In. intros (entry & t & d & u & r & _ & _ & -> & Hhr). auto. }
  destruct (Dingers.gamePk g) as [[|p|p]|]; try destruct Hin;
    destruct (Hid _ Hin) as [Hi Hhr]; rewrite Hi; repeat split; auto; discriminate.
Qed.

(** X2.  A poll never raises whatever the endpoint answers, removes no
    record, and posts only home-run highlights of games that are live or
    final and have a game id, and that had no record when the poll began;
    the only other calls are waits of 500 ms.  A record it writes is the
    record of one of those highlights.  When there is no such highlight
    (the schedule or the feeds could not be fetched, say) it issues no call
    and writes nothing. *)
Theorem main_posts_only_new (url : option string) (doc_id : string -> string)
    (gh : Z -> result string) (rp : trace -> string -> string -> result response)
    (sched : result (list Dingers.game)) (now : Z) (date : string)
    (t : trace) (docs : Dingers.store) :
  exists evs docs',
    Dingers.main url doc_id gh rp sched now date (t, docs)
    = (Ok tt, ((t ++ evs)%list, docs'))
    /\ docs ⊆ docs'
    /\ Forall
         (fun e =>
            e = EvSleep 500
            \/ exists u h g,
                 e = EvPost u (dinger_content h)
                 /\ In g (Dingers.get_todays_games sched)
                 /\ Dingers.live_or_final g = true
                 /\ Dingers.gamePk g = Some (Dingers.game_id h)
                 /\ In h (Dingers.extract_hr_highlights gh (Dingers.game_id h))
                 /\ Dingers.is_hr (Dingers.title h) (Dingers.description h) = true
                 /\ docs !! dedup_key doc_id date h = None)
         evs
    /\ (forall k, is_Some (docs' !! k) ->
          is_Some (docs !! k)
          \/ exists h, In h (polled_highlights gh (Dingers.get_todays_games sched))
                       /\ k = dedup_key doc_id date h)
    /\ (polled_highlights gh (Dingers.get_todays_games sched) = [] ->
        evs = [] /\ docs' = docs).
Proof.
  unfold Dingers.main. rewrite check_games_polled.
  destruct (post_new_log url doc_id rp now date
              (polled_highlights gh (Dingers.get_todays_games sched)) t docs)
    as (evs & docs' & Hrun & Hsub & Hev & Hrec).
  exists evs, docs'. split; [exact Hrun|]. split; [exact Hsub|]. split.
  { eapply List.Forall_impl; [|exact Hev].
    intros e (h & Hin & Hnone & [->|[u ->]]); [left; reflexivity|].
    destruct (polled_In _ _ _ Hin) as (g & Hg & Hlive & Hpk & _ & Hex & Hhr).
    right. exists u, h, g. auto 10. }
  split; [exact Hrec|].
  intros Hnil. rewrite Hnil in Hrun. cbn [Dingers.post_new] in Hrun.
  unfold mret, M_ret in Hrun. inversion Hrun as [[Ht Hd]].
  split; [|reflexivity].
  rewrite <- (app_nil_r t) in Ht at 1. now apply app_inv_head in Ht.
Qed.

(** X3.  When the endpoint accepts every post, a second poll over the same
    schedule and feeds posts nothing and changes nothing: every highlight
    of the first poll has its record. *)
Theorem main_second_poll_idle (url : option string) (doc_id : string -> string)
    (gh : Z -> result string) (rp : trace -> string -> string -> result response)
    (sched : result (list Dingers.game)) (now now' : Z) (date : string)
    (st : trace * Dingers.store) :
  accepts_all rp ->
  let st1 := snd (Dingers.main url doc_id gh rp sched now date st) in
  Dingers.main url doc_id gh rp sched now' date st1 = (Ok tt, st1).
Proof.
  intros Hacc st1. subst st1. unfold Dingers.main. rewrite !check_games_polled.
  destruct st as [t docs].
  pose proof (post_new_records url doc_id rp now date
                (polled_highlights gh (Dingers.get_todays_games sched)) Hacc t docs) as Hall.
  destruct (Dingers.post_new url doc_id rp now date
              (polled_highlights gh (Dingers.get_todays_games sched)) (t, docs))
    as [r [t1 docs1]].
  cbn [snd] in *. apply post_new_recorded. exact Hall.
Qed.

(** Two polls of a final game with one home run, five minutes apart: one
    post in the first, nothing in the second. *)
Lemma main_second_poll_idle_smith :
  let rp : trace -> string -> string -> result response := fun _ _ _ => Ok (Response 204) in
  let run now :=
    Dingers.main (Some "https://discord.example/hook") (fun u => u)
      (fun _ => Ok smith_feed) rp (Ok [Dingers.Game "Final" (Some 7%Z)]) now "2026-04-01" in
  posts_in (fst (snd (run 0%Z ([], ∅)))) = 1
  /\ run 300%Z (snd (run 0%Z ([], ∅))) = (Ok tt, snd (run 0%Z ([], ∅))).
Proof.
  cbv zeta. split; [vm_compute; reflexivity|].
  apply (main_second_poll_idle (Some "https://discord.example/hook") (fun u => u)
           (fun _ => Ok smith_feed) (fun _ _ _ => Ok (Response 204))
           (Ok [Dingers.Game "Final" (Some 7%Z)]) 0 300 "2026-04-01" ([], ∅)).
  intros t u c. exists (Response 204). split; reflexivity.
Defined.

(** ** What is sent for a message *)

Ltac parsed_cases soup html :=
  match goal with
  | |- context [Email._parse_trade_block ?x] =>
      destruct (parse_trade_block_total x) as [->|[b ->]]
  | |- context [Email._parse_trade ?s ?x] =>
      destruct (parse_trade_total s x) as [->|[details ->]]
  | |- context [Email._parse_claim ?x] =>
      destruct (parse_claim_total x) as [->|(team & player & details & ->)]
  | |- context [Email._parse_drop ?x] =>
      destruct (parse_drop_total x) as [->|[players ->]]
  | |- context [Email._parse_draft ?x] =>
      destruct (parse_draft_total x) as [->|(round & pick & player & team & ->)]
  end.

(** Formatting what the parser of the same type returned never fails. *)
Lemma format_parsed_ok (soup : string -> list Email.node)
    (t : Email.transaction_type) (html : string) :
  exists d msg,
    Email.parse_by_type soup t html = Ok d
    /\ Email._format_discord_message t d = Ok msg.
Proof.
  destruct t; cbn [Email.parse_by_type]; try parsed_cases soup html;
    eexists _, _; (split; [reflexivity|]); reflexivity.
Qed.

(** X6.  A fetched message of a known type with a non-empty HTML body is
    posted exactly once when the webhook URL of its type is set: to the
    trade-block URL for a trade-block notice and to the transactions URL
    for every other type, whatever the body holds and whether or not the
    parser found anything in it.  The entry is returned when the post is
    accepted, and the failure of the post is raised otherwise.  With no URL
    for its type nothing is posted and no entry is returned. *)
Theorem process_single_message_posts
    (soup : string -> list Email.node) (b64decode_utf8 : string -> result string)
    (svc : Email.service) (msg_id : string) (tx_url tb_url : option string)
    (t : trace) (p : list Email.processed_entry)
    (message : Email.message) (html : string) :
  Email.messages_get svc t msg_id = Ok message ->
  Email._extract_html_body b64decode_utf8 message = Ok (Some html) ->
  html <> "" ->
  let ty := Email._detect_transaction_type (Email.subject_of (Email.headers message)) in
  ty <> Email.UNKNOWN ->
  let run := Email._process_single_message soup b64decode_utf8 svc msg_id
               tx_url tb_url (t, p) in
  match Email.configured (match ty with Email.BLOCK => tb_url | _ => tx_url end) with
  | None => run = (Ok None, ((t ++ [EvGet msg_id])%list, p))
  | Some url =>
      exists d content,
        Email.parse_by_type soup ty html = Ok d
        /\ Email._format_discord_message ty d = Ok content
        /\ run = (match Email.requests_post svc (t ++ [EvGet msg_id])%list url content with
                  | Ok _ => Ok (Some (msg_id, ty))
                  | Raise e => Raise e
                  end,
                  ((t ++ [EvGet msg_id; EvPost url content])%list, p))
  end.
Proof.
  intros Hget Hbody Hne ty Hty run.
  destruct (format_parsed_ok soup ty html) as (d & content & Hd & Hc).
  assert (Hrun :
    run
    = match Email.configured (match ty with Email.BLOCK => tb_url | _ => tx_url end) with
      | None => (Ok None, ((t ++ [EvGet msg_id])%list, p))
      | Some url =>
          (match Email.requests_post svc (t ++ [EvGet msg_id])%list url content with
           | Ok _ => Ok (Some (msg_id, ty))
           | Raise e => Raise e
           end, ((t ++ [EvGet msg_id; EvPost url content])%list, p))
      end).
  { subst run. unfold Email._process_single_message.
    unfold mbind at 1. unfold M_bind at 1. unfold call at 1. cbn [fst snd].
    rewrite Hget. fold ty.
    assert (Hrest :
      (html_body ← lift (Email._extract_html_body b64decode_utf8 message);
       match html_body with
       | None | Some EmptyString => mret None
       | Some html_body =>
           data ← lift (Email.parse_by_type soup ty html_body);
           discord_message ← lift (Email._format_discord_message ty data);
           match Email.configured (match ty with Email.BLOCK => tb_url | _ => tx_url end) with
           | Some url =>
               _ ← Email._post_to_discord svc url discord_message;
               mret (Some (msg_id, ty))
           | None => mret None
           end
       end) ((t ++ [EvGet msg_id])%list, p)
      = match Email.configured (match ty with Email.BLOCK => tb_url | _ => tx_url end) with
        | None => (Ok None, ((t ++ [EvGet msg_id])%list, p))
        | Some url =>
            (match Email.requests_post svc (t ++ [EvGet msg_id])%list url content with
             | Ok _ => Ok (Some (msg_id, ty))
             | Raise e => Raise e
             end, ((t ++ [EvGet msg_id; EvPost url content])%list, p))
        end).
    { unfold mbind, M_bind, lift, mret, M_ret. rewrite Hbody.
      destruct html as [|a html]; [contradiction|]. rewrite Hd, Hc.
      destruct (Email.configured _) as [url|]; [|reflexivity].
      unfold Email._post_to_discord, call. cbn [fst snd].
      rewrite <- app_assoc. cbn [app].
      destruct (Email.requests_post svc _ url content) as [[]|e]; reflexivity. }
    destruct ty; try contradiction; exact Hrest. }
  rewrite Hrun.
  destruct (Email.configured _) as [url|]; [|reflexivity].
  exists d, content. auto.
Qed.

(** A trade-block notice in which the parser finds nothing is posted to
    the trade-block URL all the same, as a bare title. *)
Lemma process_single_message_posts_block :
  Email._process_single_message (fun _ => []) (fun s => Ok s) (steady_mailbox ["m1"]) "m1"
    (Some "https://discord.example/transactions")
    (Some "https://discord.example/trade-block") ([], [])
  = (Ok (Some ("m1", Email.BLOCK)),
     ([EvGet "m1";
       EvPost "https://discord.example/trade-block"
         ("🟦 **A trade block has been updated in The Don Orsillo Open!**"
          ++ NL ++ NL ++ NL ++ NL)], [])).
Proof.
  pose proof (process_single_message_posts (fun _ => []) (fun s => Ok s)
                (steady_mailbox ["m1"]) "m1"
                (Some "https://discord.example/transactions")
                (Some "https://discord.example/trade-block") [] []
                block_message "PHA+aGk8L3A+" eq_refl eq_refl) as H.
  assert (Hne : "PHA+aGk8L3A+" <> "") by discriminate.
  specialize (H Hne). cbv zeta in H.
  assert (Hty : Email._detect_transaction_type
                  (Email.subject_of (Email.headers block_message)) <> Email.UNKNOWN)
    by (vm_compute; discriminate).
  specialize (H Hty).
  change (Email._detect_transaction_type
            (Email.subject_of (Email.headers block_message))) with Email.BLOCK in H.
  cbn [Email.configured] in H.
  destruct H as (d & content & Hd & Hc & Hrun).
  etransitivity; [exact Hrun|].
  vm_compute in Hd. inversion Hd; subst d.
  vm_compute in Hc. inversion Hc; subst content.
  reflexivity.
Defined.

(** ** What a pass returns *)

Section Pass.

Variable soup : string -> list Email.node.
Variable b64decode_utf8 : string -> result string.
Variable svc : Email.service.
Variables tx_url tb_url : option string.

Let psm := Email._process_single_message soup b64decode_utf8 svc.
Let one := Email.process_one soup b64decode_utf8 svc tx_url tb_url.
Let all := Email.process_all soup b64decode_utf8 svc tx_url tb_url.

(** An entry is returned only after a post, and it names the message. *)
Lemma process_single_message_entry (msg_id : string)
    (st : trace * list Email.processed_entry) :
  exists r evs,
    psm msg_id tx_url tb_url st = (r, ((fst st ++ evs)%list, snd st))
    /\ posts_in evs <= 1
    /\ (forall entry, r = Ok (Some entry) -> fst entry = msg_id /\ posts_in evs = 1).
Proof.
  destruct st as [t p]. unfold psm, Email._process_single_message.
  unfold mbind, M_bind, call, lift, mret, M_ret, Email._post_to_discord. cbn [fst snd].
  assert (Hnone : forall r : result (option Email.processed_entry),
             (forall entry, r <> Ok (Some entry)) ->
             exists r' evs,
               (r, ((t ++ [EvGet msg_id])%list, p)) = (r', ((t ++ evs)%list, p))
               /\ posts_in evs <= 1
               /\ (forall entry, r' = Ok (Some entry) ->
                                 fst entry = msg_id /\ posts_in evs = 1)).
  { intros r Hr. exists r, [EvGet msg_id]. split; [reflexivity|].
    split; [cbv; lia|]. intros entry ->. now destruct (Hr entry). }
  destruct (Email.messages_get svc t msg_id) as [m|e]; [|apply Hnone; discriminate].
  destruct (Email._detect_transaction_type (Email.subject_of (Email.headers m)));
    try (apply Hnone; discriminate);
    (destruct (Email._extract_html_body b64decode_utf8 m) as [[[|a html]|]|e];
     try (apply Hnone; discriminate));
    (destruct (Email.parse_by_type _ _ _) as [d|e]; [|apply Hnone; discriminate]);
    (destruct (Email._format_discord_message _ _) as [msg|e];
     [|apply Hnone; discriminate]);
    (destruct (Email.configured _) as [url|]; [|apply Hnone; discriminate]);
    unfold call; cbn [fst snd]; rewrite <- app_assoc; cbn [app];
    destruct (Email.requests_post _ _ _ _) as [[]|e];
    do 2 eexists; (split; [reflexivity|]); (split; [cbv; lia|]);
    intros entry Hentry; inversion Hentry; subst; split; reflexivity.
Qed.

Lemma posts_in_app (a b : trace) : posts_in (a ++ b)%list = posts_in a + posts_in b.
Proof. unfold posts_in. now rewrite List.filter_app, List.length_app. Qed.

Lemma process_one_processed (msg_id : string)
    (st : trace * list Email.processed_entry) :
  exists evs new,
    one msg_id st = (Ok tt, ((fst st ++ evs)%list, (snd st ++ new)%list))
    /\ (new = [] \/ exists ty, new = [(msg_id, ty)])
    /\ List.length new <= posts_in evs
    /\ posts_in evs <= 1.
Proof.
  unfold one. rewrite process_one_cases. fold psm.
  destruct (process_single_message_entry msg_id st) as (r & evs & -> & Hle & Hentry).
  assert (Harch : forall l, Forall (fun e => exists m, e = EvArchive m) l ->
                    posts_in (evs ++ l)%list = posts_in evs).
  { intros l Hl. rewrite posts_in_app.
    assert (H0 : posts_in l = 0).
    { unfold posts_in. induction Hl as [|e l [m ->] _ IH]; [reflexivity | exact IH]. }
    lia. }
  assert (H1 : posts_in (evs ++ [EvArchive msg_id])%list = posts_in evs).
  { apply Harch. repeat constructor. eauto. }
  assert (H2 : posts_in (evs ++ [EvArchive msg_id; EvArchive msg_id])%list = posts_in evs).
  { apply Harch. repeat constructor; eauto. }
  assert (Hp : (snd st ++ [])%list = snd st) by apply app_nil_r.
  destruct r as [[entry|]|e]; cbv zeta.
  - destruct (Hentry entry eq_refl) as [Hid Hone]. destruct entry as [i ty].
    cbn [fst] in Hid. subst i.
    destruct (Email.messages_modify svc _ msg_id) as [[]|e].
    + exists (evs ++ [EvArchive msg_id])%list, [(msg_id, ty)]. rewrite app_assoc, H1.
      split; [reflexivity|]. split; [right; eauto|]. simpl; lia.
    + exists (evs ++ [EvArchive msg_id; EvArchive msg_id])%list, [(msg_id, ty)].
      rewrite app_assoc, H2.
      split; [reflexivity|]. split; [right; eauto|]. simpl; lia.
  - destruct (Email.messages_modify svc _ msg_id) as [[]|e].
    + exists (evs ++ [EvArchive msg_id])%list, []. rewrite app_assoc, H1, Hp.
      split; [reflexivity|]. split; [left; reflexivity|]. simpl; lia.
    + exists (evs ++ [EvArchive msg_id; EvArchive msg_id])%list, [].
      rewrite app_assoc, H2, Hp.
      split; [reflexivity|]. split; [left; reflexivity|]. simpl; lia.
  - exists (evs ++ [EvArchive msg_id])%list, []. rewrite app_assoc, H1, Hp.
    split; [reflexivity|]. split; [left; reflexivity|]. simpl; lia.
Qed.

Lemma process_all_processed (messages : list string) :
  forall st : trace * list Email.processed_entry,
  exists evs new,
    all messages st = (Ok tt, ((fst st ++ evs)%list, (snd st ++ new)%list))
    /\ sublist (map fst new) messages
    /\ List.length new <= posts_in evs
    /\ posts_in evs <= List.length messages.
Proof.
  induction messages as [|msg_id rest IH]; intros st.
  - exists [], []. rewrite !app_nil_r. destruct st.
    split; [reflexivity|]. split; [constructor|]. split; cbv; lia.
  - destruct (process_one_processed msg_id st) as (evs1 & new1 & H1 & Hnew & Hl1 & Hp1).
    destruct (IH ((fst st ++ evs1)%list, (snd st ++ new1)%list))
      as (evs2 & new2 & H2 & Hsub & Hl2 & Hp2).
    cbn [fst snd] in H2.
    exists (evs1 ++ evs2)%list, (new1 ++ new2)%list. split.
    { unfold all. cbn [Email.process_all]. fold all. fold one.
      unfold mbind at 1. unfold M_bind at 1. rewrite H1, H2.
      rewrite !app_assoc. reflexivity. }
    rewrite posts_in_app, List.length_app. split; [|simpl; lia].
    destruct Hnew as [->|[ty ->]]; cbn [app map fst].
    + now apply sublist_cons.
    + now apply sublist_skip.
Qed.

End Pass.

(** X7.  [process_email] raises exactly when building the mail service or
    listing the labels fails; no failure of the message listing, of a
    fetch, of the parsing, of the webhook or of archiving escapes it. *)
Theorem process_email_raises_iff
    (soup : string -> list Email.node) (b64decode_utf8 : string -> result string)
    (_get_gmail_service : string -> result Email.service)
    (credentials : string) (tx_url tb_url : option string)
    (st : trace * list Email.processed_entry) (e : exn) :
  fst (Email.process_email soup b64decode_utf8 _get_gmail_service credentials
         tx_url tb_url st) = Raise e
  <-> (_get_gmail_service credentials = Raise e
       \/ exists svc, _get_gmail_service credentials = Ok svc
                      /\ Email.labels_list svc (fst st) = Raise e).
Proof.
  destruct st as [t0 p0].
  unfold Email.process_email, Email._get_label_id.
  unfold mbind, M_bind, lift, call, catch, mret, M_ret, put_state, get_state.
  cbn [fst snd].
  destruct (_get_gmail_service credentials) as [svc|e0] eqn:Esvc.
  2:{ cbn [fst]. split; [intros H; left; congruence | intros [H|(svc & H & _)]; [congruence | discriminate]]. }
  destruct (Email.labels_list svc t0) as [labels|e0] eqn:El.
  2:{ cbn [fst]. split.
      - intros H. right. exists svc. split; [reflexivity | congruence].
      - intros [H|(svc' & H & H')]; [discriminate|]. inversion H; subst svc'. congruence. }
  assert (Hno : forall s : Email.status,
             @Ok Email.status s = Raise e
             <-> (@Ok Email.service svc = Raise e
                  \/ exists svc', Ok svc = Ok svc'
                                  /\ Email.labels_list svc' t0 = Raise e)).
  { intros s. split; [discriminate|].
    intros [H|(svc' & H & H')]; [discriminate|]. inversion H; subst svc'. congruence. }
  destruct (fst <$> List.find _ labels) as [[|a label_id]|];
    cbn [fst snd]; try apply Hno.
  destruct (Email.messages_list svc _ _ 50) as [[|m0 l]|e0];
    cbn [fst snd]; try apply Hno.
  match goal with
  | |- context [Email.process_all soup b64decode_utf8 svc tx_url tb_url ?ms ?s0] =>
      destruct (process_all_log soup b64decode_utf8 svc tx_url tb_url ms s0)
        as (evs & p2 & H & _); rewrite H
  end.
  cbn [fst snd]. apply Hno.
Qed.

(** X8.  The entries a pass returns name listed messages, in the order of
    the listing and each at most as often as it is listed, and there are at
    most as many of them as posts were issued, which are at most as many as
    messages were listed.  A pass that does not end with status "ok"
    fetches, posts and archives nothing. *)
Theorem process_email_processed
    (soup : string -> list Email.node) (b64decode_utf8 : string -> result string)
    (_get_gmail_service : string -> result Email.service)
    (credentials : string) (tx_url tb_url : option string)
    (st : trace * list Email.processed_entry) :
  exists r evs p,
    Email.process_email soup b64decode_utf8 _get_gmail_service credentials
      tx_url tb_url st = (r, ((fst st ++ evs)%list, p))
    /\ (forall processed,
          r = Ok (Email.StatusOk processed) ->
          p = processed
          /\ exists svc label_id listed,
               _get_gmail_service credentials = Ok svc
               /\ Email.messages_list svc (fst st ++ [EvLabels])%list
                    [label_id; "INBOX"] 50 = Ok listed
               /\ sublist (map fst processed) listed
               /\ List.length processed <= posts_in evs
               /\ posts_in evs <= List.length listed)
    /\ ((forall processed, r <> Ok (Email.StatusOk processed)) ->
        posts_in evs = 0 /\ touched evs = [] /\ p = snd st).
Proof.
  destruct st as [t0 p0].
  unfold Email.process_email, Email._get_label_id.
  unfold mbind, M_bind, lift, call, catch, mret, M_ret, put_state, get_state.
  cbn [fst snd].
  assert (Hearly : forall (r : result Email.status) (evs : trace),
             (forall processed, r <> Ok (Email.StatusOk processed)) ->
             posts_in evs = 0 -> touched evs = [] ->
             exists r' evs' p,
               (r, ((t0 ++ evs)%list, p0)) = (r', ((t0 ++ evs')%list, p))
               /\ (forall processed,
                     r' = Ok (Email.StatusOk processed) ->
                     p = processed
                     /\ exists svc label_id listed,
                          _get_gmail_service credentials = Ok svc
                          /\ Email.messages_list svc (t0 ++ [EvLabels])%list
                               [label_id; "INBOX"] 50 = Ok listed
                          /\ sublist (map fst processed) listed
                          /\ List.length processed <= posts_in evs'
                          /\ posts_in evs' <= List.length listed)
               /\ ((forall processed, r' <> Ok (Email.StatusOk processed)) ->
                   posts_in evs' = 0 /\ touched evs' = [] /\ p = p0)).
  { intros r evs Hr Hp Ht. exists r, evs, p0. split; [reflexivity|]. split.
    - intros processed ->. now destruct (Hr processed).
    - intros _. auto. }
  destruct (_get_gmail_service credentials) as [svc|e] eqn:Esvc.
  2:{ exists (Raise e), [], p0. rewrite app_nil_r. split; [reflexivity|].
      split; [intros ? H; discriminate | intros _; auto]. }
  destruct (Email.labels_list svc t0) as [labels|e].
  2:{ apply Hearly; [discriminate | reflexivity..]. }
  destruct (fst <$> List.find _ labels) as [[|a label_id]|];
    try solve [apply Hearly; [discriminate | reflexivity..]].
  destruct (Email.messages_list svc _ _ 50) as [[|m0 l]|e] eqn:El;
    cbn [fst snd]; rewrite <- ?app_assoc; cbn [app];
    try solve [apply Hearly; [discriminate | reflexivity..]].
  match goal with
  | |- context [Email.process_all soup b64decode_utf8 svc tx_url tb_url ?ms ?s0] =>
      destruct (process_all_processed soup b64decode_utf8 svc tx_url tb_url ms s0)
        as (evs & new & H & Hsub & Hlen & Hposts); rewrite H
  end.
  cbn [fst snd app].
  exists (Ok (Email.StatusOk new)),
         ([EvLabels; EvList [String a label_id; "INBOX"] 50] ++ evs)%list, new.
  rewrite <- !app_assoc. split; [reflexivity|]. split.
  - intros processed Hp. inversion Hp; subst processed. split; [reflexivity|].
    exists svc, (String a label_id), (m0 :: l).
    rewrite posts_in_app. change (posts_in [EvLabels; EvList _ 50]) with 0.
    repeat split; auto.
  - intros Hr. now destruct (Hr new).
Qed.

(** ** [re.sub] on runs of a character class *)

Lemma sub_runs_started (p : ascii -> bool) (repl s : string) :
  match s with String a _ => p a = false | EmptyString => True end ->
  sub_runs p repl true s = sub_runs p repl false s.
Proof. destruct s as [|a s]; [reflexivity|]. cbn [sub_runs]. now intros ->. Qed.

Lemma sub_runs_run (p : ascii -> bool) (repl w rest : string) :
  all_chars p w = true -> sub_runs p repl true (w ++ rest) = sub_runs p repl true rest.
Proof.
  induction w as [|c w IH]; [reflexivity|]. cbn [all_chars]. intros H.
  apply andb_true_iff in H as [Hc Hw].
  change (String c w ++ rest) with (String c (w ++ rest)). cbn [sub_runs].
  rewrite Hc. auto.
Qed.

(** A text splits into its longest prefix in the class and the rest. *)
Lemma span_class (p : ascii -> bool) (s : string) :
  exists w rest,
    s = w ++ rest /\ all_chars p w = true
    /\ match rest with String a _ => p a = false | EmptyString => True end.
Proof.
  induction s as [|c s (w & rest & -> & Hw & Hr)].
  - exists "", "". auto.
  - destruct (p c) eqn:E.
    + exists (String c w), rest. cbn [all_chars]. rewrite E, Hw. auto.
    + exists "", (String c (w ++ rest)). auto.
Qed.

Lemma sub_go_runs (p : ascii -> bool) (repl : string) (n : nat) :
  forall s, String.length s <= n ->
            Re.sub_go (Re.Rep Re.Greedy 1 p) repl 0 s = sub_runs p repl false s.
Proof.
  induction n as [|n IH]; intros s Hn.
  - destruct s; [reflexivity | simpl in Hn; lia].
  - destruct s as [|c s]; [reflexivity|].
    destruct (p c) eqn:E.
    + destruct (span_class p s) as (w & rest & -> & Hw & Hr).
      change (String c (w ++ rest)) with (String c w ++ rest).
      rewrite (sub_go_hit _ _ (String c w) rest Re.no_caps); [|  | discriminate].
      * change (String c w ++ rest) with (String c (w ++ rest)). cbn [sub_runs].
        rewrite E, (sub_runs_run p repl w rest Hw), (sub_runs_started p repl rest Hr).
        rewrite IH; [reflexivity|]. simpl in Hn. rewrite length_append in Hn. lia.
      * unfold Re.match_at. cbn [Re.rmatch].
        apply rep_greedy_all; [cbn [all_chars]; now rewrite E, Hw | exact Hr | reflexivity
                               | simpl; lia].
    + rewrite sub_go_miss.
      * cbn [sub_runs]. rewrite E, IH; [reflexivity | simpl in Hn; lia].
      * unfold Re.match_at. cbn [Re.rmatch]. apply rep_greedy_head_miss, E.
Qed.

Lemma sub_runs_spec (p : ascii -> bool) (repl s : string) :
  Re.sub (Re.Rep Re.Greedy 1 p) repl s = sub_runs p repl false s.
Proof. unfold Re.sub. apply (sub_go_runs p repl (String.length s)). lia. Qed.

Lemma sub_runs_cons (p : ascii -> bool) (repl : string) (b : bool) (c : ascii)
    (s : string) :
  sub_runs p repl b (String c s)
  = if p c then
      if b then sub_runs p repl true s else repl ++ sub_runs p repl true s
    else String c (sub_runs p repl false s).
Proof. reflexivity. Qed.

Section Runs.

Variable p : ascii -> bool.
Variable r : ascii.

Let out := sub_runs p (String r "").

Lemma sub_runs_no_adjacent (s : string) :
  forall b,
    no_adjacent p (out b s) = true
    /\ (b = true ->
        match out b s with String a _ => p a = false | EmptyString => True end).
Proof.
  unfold out. induction s as [|c s IH]; intros b; [split; [reflexivity | intros _; exact I]|].
  cbn [sub_runs]. destruct (p c) eqn:E.
  - destruct b.
    + apply IH.
    + destruct (IH true) as [Hn Hs]. specialize (Hs eq_refl).
      split; [|discriminate].
      change (String r "" ++ sub_runs p (String r "") true s)
        with (String r (sub_runs p (String r "") true s)).
      cbn [no_adjacent]. rewrite Hn.
      destruct (sub_runs p (String r "") true s) as [|d t]; [reflexivity|].
      rewrite Hs, andb_false_r. reflexivity.
  - destruct (IH false) as [Hn _]. split; [|intros _; exact E].
    cbn [no_adjacent]. rewrite Hn, E.
    destruct (sub_runs p (String r "") false s); reflexivity.
Qed.

Lemma sub_runs_chars (s : string) (b : bool) :
  all_chars (fun c => negb (p c) || Ascii.eqb c r) (out b s) = true.
Proof.
  unfold out. revert b. induction s as [|c s IH]; intros b; [reflexivity|].
  cbn [sub_runs]. destruct (p c) eqn:E.
  - destruct b; [apply IH|].
    change (String r "" ++ sub_runs p (String r "") true s)
      with (String r (sub_runs p (String r "") true s)).
    cbn [all_chars]. now rewrite Ascii.eqb_refl, orb_true_r, IH.
  - cbn [all_chars]. now rewrite E, IH.
Qed.

(** A text whose characters of the class are single [r]s is left as it
    is. *)
Lemma sub_runs_fixed (s : string) :
  all_chars (fun c => negb (p c) || Ascii.eqb c r) s = true ->
  no_adjacent p s = true ->
  out false s = s.
Proof.
  unfold out. induction s as [|c s IH]; [reflexivity|].
  cbn [all_chars no_adjacent sub_runs]. intros Hc Hn.
  apply andb_true_iff in Hc as [Hc Hs]. apply andb_true_iff in Hn as [Hn Hns].
  destruct (p c) eqn:E.
  - simpl in Hc. apply Ascii.eqb_eq in Hc. subst c.
    change (String r "" ++ sub_runs p (String r "") true s)
      with (String r (sub_runs p (String r "") true s)).
    rewrite sub_runs_started; [rewrite IH by auto; reflexivity|].
    destruct s as [|d s]; [exact I|].
    try rewrite E in Hn. simpl in Hn. now apply negb_true_iff in Hn.
  - now rewrite IH.
Qed.

Hypothesis p_space : forall c, p c = true -> Py.is_space c = true.

Lemma sub_runs_starts (s : string) :
  starts_inked s -> starts_inked (out false s).
Proof.
  unfold out. destruct s as [|c s]; [auto|]. cbn [starts_inked sub_runs]. intros Hc.
  destruct (p c) eqn:E; [|exact Hc]. apply p_space in E. congruence.
Qed.

Lemma sub_runs_ends (s : string) :
  forall b, ends_inked s -> s <> "" ->
            out b s <> "" /\ ends_inked (out b s).
Proof.
  unfold out. induction s as [|c s IH]; intros b He Hne; [contradiction|].
  destruct s as [|d s].
  - cbn [ends_inked] in He. cbn [sub_runs].
    destruct (p c) eqn:E; [apply p_space in E; congruence|].
    split; [discriminate | exact He].
  - assert (Hs : forall b', sub_runs p (String r "") b' (String d s) <> ""
                            /\ ends_inked (sub_runs p (String r "") b' (String d s))).
    { intros b'. apply IH; [exact He | discriminate]. }
    assert (Hcons : forall a b',
               String a (sub_runs p (String r "") b' (String d s)) <> ""
               /\ ends_inked (String a (sub_runs p (String r "") b' (String d s)))).
    { intros a b'. destruct (Hs b') as [H1 H2]. split; [discriminate|].
      cbn [ends_inked].
      destruct (sub_runs p (String r "") b' (String d s)); [contradiction | exact H2]. }
    rewrite (sub_runs_cons p (String r "") b c (String d s)).
    destruct (p c); [destruct b; [apply Hs | apply Hcons] | apply Hcons].
Qed.

End Runs.

(** ** The ends of a stripped text *)

Lemma lstrip_starts (s : string) : starts_inked (Py.lstrip s).
Proof.
  induction s as [|c s IH]; [exact I|]. cbn [Py.lstrip].
  destruct (Py.is_space c) eqn:E; [exact IH | exact E].
Qed.

Lemma lstrip_inked (s : string) : starts_inked s -> Py.lstrip s = s.
Proof. destruct s as [|c s]; [reflexivity|]. cbn [starts_inked Py.lstrip]. now intros ->. Qed.

Lemma rstrip_starts (s : string) : starts_inked s -> starts_inked (Py.rstrip s).
Proof.
  destruct s as [|c s]; [intros _; exact I|]. cbn [starts_inked Py.rstrip]. intros Hc.
  rewrite Hc. destruct (Py.rstrip s); exact Hc.
Qed.

Lemma rstrip_fixed_ends (s : string) : Py.rstrip s = s -> ends_inked s.
Proof.
  induction s as [|c s IH]; [intros _; exact I|]. cbn [Py.rstrip]. intros H.
  destruct (Py.rstrip s) as [|d t] eqn:E.
  - destruct (Py.is_space c) eqn:Ec; [discriminate|].
    injection H as <-. exact Ec.
  - injection H as Hs. specialize (IH Hs). cbn [ends_inked].
    rewrite <- Hs in *. exact IH.
Qed.

Lemma ends_inked_rstrip (s : string) : ends_inked s -> Py.rstrip s = s.
Proof.
  induction s as [|c s IH]; [reflexivity|]. cbn [ends_inked Py.rstrip].
  destruct s as [|d s].
  - intros ->. reflexivity.
  - intros H. rewrite (IH H). reflexivity.
Qed.

Lemma strip_ends (s : string) :
  starts_inked (Py.strip s) /\ ends_inked (Py.strip s).
Proof.
  unfold Py.strip. split.
  - apply rstrip_starts, lstrip_starts.
  - apply rstrip_fixed_ends, rstrip_idem.
Qed.

Lemma inked_strip (s : string) : starts_inked s -> ends_inked s -> Py.strip s = s.
Proof.
  intros Hs He. unfold Py.strip. rewrite (lstrip_inked s Hs). now apply ends_inked_rstrip.
Qed.

Lemma strip_idem (s : string) : Py.strip (Py.strip s) = Py.strip s.
Proof. destruct (strip_ends s). now apply inked_strip. Qed.

Lemma all_chars_lstrip (q : ascii -> bool) (s : string) :
  all_chars q s = true -> all_chars q (Py.lstrip s) = true.
Proof.
  induction s as [|c s IH]; [reflexivity|]. cbn [Py.lstrip]. intros H.
  destruct (Py.is_space c); [|exact H]. cbn [all_chars] in H.
  apply andb_true_iff in H as [_ H]. auto.
Qed.

Lemma all_chars_rstrip (q : ascii -> bool) (s : string) :
  all_chars q s = true -> all_chars q (Py.rstrip s) = true.
Proof.
  induction s as [|c s IH]; [reflexivity|]. cbn [all_chars Py.rstrip]. intros H.
  apply andb_true_iff in H as [Hc H]. specialize (IH H).
  destruct (Py.rstrip s) as [|d t].
  - destruct (Py.is_space c); [reflexivity|]. cbn [all_chars]. now rewrite Hc.
  - cbn [all_chars] in *. now rewrite Hc, IH.
Qed.

Lemma all_chars_strip (q : ascii -> bool) (s : string) :
  all_chars q s = true -> all_chars q (Py.strip s) = true.
Proof. intros H. unfold Py.strip. now apply all_chars_rstrip, all_chars_lstrip. Qed.

Lemma all_chars_weaken (q q' : ascii -> bool) (s : string) :
  (forall c, q c = true -> q' c = true) ->
  all_chars q s = true -> all_chars q' s = true.
Proof.
  intros Hq. induction s as [|c s IH]; [reflexivity|]. cbn [all_chars]. intros H.
  apply andb_true_iff in H as [Hc H]. now rewrite (Hq c Hc), IH.
Qed.

(** Replacing the runs of a class of white space in a stripped text
    leaves a stripped text. *)
Lemma sub_runs_stripped (p : ascii -> bool) (r : ascii) (s : string) :
  (forall c, p c = true -> Py.is_space c = true) ->
  Py.strip (sub_runs p (String r "") false (Py.strip s))
  = sub_runs p (String r "") false (Py.strip s).
Proof.
  intros Hp. destruct (strip_ends s) as [Hs He]. apply inked_strip.
  - now apply sub_runs_starts.
  - destruct (Py.strip s) as [|c x] eqn:E; [exact I|].
    apply sub_runs_ends; [exact Hp | exact He | discriminate].
Qed.

(** [re.sub(r"\s+", " ", g.strip())] is clean. *)
Lemma squeeze_clean (g : string) : clean (Email.squeeze (Py.strip g)).
Proof.
  unfold clean, Email.squeeze. rewrite sub_runs_spec.
  split; [apply sub_runs_stripped; auto|].
  split; [apply sub_runs_chars | apply sub_runs_no_adjacent].
Qed.

(** A clean text is already squeezed and stripped. *)
Lemma clean_fixed (s : string) : clean s -> Email.squeeze (Py.strip s) = s.
Proof.
  intros (Hs & Hc & Hn). rewrite Hs. unfold Email.squeeze.
  rewrite sub_runs_spec. now apply sub_runs_fixed.
Qed.

(** ** What a group holds *)

Lemma rmatch_sound_caps {R : Type} (r : Re.regex) :
  forall (s : string) (c : Re.caps) (k : string -> Re.caps -> option R) (x : R),
    Re.rmatch r s c k = Some x ->
    exists s1 s2 c',
      s = s1 ++ s2 /\ matches r s1 s2 /\ k s2 c' = Some x /\ caps_from r c c'.
Proof.
  assert (Hsame : forall r0 c, caps_from r0 c c) by (intros r0 c i g H; auto).
  induction r as [l|p|g n p|r1 IH1 r2 IH2|r1 IH1 r2 IH2|j r1 IH1|];
    intros s c k x H; simpl in H.
  - destruct (Py.startswith l s) eqn:E; [|discriminate].
    apply startswith_inv in E as [t ->]. rewrite drop_append in H.
    exists l, t, c. simpl. auto.
  - destruct s as [|a s]; [discriminate|]. destruct (p a) eqn:E; [|discriminate].
    exists (String a ""), s, c. simpl. eauto 6.
  - destruct g.
    + apply rep_greedy_sound in H as (w & rest & -> & Hw & Hn & Hk).
      exists w, rest, c. simpl. auto.
    + apply rep_lazy_sound in H as (w & rest & -> & Hw & Hn & Hk).
      exists w, rest, c. simpl. auto.
  - apply IH1 in H as (a & s' & c1 & -> & Ha & H & Hc1).
    apply IH2 in H as (b & s2 & c2 & -> & Hb & H & Hc2).
    exists (a ++ b), s2, c2. rewrite append_assoc. split; [reflexivity|].
    split; [simpl; exists a, b; auto|]. split; [exact H|].
    intros i g Hg. destruct (Hc2 i g Hg) as [Hg1|(r' & rest & Hr & Hm)].
    + destruct (Hc1 i g Hg1) as [?|(r' & rest & Hr & Hm)]; [auto|].
      right. exists r', rest. simpl. auto.
    + right. exists r', rest. simpl. auto.
  - destruct (Re.rmatch r1 s c k) eqn:E.
    + inversion H; subst. apply IH1 in E as (s1 & s2 & c' & -> & Hm & Hk & Hc).
      exists s1, s2, c'. simpl. repeat split; auto.
      intros i g Hg. destruct (Hc i g Hg) as [?|(r' & rest & Hr & Hm')]; [auto|].
      right. exists r', rest. simpl. auto.
    + apply IH2 in H as (s1 & s2 & c' & -> & Hm & Hk & Hc).
      exists s1, s2, c'. simpl. repeat split; auto.
      intros i g Hg. destruct (Hc i g Hg) as [?|(r' & rest & Hr & Hm')]; [auto|].
      right. exists r', rest. simpl. auto.
  - apply IH1 in H as (s1 & s2 & c' & -> & Hm & Hk & Hc).
    rewrite take_captured in Hk.
    exists s1, s2, (Re.set_cap j s1 c'). simpl. repeat split; auto.
    intros i g Hg. unfold Re.set_cap in Hg.
    destruct (Nat.eqb i j) eqn:Eij.
    + apply Nat.eqb_eq in Eij. inversion Hg; subst. right. exists r1, s2. simpl. auto.
    + destruct (Hc i g Hg) as [?|(r' & rest & Hr & Hm')]; [auto|].
      right. exists r', rest. simpl. auto.
  - exists "", s, c. simpl.
    destruct s as [|a [|b s]]; try discriminate; auto.
    destruct (Ascii.eqb a Py.LF) eqn:E; [|discriminate].
    apply Ascii.eqb_eq in E; subst a. auto.
Qed.

(** A group of a match found by [re.search] holds a text that the pattern
    inside that group matches. *)
Lemma search_caps (r : Re.regex) (s : string) (c : Re.caps) (i : nat) (g : string) :
  Re.search r s = Some c -> c i = Some g ->
  exists r1 rest, group_body i r r1 /\ matches r1 g rest.
Proof.
  intros Hs Hg.
  assert (Hat : forall t rest c', Re.match_at r t = Some (rest, c') -> caps_from r Re.no_caps c').
  { intros t rest c' H. unfold Re.match_at in H.
    apply rmatch_sound_caps in H as (s1 & s2 & c2 & _ & _ & Hk & Hc).
    inversion Hk; subst. exact Hc. }
  assert (Hc : caps_from r Re.no_caps c).
  { clear Hg. induction s as [|a s IH]; simpl in Hs.
    - destruct (Re.match_at r "") as [[rest c']|] eqn:E; [|discriminate].
      inversion Hs; subst. eapply Hat; eauto.
    - destruct (Re.match_at r (String a s)) as [[rest c']|] eqn:E.
      + inversion Hs; subst. eapply Hat; eauto.
      + auto. }
  destruct (Hc i g Hg) as [H|H]; [discriminate | exact H].
Qed.

(** ** The fields of a draft pick and of a claim *)

Lemma inked_all (s : string) :
  all_chars (fun c => negb (Py.is_space c)) s = true ->
  starts_inked s /\ ends_inked s /\ no_adjacent Py.is_space s = true
  /\ all_chars space_only s = true.
Proof.
  induction s as [|c s IH]; [repeat split|]. cbn [all_chars]. intros H.
  apply andb_true_iff in H as [Hc Hs]. apply negb_true_iff in Hc.
  destruct (IH Hs) as (_ & He & Hn & Ha).
  split; [exact Hc|]. split.
  { cbn [ends_inked]. destruct s; [exact Hc | exact He]. }
  split.
  { cbn [no_adjacent]. rewrite Hn, Hc. destruct s; reflexivity. }
  cbn [all_chars]. unfold space_only at 1. now rewrite Hc, Ha.
Qed.

Lemma inked_clean (s : string) :
  all_chars (fun c => negb (Py.is_space c)) s = true -> clean s.
Proof.
  intros H. destruct (inked_all s H) as (Hs & He & Hn & Ha).
  split; [now apply inked_strip | auto].
Qed.

(** A text of decimal digits comes through [strip] and the squeezing of
    white space as it is. *)
Lemma digits_fixed (g : string) :
  all_chars Py.is_digit g = true -> Email.squeeze (Py.strip g) = g.
Proof.
  intros H. apply clean_fixed, inked_clean.
  eapply all_chars_weaken; [|exact H].
  intros c Hc. now rewrite (digit_not_space c Hc).
Qed.

Ltac group_cases H :=
  cbn in H;
  repeat (destruct H as [H|H]; try contradiction);
  (destruct H as [H ->]; try discriminate H; try lia).

(** X11.  [_parse_draft] hands the text through as raw, or returns a pick
    whose round and pick number are non-empty strings of decimal digits and
    whose player and team are clean: no white space at the ends, and
    single spaces as the only white space inside. *)
Theorem parse_draft_fields (text : string) :
  Email._parse_draft text = Ok (Some (Email.RawData text))
  \/ exists round pick player team,
       Email._parse_draft text
       = Ok (Some (Email.DraftData round pick player team))
       /\ round <> "" /\ all_chars Py.is_digit round = true
       /\ pick <> "" /\ all_chars Py.is_digit pick = true
       /\ clean player /\ clean team.
Proof.
  unfold Email._parse_draft.
  destruct (Re.search Email.draft_re text) as [m|] eqn:E; [right | left; reflexivity].
  destruct (group_strip_ok _ _ _ 1 E eq_refl) as (g1 & Hg1 & ->).
  destruct (group_strip_ok _ _ _ 2 E eq_refl) as (g2 & Hg2 & ->).
  destruct (group_strip_ok _ _ _ 3 E eq_refl) as (g3 & Hg3 & ->).
  destruct (group_strip_ok _ _ _ 4 E eq_refl) as (g4 & Hg4 & ->).
  cbn [mbind result_bind].
  destruct (search_caps _ _ _ _ _ E Hg1) as (r1 & rest1 & Hb1 & Hm1).
  destruct (search_caps _ _ _ _ _ E Hg2) as (r2 & rest2 & Hb2 & Hm2).
  group_cases Hb1. group_cases Hb2.
  cbn [matches] in Hm1, Hm2. destruct Hm1 as [Hd1 Hl1]. destruct Hm2 as [Hd2 Hl2].
  rewrite (digits_fixed g1 Hd1), (digits_fixed g2 Hd2).
  do 4 eexists. split; [reflexivity|].
  split; [destruct g1; [simpl in Hl1; lia | discriminate]|]. split; [exact Hd1|].
  split; [destruct g2; [simpl in Hl2; lia | discriminate]|]. split; [exact Hd2|].
  split; apply squeeze_clean.
Qed.

Lemma upper_not_space (c : ascii) : Py.is_upper_az c = true -> Py.is_space c = false.
Proof.
  unfold Py.is_upper_az, Py.is_space, Py.between. intros Hc.
  apply andb_true_iff in Hc as [Hlo Hhi]. apply Nat.leb_le in Hlo, Hhi.
  fold (Py.between 9 13 (Py.code c)). fold (Py.between 28 32 (Py.code c)).
  rewrite !between_out by lia.
  destruct (Nat.eqb_spec (Py.code c) 133); [lia|].
  destruct (Nat.eqb_spec (Py.code c) 160); [lia|]. reflexivity.
Qed.

Lemma word_or_comma_inked (c : ascii) :
  Email.word_or_comma c = true -> Py.is_space c = false.
Proof.
  destruct c as [[|] [|] [|] [|] [|] [|] [|] [|]]; intros H;
    try reflexivity; discriminate H.
Qed.

Lemma strip_head_inked (x : ascii) (t : string) :
  Py.is_space x = false -> exists u, Py.strip (String x t) = String x u.
Proof.
  intros Hx. unfold Py.strip. cbn [Py.lstrip]. rewrite Hx. cbn [Py.rstrip].
  rewrite Hx. destruct (Py.rstrip t); eauto.
Qed.

(** X12.  [_parse_claim] hands the text through as raw, or returns a claim
    whose player is a name, one space and a position of one or more
    capital letters A-Z; whose team and details are stripped and on one
    line, the details not empty; and whose name is stripped. *)
Theorem parse_claim_fields (text : string) :
  Email._parse_claim text = Ok (Some (Email.RawData text))
  \/ exists team name pos details,
       Email._parse_claim text
       = Ok (Some (Email.ClaimData team (name ++ " " ++ pos) details))
       /\ Py.strip team = team /\ all_chars Py.not_newline team = true
       /\ Py.strip name = name /\ all_chars Email.name_char name = true
       /\ pos <> "" /\ all_chars Py.is_upper_az pos = true
       /\ Py.strip details = details /\ all_chars Py.not_newline details = true
       /\ details <> "".
Proof.
  unfold Email._parse_claim.
  destruct (Re.search Email.claim_re text) as [m|] eqn:E; [right | left; reflexivity].
  destruct (group_strip_ok _ _ _ 1 E eq_refl) as (g1 & Hg1 & ->).
  destruct (group_strip_ok _ _ _ 2 E eq_refl) as (g2 & Hg2 & ->).
  destruct (group_strip_ok _ _ _ 3 E eq_refl) as (g3 & Hg3 & ->).
  destruct (group_strip_ok _ _ _ 4 E eq_refl) as (g4 & Hg4 & ->).
  cbn [mbind result_bind].
  destruct (search_caps _ _ _ _ _ E Hg1) as (r1 & rest1 & Hb1 & Hm1).
  destruct (search_caps _ _ _ _ _ E Hg2) as (r2 & rest2 & Hb2 & Hm2).
  destruct (search_caps _ _ _ _ _ E Hg3) as (r3 & rest3 & Hb3 & Hm3).
  destruct (search_caps _ _ _ _ _ E Hg4) as (r4 & rest4 & Hb4 & Hm4).
  group_cases Hb1. group_cases Hb2. group_cases Hb3. group_cases Hb4.
  cbn [matches] in Hm1, Hm2, Hm3, Hm4.
  destruct Hm1 as [Hc1 _]. destruct Hm2 as [Hc2 _]. destruct Hm3 as [Hc3 Hl3].
  destruct Hm4 as (a & b & -> & [Ha Hla] & [Hb _]).
  assert (Hpos : Py.strip g3 = g3).
  { destruct (inked_all g3) as (Hs & He & _).
    - eapply all_chars_weaken; [|exact Hc3].
      intros c Hc. now rewrite (upper_not_space c Hc).
    - now apply inked_strip. }
  rewrite Hpos.
  exists (Py.strip g1), (Py.strip g2), g3, (Py.strip (a ++ b)).
  split; [reflexivity|].
  split; [apply strip_idem|]. split; [now apply all_chars_strip|].
  split; [apply strip_idem|]. split; [now apply all_chars_strip|].
  split; [destruct g3; [simpl in Hl3; lia | discriminate]|]. split; [exact Hc3|].
  split; [apply strip_idem|].
  assert (Hline : all_chars Py.not_newline (a ++ b) = true).
  { rewrite all_chars_append, Hb, andb_true_r.
    eapply all_chars_weaken; [|exact Ha].
    intros c. destruct c as [[|] [|] [|] [|] [|] [|] [|] [|]]; intros H;
      try reflexivity; discriminate H. }
  split; [now apply all_chars_strip|].
  destruct a as [|x a]; [simpl in Hla; lia|].
  cbn [all_chars] in Ha. apply andb_true_iff in Ha as [Hx _].
  change (String x a ++ b) with (String x (a ++ b)).
  destruct (strip_head_inked x (a ++ b) (word_or_comma_inked x Hx)) as [u ->].
  discriminate.
Qed.

(** ** Lines *)

Lemma not_newline_iff (c : ascii) : Py.not_newline c = negb (Ascii.eqb Py.LF c).
Proof. destruct c as [[|] [|] [|] [|] [|] [|] [|] [|]]; reflexivity. Qed.

Lemma startswith_NL (c : ascii) (s : string) :
  Py.startswith NL (String c s) = Ascii.eqb Py.LF c.
Proof. unfold NL. cbn [Py.startswith]. now rewrite andb_true_r. Qed.

Lemma split_NL_cons (c : ascii) (s : string) :
  Py.split_go NL 0 (String c s)
  = if Ascii.eqb Py.LF c then "" :: Py.split_go NL 0 s
    else Py.cons_head c (Py.split_go NL 0 s).
Proof. cbn [Py.split_go]. rewrite startswith_NL. reflexivity. Qed.

Lemma split_NL_nonempty (s : string) : Py.split_go NL 0 s <> [].
Proof.
  induction s as [|c s IH]; [discriminate|]. rewrite split_NL_cons.
  destruct (Ascii.eqb Py.LF c); [discriminate|].
  destruct (Py.split_go NL 0 s); [contradiction | discriminate].
Qed.

(** The lines of a text hold no line break. *)
Lemma split_NL_lines (s : string) :
  Forall (fun line => all_chars Py.not_newline line = true) (Py.split NL s).
Proof.
  unfold Py.split. induction s as [|c s IH]; [repeat constructor|].
  rewrite split_NL_cons. destruct (Ascii.eqb Py.LF c) eqn:E.
  - constructor; [reflexivity | exact IH].
  - destruct (Py.split_go NL 0 s) as [|l ls]; [repeat constructor|].
    + cbn [all_chars]. now rewrite not_newline_iff, E.
    + cbn [Py.cons_head]. inversion IH; subst. constructor; [|assumption].
      cbn [all_chars]. rewrite not_newline_iff, E. assumption.
Qed.

(** Joining lines that hold no line break and splitting again gives the
    lines back. *)
Lemma split_join_NL (l : list string) :
  l <> [] -> Forall (fun line => all_chars Py.not_newline line = true) l ->
  Py.split NL (Py.join NL l) = l.
Proof.
  unfold Py.split. intros Hne Hl. induction Hl as [|x l Hx Hl IH]; [contradiction|].
  assert (Hline : forall rest pieces,
             Py.split_go NL 0 rest = pieces -> pieces <> [] ->
             Py.split_go NL 0 (x ++ rest) = prepend x pieces).
  { intros rest pieces <- Hp. clear IH Hne. induction x as [|c x IHx].
    - change ("" ++ rest) with rest.
      destruct (Py.split_go NL 0 rest); [contradiction | reflexivity].
    - cbn [all_chars] in Hx. apply andb_true_iff in Hx as [Hc Hx].
      change (String c x ++ rest) with (String c (x ++ rest)).
      rewrite split_NL_cons. rewrite not_newline_iff in Hc.
      apply negb_true_iff in Hc. rewrite Hc, (IHx Hx).
      destruct (Py.split_go NL 0 rest); [contradiction | reflexivity]. }
  destruct l as [|y l].
  - cbn [Py.join]. rewrite <- (append_nil_r x) at 1.
    rewrite (Hline "" [""]); [cbn [prepend]; now rewrite append_nil_r | reflexivity | discriminate].
  - change (Py.join NL (x :: y :: l)) with (x ++ NL ++ Py.join NL (y :: l)).
    rewrite (Hline _ ("" :: y :: l)); [cbn [prepend]; now rewrite append_nil_r | | discriminate].
    change (NL ++ Py.join NL (y :: l)) with (String Py.LF (Py.join NL (y :: l))).
    rewrite split_NL_cons, Ascii.eqb_refl. f_equal. apply IH. discriminate.
Qed.

Lemma sub_runs_all (q p : ascii -> bool) (r : ascii) (s : string) :
  q r = true -> all_chars q s = true ->
  forall b, all_chars q (sub_runs p (String r "") b s) = true.
Proof.
  intros Hr. induction s as [|c s IH]; intros Hs b; [reflexivity|].
  cbn [all_chars] in Hs. apply andb_true_iff in Hs as [Hc Hs].
  rewrite sub_runs_cons. destruct (p c).
  - destruct b; [now apply IH|].
    change (String r "" ++ sub_runs p (String r "") true s)
      with (String r (sub_runs p (String r "") true s)).
    cbn [all_chars]. rewrite Hr. now apply IH.
  - cbn [all_chars]. rewrite Hc. now apply IH.
Qed.

Lemma normalise_line_trade (line : string) :
  all_chars Py.not_newline line = true -> trade_line (Email.normalise_line line).
Proof.
  intros Hl. unfold trade_line, Email.normalise_line, Email.spaces_re.
  rewrite sub_runs_spec. split; [|split].
  - apply sub_runs_stripped. intros c Hc. unfold Py.is_char in Hc.
    apply Ascii.eqb_eq in Hc. subst c. reflexivity.
  - apply sub_runs_no_adjacent.
  - apply sub_runs_all; [reflexivity | now apply all_chars_strip].
Qed.

Lemma collapse_blank_Forall (P : string -> Prop) (lines : list string) :
  Forall P lines -> forall b, Forall P (Email.collapse_blank b lines).
Proof.
  induction 1 as [|line lines Hline _ IH]; intros b; [constructor|].
  cbn [Email.collapse_blank]. destruct line; [destruct b|]; auto.
Qed.

Lemma collapse_blank_nonempty (lines : list string) :
  lines <> [] -> Email.collapse_blank false lines <> [].
Proof. destruct lines as [|[|c l] lines]; [contradiction | discriminate..]. Qed.

(** X15.  The text [_parse_trade] runs its pattern on, line by line: its
    lines are the normalised lines of the container with the runs of empty
    lines collapsed; every line is stripped, on one line, and has no two
    spaces in a row; and no two empty lines follow one another. *)
Theorem trade_text_lines (content_div : Email.node) :
  Py.split NL (Email.trade_text content_div) = Email.trade_lines content_div
  /\ Email.trade_lines content_div <> []
  /\ Forall trade_line (Email.trade_lines content_div)
  /\ adjacent_empty (Py.split NL (Email.trade_text content_div)) = false.
Proof.
  assert (Hlines : Forall trade_line (Email.trade_lines content_div)).
  { unfold Email.trade_lines. apply collapse_blank_Forall.
    apply Forall_map. eapply List.Forall_impl; [|apply split_NL_lines].
    intros line Hl. now apply normalise_line_trade. }
  assert (Hne : Email.trade_lines content_div <> []).
  { unfold Email.trade_lines. apply collapse_blank_nonempty.
    unfold Py.split. intros H. apply map_eq_nil in H.
    now apply split_NL_nonempty in H. }
  assert (Hsplit : Py.split NL (Email.trade_text content_div)
                   = Email.trade_lines content_div).
  { unfold Email.trade_text. apply split_join_NL; [exact Hne|].
    eapply List.Forall_impl; [|exact Hlines]. now intros line (_ & _ & H). }
  split; [exact Hsplit|]. split; [exact Hne|]. split; [exact Hlines|].
  rewrite Hsplit. unfold Email.trade_lines. apply collapse_blank_no_run.
Qed.

(** ** Lists of names *)

Lemma strip_nonblank_names (l : list string) :
  Forall (fun p => all_chars Py.not_newline p = true) l ->
  Forall listed_name (Email.strip_nonblank l).
Proof.
  induction 1 as [|p l Hp _ IH]; [constructor|].
  rewrite strip_nonblank_cons.
  destruct (String.eqb (Py.strip p) "") eqn:E; [exact IH|].
  constructor; [|exact IH]. split; [|split].
  - intros H. rewrite H in E. discriminate.
  - apply strip_idem.
  - now apply all_chars_strip.
Qed.

Lemma cons_head_lines (c : ascii) (pieces : list string) :
  Py.not_newline c = true ->
  Forall (fun p => all_chars Py.not_newline p = true) pieces ->
  Forall (fun p => all_chars Py.not_newline p = true) (Py.cons_head c pieces).
Proof.
  intros Hc Hp. destruct Hp as [|p ps Hp Hps]; cbn [Py.cons_head].
  - repeat constructor. cbn [all_chars]. now rewrite Hc.
  - constructor; [|exact Hps]. cbn [all_chars]. now rewrite Hc.
Qed.

(** The pieces [re.split] cuts a text into hold no line break when the
    pattern matches at every line break and matches no empty text. *)
Lemma re_split_lines (r : Re.regex) :
  (forall s rest c, Re.match_at r s = Some (rest, c) ->
                    String.length rest < String.length s) ->
  (forall s, Re.match_at r (String Py.LF s) <> None) ->
  forall s skip,
    Forall (fun p => all_chars Py.not_newline p = true) (Re.split_go r skip s).
Proof.
  intros Hpos Hlf. induction s as [|a s IH]; intros skip.
  - destruct skip; cbn [Re.split_go]; [|repeat constructor].
    destruct (Re.match_at r "") as [[rest c]|] eqn:E; [|repeat constructor].
    apply Hpos in E. simpl in E. lia.
  - destruct skip; cbn [Re.split_go]; [|apply IH].
    destruct (Re.match_at r (String a s)) as [[rest c]|] eqn:E.
    + apply Hpos in E.
      destruct (String.length (String a s) - String.length rest) eqn:En; [lia|].
      constructor; [reflexivity | apply IH].
    + apply cons_head_lines; [|apply IH].
      rewrite not_newline_iff. apply negb_true_iff.
      destruct (Ascii.eqb Py.LF a) eqn:Ea; [|reflexivity].
      apply Ascii.eqb_eq in Ea. subst a. now apply Hlf in E.
Qed.

Lemma players_split_lines (s : string) :
  Forall (fun p => all_chars Py.not_newline p = true)
         (Re.split Email.players_split_re s).
Proof.
  unfold Re.split. apply re_split_lines.
  - intros t rest c H. apply match_at_sound in H as (s1 & -> & Hm).
    rewrite length_append.
    change Email.players_split_re
      with (Re.Alt (Re.Rep Re.Greedy 1 (Py.is_char Py.LF))
                   (Re.Rep Re.Greedy 2 Py.is_space)) in Hm.
    cbn [matches] in Hm. destruct Hm as [[_ H]|[_ H]]; lia.
  - intros t. change (String Py.LF t) with (String Py.LF "" ++ t).
    apply match_at_complete.
    change Email.players_split_re
      with (Re.Alt (Re.Rep Re.Greedy 1 (Py.is_char Py.LF))
                   (Re.Rep Re.Greedy 2 Py.is_space)).
    cbn [matches]. left. split; [reflexivity | simpl; lia].
Qed.

(** X13.  [_parse_drop] hands the text through as raw, or returns a list
    of players each of which is not empty, stripped and on one line. *)
Theorem parse_drop_players (text : string) :
  Email._parse_drop text = Ok (Some (Email.RawData text))
  \/ exists players,
       Email._parse_drop text = Ok (Some (Email.DropData players))
       /\ Forall listed_name players.
Proof.
  unfold Email._parse_drop.
  destruct (Re.search Email.drop_re text) as [m|] eqn:E; [right | left; reflexivity].
  destruct (group_strip_ok _ _ _ 1 E eq_refl) as (g1 & Hg1 & ->).
  cbn [mbind result_bind]. eexists. split; [reflexivity|].
  apply strip_nonblank_names, split_NL_lines.
Qed.

Lemma all_chars_drop (q : ascii -> bool) (n : nat) :
  forall s, all_chars q s = true -> all_chars q (Py.drop n s) = true.
Proof.
  induction n as [|n IH]; intros s H; [destruct s; exact H|].
  destruct s as [|c s]; [exact H|]. cbn [Py.drop]. apply IH.
  cbn [all_chars] in H. now apply andb_true_iff in H as [_ H].
Qed.

Lemma after_last_all (q : ascii -> bool) (sep s t : string) :
  all_chars q s = true -> Py.after_last sep s = Some t -> all_chars q t = true.
Proof.
  revert t. induction s as [|c s IH]; intros t Hs H; [discriminate|].
  cbn [Py.after_last] in H.
  assert (Hs' : all_chars q s = true).
  { cbn [all_chars] in Hs. now apply andb_true_iff in Hs as [_ Hs]. }
  destruct (Py.after_last sep s) as [u|].
  - inversion H; subst. now apply IH.
  - destruct (Py.startswith sep (String c s)); [|discriminate].
    inversion H; subst. now apply all_chars_drop.
Qed.

Lemma or_sentinel_clean (sec : option string) :
  or_sentinel sec <> "" /\ Py.strip (or_sentinel sec) = or_sentinel sec.
Proof.
  destruct sec as [cap|]; [|split; [discriminate | reflexivity]].
  unfold or_sentinel. destruct (blank cap) eqn:E; [split; [discriminate | reflexivity]|].
  split; [|apply strip_idem].
  intros H. apply strip_empty_blank in H. congruence.
Qed.

(** X14.  [_parse_trade_block] gives no result, or an offer in which every
    player is not empty, stripped and on one line, the team is stripped
    and on one line, each of the four section fields is stripped and never
    empty, and the comment is stripped. *)
Theorem parse_trade_block_clean (text : string) :
  Email._parse_trade_block text = Ok None
  \/ exists b,
       Email._parse_trade_block text = Ok (Some (Email.BlockData b))
       /\ Forall listed_name (Email.players_offered b)
       /\ Py.strip (Email.team b) = Email.team b
       /\ all_chars Py.not_newline (Email.team b) = true
       /\ Forall (fun field => field <> "" /\ Py.strip field = field)
            [Email.positions_offered b; Email.stats_offered b;
             Email.positions_needed b; Email.stats_needed b]
       /\ Py.strip (Email.comment b) = Email.comment b.
Proof.
  destruct (Re.search Email.team_re text) as [m|] eqn:E.
  2:{ left. unfold Email._parse_trade_block. now rewrite E. }
  right. destruct (group_strip_ok _ _ _ 1 E eq_refl) as (g & Hg & _).
  destruct (search_caps _ _ _ _ _ E Hg) as (r1 & rest & Hb & Hm).
  group_cases Hb. cbn [matches] in Hm. destruct Hm as [Hline _].
  eexists. split; [exact (parse_trade_block_fields text m g E Hg)|].
  cbn [Email.team Email.players_offered Email.positions_offered
       Email.stats_offered Email.positions_needed Email.stats_needed
       Email.comment].
  assert (Hs : all_chars Py.not_newline (Py.strip g) = true)
    by now apply all_chars_strip.
  split; [apply strip_nonblank_names, players_split_lines|].
  split.
  { destruct (Py.contains " - " (Py.strip g)); apply strip_idem. }
  split.
  { destruct (Py.contains " - " (Py.strip g)); [|exact Hs].
    apply all_chars_strip. unfold Py.rsplit1_last.
    destruct (Py.after_last " - " (Py.strip g)) as [t|] eqn:Ea; [|exact Hs].
    eapply after_last_all; eassumption. }
  split.
  { repeat constructor; apply or_sentinel_clean. }
  unfold comment_text.
  destruct (find_first "Comment:" text) as [[a post]|]; [|reflexivity].
  destruct (find_first "Note that" post) as [[cap tail]|]; apply strip_idem.
Qed.

(** ** The entry point of the transactions service *)

(** X17.  How [main] answers a request, by the JSON it carries.  An object
    whose "action" is "renew_watch" is a renewal, whether or not it also
    has a "message": the answer is 200 with the expiration, or 500 with
    the text of the failure, and the mailbox is not touched.  Any other
    object with a "message" is answered 200 whatever fails while the
    message is decoded and the mail processed.  An object with neither,
    and every JSON that counts as false (null, false, 0, the empty string,
    list or object), is answered 400.  Any other JSON (a non-empty list or
    string, a number, true) makes [main] raise [AttributeError]. *)
Theorem main_routes
    (not_iterable bad_index : Transactions.json -> string)
    (soup : string -> list Email.node)
    (urlsafe_b64decode_utf8 : string -> result string)
    (_get_gmail_service : string -> result Email.service)
    (watch_service : string -> result GmailWatch.service)
    (b64decode_utf8 : Transactions.json -> result string)
    (json_loads : string -> result Transactions.json)
    (project credentials tx_url tb_url : option string)
    (request_json : Transactions.json)
    (st : trace * list Email.processed_entry) :
  let main :=
    Transactions.main not_iterable bad_index soup urlsafe_b64decode_utf8
      _get_gmail_service watch_service b64decode_utf8 json_loads
      project credentials tx_url tb_url in
  match request_json with
  | Transactions.JDict items =>
      if match Email.assoc "action" items with
         | Some action => Transactions.is_str "renew_watch" action
         | None => false
         end
      then
        main request_json st
        = (Ok match GmailWatch.renew_gmail_watch watch_service credentials project with
              | Ok response =>
                  (Transactions.Renewed (GmailWatch.expiration response), 200%Z)
              | Raise e => (Transactions.RenewalFailed (str_exn e), 500%Z)
              end, st)
      else
        match Email.assoc "message" items with
        | Some _ =>
            exists b st',
              main request_json st = (Ok (b, 200%Z), st')
              /\ ((exists result, b = Transactions.Processed result)
                  \/ exists error, b = Transactions.ProcessingFailed error)
        | None =>
            main request_json st = (Ok (Transactions.InvalidRequest, 400%Z), st)
        end
  | _ =>
      if Transactions.truthy request_json
      then main request_json st = (Raise AttributeError, st)
      else main request_json st = (Ok (Transactions.InvalidRequest, 400%Z), st)
  end.
Proof.
  cbv zeta. unfold Transactions.main.
  destruct request_json as [|b|z|s|l|items];
    try (cbn; reflexivity);
    try (destruct (Transactions.truthy _) eqn:E;
         unfold Transactions.wants_renewal, Transactions.has_message;
         rewrite E; reflexivity).
  destruct items as [|item items].
  { reflexivity. }
  unfold Transactions.wants_renewal, Transactions.has_message.
  cbn [Transactions.truthy Transactions.get mbind result_bind].
  unfold mbind at 1. unfold M_bind at 1. unfold lift at 1.
  destruct (match Email.assoc "action" (item :: items) with
            | Some action => Transactions.is_str "renew_watch" action
            | None => false
            end).
  { destruct (GmailWatch.renew_gmail_watch watch_service credentials project);
      reflexivity. }
  unfold mbind at 1. unfold M_bind at 1. unfold lift at 1.
  cbn [Transactions.contains_key].
  destruct (Email.assoc "message" (item :: items)) as [v|]; [|reflexivity].
  unfold mbind at 1. unfold M_bind at 1. unfold lift at 1.
  unfold catch.
  match goal with
  | |- exists b st', (let (r, st1) := ?run in _) = _ /\ _ =>
      destruct run as [[[b c]|e] st1] eqn:Erun
  end.
  - assert (c = 200%Z /\ exists result, b = Transactions.Processed result) as [-> Hb].
    { revert Erun. unfold mbind, M_bind, lift, mret, M_ret.
      repeat match goal with
             | |- context [match ?x with _ => _ end] => destruct x
             end; intros H; inversion H; subst; eauto. }
    eauto.
  - unfold mret, M_ret. eauto 6.
Qed.

(** ** The dedup record, written and read back *)

(** X4.  After [mark_video_posted] for a highlight, [has_posted_video]
    answers true for its URL under the same date; the record holds the
    URL, title and description, and its expiry is the time of the clock
    plus two days;
    no call is issued; and the answer for every other date or document id
    is what it was before, so a video recorded under one date is not known
    under another. *)
Theorem mark_then_has_posted (doc_id : string -> string) (now : Z)
    (date : string) (h : Dingers.highlight) (t : trace) (docs : Dingers.store) :
  let st' := snd (Dingers.mark_video_posted doc_id now date h (t, docs)) in
  fst st' = t
  /\ fst (Dingers.has_posted_video doc_id date (Dingers.video_url h) st') = Ok true
  /\ snd st' !! (date, doc_id (Dingers.video_url h))
     = Some (Dingers.VideoDoc (Dingers.video_url h) (Dingers.title h)
               (Dingers.description h) now (now + 172800))
  /\ (forall date' url',
        date' <> date \/ doc_id url' <> doc_id (Dingers.video_url h) ->
        fst (Dingers.has_posted_video doc_id date' url' st')
        = fst (Dingers.has_posted_video doc_id date' url' (t, docs))).
Proof.
  cbv zeta. unfold Dingers.mark_video_posted, get_state, put_state, mbind, M_bind.
  cbn [fst snd]. rewrite !has_posted_video_spec. cbn [fst snd].
  rewrite lookup_insert_eq.
  split; [reflexivity|]. split; [reflexivity|]. split; [reflexivity|].
  intros date' url' Hne. rewrite !has_posted_video_spec. cbn [fst].
  rewrite lookup_insert_ne; [reflexivity|].
  intros H. inversion H; subst. destruct Hne as [Hne|Hne]; now apply Hne.
Qed.

(** ** The HTML body of a message *)

(** X10.  [_extract_html_body] looks at the payload itself and then at its
    parts, in order, and takes the first whose type is text/html and whose
    data is not empty: it returns the decoded data of that part, raises
    what decoding it raises without trying a later part, and returns
    nothing when there is no such part. *)
Theorem extract_html_body_first (b64decode_utf8 : string -> result string)
    (m : Email.message) :
  Email._extract_html_body b64decode_utf8 m
  = match List.find
            (fun p => String.eqb (Email.part_mimeType p) "text/html"
                      && negb (String.eqb (Email.part_data p) ""))
            (Email.payload m :: Email.parts m) with
    | Some p =>
        match b64decode_utf8 (Email.part_data p) with
        | Ok html => Ok (Some html)
        | Raise e => Raise e
        end
    | None => Ok None
    end.
Proof.
  unfold Email._extract_html_body.
  induction (Email.payload m :: Email.parts m) as [|p l IH]; [reflexivity|].
  cbn [Email.first_html List.find]. unfold Email.part_html.
  destruct (String.eqb (Email.part_mimeType p) "text/html"); [|exact IH].
  destruct (Email.part_data p) as [|c d] eqn:E; [exact IH|].
  cbn [String.eqb negb andb]. rewrite ?E.
  destruct (b64decode_utf8 (String c d)); reflexivity.
Qed.

(** ** The order of the fetches *)

Lemma fetched_app (a b : trace) : fetched (a ++ b)%list = (fetched a ++ fetched b)%list.
Proof. unfold fetched. apply flat_map_app. Qed.

(** X9.  A pass over the listed messages never raises and fetches every
    listed message exactly once, in the order of the listing, whatever the
    fetches, the parsing, the posts and the archive calls do. *)
Theorem process_all_fetches_in_order
    (soup : string -> list Email.node) (b64decode_utf8 : string -> result string)
    (svc : Email.service) (tx_url tb_url : option string)
    (messages : list string) (st : trace * list Email.processed_entry) :
  exists evs p,
    Email.process_all soup b64decode_utf8 svc tx_url tb_url messages st
    = (Ok tt, ((fst st ++ evs)%list, p))
    /\ fetched evs = messages.
Proof.
  revert st. induction messages as [|msg_id rest IH]; intros st.
  - exists [], (snd st). rewrite app_nil_r. destruct st. split; reflexivity.
  - cbn [Email.process_all]. unfold mbind at 1. unfold M_bind at 1.
    rewrite process_one_cases.
    destruct (process_single_message_log soup b64decode_utf8 svc tx_url tb_url msg_id st)
      as (r & evs & -> & Hevs).
    assert (Hf : fetched evs = [msg_id]) by (destruct Hevs as [->|(u & c & ->)]; reflexivity).
    assert (Hgo : forall evs1 p1,
               fetched evs1 = [msg_id] ->
               exists evs' p,
                 Email.process_all soup b64decode_utf8 svc tx_url tb_url rest
                   ((fst st ++ evs1)%list, p1)
                 = (Ok tt, ((fst st ++ evs')%list, p))
                 /\ fetched evs' = msg_id :: rest).
    { intros evs1 p1 H1. destruct (IH ((fst st ++ evs1)%list, p1)) as (evs2 & p2 & -> & H2).
      exists (evs1 ++ evs2)%list, p2. cbn [fst]. rewrite app_assoc. split; [reflexivity|].
      rewrite fetched_app, H1, H2. reflexivity. }
    destruct r as [result|e]; cbv zeta.
    + destruct (Email.messages_modify svc _ msg_id) as [[]|e];
        rewrite <- app_assoc; apply Hgo; rewrite fetched_app, Hf; reflexivity.
    + rewrite <- app_assoc. apply Hgo. rewrite fetched_app, Hf. reflexivity.
Qed.

(** ** The details of a trade *)

Lemma first_occurrence_past_blank (lbl : string) (x : ascii) (w t pre post : string) :
  Py.is_space x = false -> blank w = true ->
  first_occurrence (String x lbl) (w ++ t) pre post ->
  exists cap, pre = w ++ cap /\ first_occurrence (String x lbl) t cap post.
Proof.
  intros Hx. revert pre. induction w as [|c w IH]; intros pre Hw Hf.
  - exists pre. split; [reflexivity | exact Hf].
  - unfold blank in Hw. cbn [all_chars] in Hw. apply andb_true_iff in Hw as [Hc Hw].
    destruct Hf as [Heq Hmin].
    destruct pre as [|c' pre].
    + change ("" ++ String x lbl ++ post) with (String x (lbl ++ post)) in Heq.
      change (String c w ++ t) with (String c (w ++ t)) in Heq.
      inversion Heq; subst. congruence.
    + change (String c' pre ++ String x lbl ++ post)
        with (String c' (pre ++ String x lbl ++ post)) in Heq.
      change (String c w ++ t) with (String c (w ++ t)) in Heq.
      inversion Heq; subst c'.
      destruct (IH pre Hw) as (cap & -> & Hcap).
      { split; [assumption|]. intros pre' post' Hdec.
        specialize (Hmin (String c pre') post').
        change (String c w ++ t) with (String c (w ++ t)) in Hmin.
        rewrite Hdec in Hmin. specialize (Hmin eq_refl). simpl in Hmin. lia. }
      exists cap. split; [reflexivity | exact Hcap].
Qed.

Lemma match_executed (w cap post : string) :
  blank w = true -> starts_inked (cap ++ "Note that you can adjust" ++ post) ->
  first_occurrence "Note that you can adjust"
    (cap ++ "Note that you can adjust" ++ post) cap post ->
  Re.match_at Email.executed_re
    ("has been executed." ++ w ++ cap ++ "Note that you can adjust" ++ post)
  = Some (post, Re.set_cap 1 cap Re.no_caps).
Proof.
  intros Hw Hs Hf. unfold Re.match_at, Email.executed_re. cbn [Re.cat Re.rmatch].
  rewrite startswith_append, drop_append.
  apply rep_greedy_all; [exact Hw | | | lia].
  - destruct (cap ++ "Note that you can adjust" ++ post); [exact I | exact Hs].
  - cbv beta. apply rep_lazy_until with (n := 0); [apply all_any | | lia |].
    + cbv beta. rewrite startswith_append, drop_append, take_captured. reflexivity.
    + intros a b Hab Hb _. cbv beta.
      now rewrite (first_occurrence_before _ _ _ _ _ Hf Hab Hb).
Qed.

(** The trade pattern finds the text between the first "has been
    executed." and the first "Note that you can adjust" after it. *)
Lemma search_executed (text : string) :
  Email.group1_or_empty (Re.search Email.executed_re text)
  = Ok match section_text "has been executed." "Note that you can adjust" text with
       | Some cap => Py.strip cap
       | None => ""
       end
  /\ (Re.search Email.executed_re text = None
      <-> section_text "has been executed." "Note that you can adjust" text = None).
Proof.
  change Email.executed_re
    with (Re.Cat (Re.Lit "has been executed.")
            (Re.Cat (Re.Rep Re.Greedy 0 Py.is_space)
               (Re.Cat (Re.Grp 1 (Re.Rep Re.Lazy 0 Py.any_char))
                       (Re.Lit "Note that you can adjust")))).
  unfold section_text.
  destruct (find_first "has been executed." text) as [[a region]|] eqn:E1.
  - apply find_first_spec in E1. pose proof E1 as [-> _].
    rewrite search_from_first by exact E1.
    destruct (find_first "Note that you can adjust" region) as [[pre post]|] eqn:E2.
    + apply find_first_spec in E2.
      destruct (span_class Py.is_space region) as (w & t & -> & Hw & Ht).
      destruct (first_occurrence_past_blank "ote that you can adjust" "N" w t pre post
                  eq_refl Hw E2) as (cap & -> & Hcap).
      pose proof Hcap as [-> _].
      assert (Hm := match_executed w cap post Hw Ht Hcap).
      change Email.executed_re
        with (Re.Cat (Re.Lit "has been executed.")
                (Re.Cat (Re.Rep Re.Greedy 0 Py.is_space)
                   (Re.Cat (Re.Grp 1 (Re.Rep Re.Lazy 0 Py.any_char))
                           (Re.Lit "Note that you can adjust")))) in Hm.
      rewrite (search_hit _ _ _ _ Hm). split.
      * unfold Email.group1_or_empty, group_strip, Re.set_cap. cbn.
        now rewrite strip_blank_prefix.
      * split; discriminate.
    + apply find_first_none in E2.
      match goal with
      | |- Email.group1_or_empty ?x = _ /\ _ => destruct x eqn:E
      end; [exfalso | split; [reflexivity | split; reflexivity]].
      assert (Hs : Re.search
                     (Re.Cat (Re.Lit "has been executed.")
                        (Re.Cat (Re.Rep Re.Greedy 0 Py.is_space)
                           (Re.Cat (Re.Grp 1 (Re.Rep Re.Lazy 0 Py.any_char))
                                   (Re.Lit "Note that you can adjust"))))
                     ("has been executed." ++ region) <> None) by congruence.
      apply search_iff in Hs as (pre & s1 & s2 & Hdec & Hm).
      cbn [matches] in Hm.
      destruct Hm as (x & y & -> & -> & w & z & -> & _ & u & v & -> & _ & ->).
      assert (Hd : "has been executed." ++ region
                   = (pre ++ "has been executed." ++ w ++ u)
                     ++ "Note that you can adjust" ++ s2)
        by (rewrite Hdec, !append_assoc; reflexivity).
      apply append_suffix in Hd as [q ->]; [|rewrite !length_append; simpl; lia].
      assert (Hc : Py.contains "Note that you can adjust"
                     (q ++ "Note that you can adjust" ++ s2) = true)
        by (apply contains_iff; eauto).
      congruence.
  - apply find_first_none in E1. rewrite search_lit_absent by exact E1.
    split; [reflexivity | split; reflexivity].
Qed.

(** X16.  [_parse_trade] gives no result when the document has no content
    container, or when the text of the container, normalised line by line,
    has no "has been executed." with a "Note that you can adjust" after
    it.  Otherwise the details are the text between the first "has been
    executed." and the first "Note that you can adjust" after it, stripped,
    with every stretch from "You can click here to go to" to the end of its
    line taken out by [re.sub], and stripped again. *)
Theorem parse_trade_details (soup : string -> list Email.node) (html : string) :
  Email._parse_trade soup html
  = Ok match Email.find_class "darkmode-text" (soup html) with
       | None => None
       | Some content_div =>
           match section_text "has been executed." "Note that you can adjust"
                   (Email.trade_text content_div) with
           | None => None
           | Some cap =>
               Some (Email.TradeData
                       (Py.strip (Re.sub Email.click_here_re "" (Py.strip cap))))
           end
       end.
Proof.
  unfold Email._parse_trade.
  destruct (Email.find_class "darkmode-text" (soup html)) as [div|]; [|reflexivity].
  destruct (search_executed (Email.trade_text div)) as [Hg Hnone].
  destruct (Re.search Email.executed_re (Email.trade_text div)) as [m|] eqn:E.
  - destruct (section_text _ _ (Email.trade_text div)) as [cap|] eqn:Es.
    + unfold Email.group1_or_empty in Hg. rewrite Hg. reflexivity.
    + destruct Hnone as [_ H]. specialize (H eq_refl). discriminate.
  - destruct Hnone as [H _]. now rewrite (H eq_refl).
Qed.

(** ** A draft pick, piece by piece *)

Lemma head_not_blank_then (p : ascii -> bool) (w : string) (c : ascii) (t : string) :
  blank w = true -> (forall a, Py.is_space a = true -> p a = false) -> p c = false ->
  head_not p (w ++ String c t).
Proof.
  intros Hw Hp Hc. destruct w as [|a w]; [exact Hc|].
  unfold blank in Hw. cbn [all_chars] in Hw. apply andb_true_iff in Hw as [Ha _].
  exact (Hp a Ha).
Qed.

Lemma head_not_append (p : ascii -> bool) (s t : string) :
  s <> "" -> head_not p s -> head_not p (s ++ t).
Proof. destruct s; [contradiction | auto]. Qed.

Lemma head_not_digits (d t : string) :
  d <> "" -> all_chars Py.is_digit d = true -> head_not Py.is_space (d ++ t).
Proof.
  intros Hne Hd. apply head_not_append; [exact Hne|].
  destruct d as [|a d]; [exact I|]. cbn [all_chars] in Hd.
  apply andb_true_iff in Hd as [Ha _]. exact (digit_not_space a Ha).
Qed.

Lemma space_not_digit (a : ascii) : Py.is_space a = true -> Py.is_digit a = false.
Proof.
  intros H. destruct (Py.is_digit a) eqn:E; [|reflexivity].
  apply digit_not_space in E. congruence.
Qed.

(** A blank prefix of a text that begins with a text that is not blank
    ends inside it. *)
Lemma blank_prefix_inside (u v w rest : string) :
  u ++ v = w ++ rest -> blank w = true -> blank u = false ->
  exists u2, u = w ++ u2 /\ u2 <> "" /\ rest = u2 ++ v.
Proof.
  revert u. induction w as [|c w IH]; intros u Heq Hw Hu.
  - exists u. split; [reflexivity|]. split; [|symmetry; exact Heq].
    intros ->. discriminate.
  - unfold blank in Hw. cbn [all_chars] in Hw. apply andb_true_iff in Hw as [Hc Hw].
    destruct u as [|a u]; [discriminate|].
    change (String a u ++ v) with (String a (u ++ v)) in Heq.
    change (String c w ++ rest) with (String c (w ++ rest)) in Heq.
    inversion Heq; subst a.
    unfold blank in Hu. cbn [all_chars] in Hu. rewrite Hc in Hu.
    destruct (IH u H1 Hw Hu) as (u2 & -> & Hne & ->).
    exists u2. auto.
Qed.

Lemma ends_inked_suffix (a b : string) :
  ends_inked (a ++ b) -> b <> "" -> ends_inked b.
Proof.
  induction a as [|c a IH]; [auto|]. intros H Hb.
  change (String c a ++ b) with (String c (a ++ b)) in H. cbn [ends_inked] in H.
  destruct (a ++ b) eqn:E; [|auto].
  destruct a; [destruct b; [contradiction | discriminate] | discriminate].
Qed.

Lemma ends_inked_not_blank (b : string) : ends_inked b -> b <> "" -> blank b = false.
Proof.
  induction b as [|c b IH]; [contradiction|]. intros H _.
  unfold blank. cbn [ends_inked all_chars] in *.
  destruct b as [|d b]; [now rewrite H|].
  fold (blank (String d b)). rewrite IH; [apply andb_false_r | exact H | discriminate].
Qed.

(** A greedy run of white space finds nothing when what follows fails
    after every blank prefix. *)
Lemma greedy_none {R : Type} (n : nat) (s : string) (k : string -> option R) :
  (forall w rest, s = w ++ rest -> blank w = true -> k rest = None) ->
  Re.rep_greedy Py.is_space n s k = None.
Proof.
  intros H.
  match goal with |- ?x = None => destruct x eqn:E; [|reflexivity] end.
  apply rep_greedy_sound in E as (w & rest & -> & Hw & _ & Hk).
  rewrite (H w rest eq_refl Hw) in Hk. discriminate.
Qed.

(** After a blank prefix of a text that begins with a field, what is left
    begins with a stretch of the field that is not empty. *)
Lemma field_after_blank (a b v w rest : string) :
  ends_inked (a ++ b) -> b <> "" -> b ++ v = w ++ rest -> blank w = true ->
  exists u2, b = w ++ u2 /\ u2 <> "" /\ rest = u2 ++ v.
Proof.
  intros He Hb Heq Hw. apply (blank_prefix_inside b v w rest Heq Hw).
  apply ends_inked_not_blank; [|exact Hb]. now apply (ends_inked_suffix a b).
Qed.

Lemma match_draft (w1 w2 w3 w4 w5 w6 w7 w8 w9 d1 d2 player team post : string) :
  draft_spacing [w1; w2; w3; w4; w5; w6; w7; w8; w9] = true ->
  d1 <> "" -> all_chars Py.is_digit d1 = true ->
  d2 <> "" -> all_chars Py.is_digit d2 = true ->
  inked_ends player -> inked_ends team ->
  first_occurrence "was picked by the team"
    (player ++ w7 ++ "was picked by the team" ++ w8 ++ team ++ w9 ++ "." ++ post)
    (player ++ w7) (w8 ++ team ++ w9 ++ "." ++ post) ->
  all_chars (fun c => negb (Ascii.eqb c ".")) team = true ->
  Re.match_at Email.draft_re
    (draft_notice [w1; w2; w3; w4; w5; w6; w7; w8; w9] d1 d2 player team post)
  = Some (post,
          Re.set_cap 4 team
            (Re.set_cap 3 player (Re.set_cap 2 d2 (Re.set_cap 1 d1 Re.no_caps)))).
Proof.
  intros Hws Hd1n Hd1 Hd2n Hd2 (Hpn & Hps & Hpe) (Htn & Hts & Hte) Hfirst Hdot.
  unfold draft_spacing in Hws. cbn [forallb] in Hws.
  rewrite !andb_true_iff, !negb_true_iff, !String.eqb_neq in Hws.
  destruct Hws as (((((B1 & B2 & B3 & B4 & B5 & B6 & B7 & B8 & B9 & _) & N1) & N4) & N7) & N8).
  unfold draft_notice, Re.match_at, Email.draft_re. cbn [Re.cat Re.rmatch].
  rewrite startswith_append, drop_append.
  (* Round\s+ *)
  apply rep_greedy_all;
    [exact B1 | now apply head_not_digits | cbv beta
    | destruct w1; [contradiction | simpl; lia]].
  (* (\d+) *)
  apply rep_greedy_all;
    [exact Hd1
    | apply head_not_blank_then; [exact B2 | exact space_not_digit | reflexivity]
    | cbv beta | destruct d1; [contradiction | simpl; lia]].
  rewrite take_captured.
  (* \s*, *)
  apply rep_greedy_all; [exact B2 | reflexivity | cbv beta | lia].
  rewrite startswith_append, drop_append.
  (* \s*Pick *)
  apply rep_greedy_all; [exact B3 | reflexivity | cbv beta | lia].
  rewrite startswith_append, drop_append.
  (* \s+(\d+) *)
  apply rep_greedy_all;
    [exact B4 | now apply head_not_digits | cbv beta
    | destruct w4; [contradiction | simpl; lia]].
  apply rep_greedy_all;
    [exact Hd2
    | apply head_not_blank_then; [exact B5 | exact space_not_digit | reflexivity]
    | cbv beta | destruct d2; [contradiction | simpl; lia]].
  rewrite take_captured.
  (* \s*: *)
  apply rep_greedy_all; [exact B5 | reflexivity | cbv beta | lia].
  rewrite startswith_append, drop_append.
  (* \s* before the player *)
  apply rep_greedy_all;
    [exact B6 | now apply head_not_append | cbv beta | lia].
  (* (.+?): the player *)
  apply rep_lazy_until with (n := 1);
    [apply all_any | cbv beta | destruct player; [contradiction | simpl; lia] |].
  - (* \s+was picked by the team\s+ *)
    apply rep_greedy_all;
      [exact B7 | reflexivity | cbv beta | destruct w7; [contradiction | simpl; lia]].
    rewrite startswith_append, drop_append.
    apply rep_greedy_all;
      [exact B8 | now apply head_not_append | cbv beta
      | destruct w8; [contradiction | simpl; lia]].
    (* (.+?): the team *)
    apply rep_lazy_until with (n := 1);
      [apply all_any | cbv beta | destruct team; [contradiction | simpl; lia] |].
    + apply rep_greedy_all; [exact B9 | reflexivity | cbv beta | lia].
      rewrite startswith_append, drop_append, !take_captured.
      reflexivity.
    + intros a b Hab Hb _. cbv beta. apply greedy_none. intros w rest Heq Hw.
      subst team.
      destruct (field_after_blank a b _ w rest Hte Hb Heq Hw) as (u2 & -> & Hu2 & ->).
      destruct u2 as [|c u2]; [contradiction|].
      rewrite !all_chars_append in Hdot. cbn [all_chars] in Hdot.
      rewrite !andb_true_iff in Hdot. destruct Hdot as (_ & _ & Hc & _).
      apply negb_true_iff in Hc.
      change (String c u2 ++ w9 ++ "." ++ post) with (String c (u2 ++ w9 ++ "." ++ post)).
      cbn [Py.startswith]. rewrite Ascii.eqb_sym, Hc. reflexivity.
  - intros a b Hab Hb _. cbv beta. apply greedy_none. intros w rest Heq Hw.
    subst player.
    destruct (field_after_blank a b _ w rest Hpe Hb Heq Hw) as (u2 & -> & Hu2 & ->).
    assert (Hmiss : Py.startswith "was picked by the team"
                      ((u2 ++ w7) ++ "was picked by the team"
                       ++ w8 ++ team ++ w9 ++ "." ++ post) = false).
    { apply (first_occurrence_before _ ((a ++ w ++ u2) ++ w7) _ (a ++ w) (u2 ++ w7)).
      - rewrite <- (append_assoc (a ++ w ++ u2) w7) in Hfirst.
        rewrite !append_assoc in *. exact Hfirst.
      - now rewrite !append_assoc.
      - destruct u2; [contradiction | discriminate]. }
    rewrite append_assoc in Hmiss. now rewrite Hmiss.
Qed.

(** X18.  A draft notice read back.  On a text whose first "Round" begins
    a notice of the form
    "Round <round>, Pick <pick>: <player> was picked by the team <team>."
    (white space where the pattern allows it, round and pick in decimal
    digits, player and team not empty and without white space at their
    ends, "was picked by the team" not occurring earlier after the colon,
    and no full stop in the team), [_parse_draft] returns the round and the
    pick as they stand and the player and the team with every run of white
    space inside them turned into one space. *)
Theorem parse_draft_notice
    (pre w1 w2 w3 w4 w5 w6 w7 w8 w9 round pick player team post : string) :
  let notice :=
    draft_notice [w1; w2; w3; w4; w5; w6; w7; w8; w9] round pick player team post in
  (forall pre' post', pre ++ notice = pre' ++ "Round" ++ post' ->
                      String.length pre <= String.length pre') ->
  draft_spacing [w1; w2; w3; w4; w5; w6; w7; w8; w9] = true ->
  round <> "" -> all_chars Py.is_digit round = true ->
  pick <> "" -> all_chars Py.is_digit pick = true ->
  inked_ends player -> inked_ends team ->
  first_occurrence "was picked by the team"
    (player ++ w7 ++ "was picked by the team" ++ w8 ++ team ++ w9 ++ "." ++ post)
    (player ++ w7) (w8 ++ team ++ w9 ++ "." ++ post) ->
  all_chars (fun c => negb (Ascii.eqb c ".")) team = true ->
  Email._parse_draft (pre ++ notice)
  = Ok (Some (Email.DraftData round pick (Email.squeeze player) (Email.squeeze team))).
Proof.
  intros notice Hmin Hws Hrn Hr Hpn Hp Hplayer Hteam Hfirst Hdot.
  pose proof (match_draft w1 w2 w3 w4 w5 w6 w7 w8 w9 round pick player team post
                Hws Hrn Hr Hpn Hp Hplayer Hteam Hfirst Hdot) as Hm.
  fold notice in Hm.
  assert (Hs : Re.search Email.draft_re (pre ++ notice)
               = Some (Re.set_cap 4 team
                         (Re.set_cap 3 player
                            (Re.set_cap 2 pick (Re.set_cap 1 round Re.no_caps))))).
  { revert Hm Hmin. unfold notice, draft_notice.
    set (tail := w1 ++ round ++ w2 ++ "," ++ w3 ++ "Pick" ++ w4 ++ pick ++ w5
                 ++ ":" ++ w6 ++ player ++ w7 ++ "was picked by the team" ++ w8
                 ++ team ++ w9 ++ "." ++ post).
    intros Hm Hmin.
    change Email.draft_re
      with (Re.Cat (Re.Lit "Round")
              (Re.cat (List.tl [Re.Lit "Round"; Re.Rep Re.Greedy 1 Py.is_space;
          Re.Grp 1 (Re.Rep Re.Greedy 1 Py.is_digit);
          Re.Rep Re.Greedy 0 Py.is_space; Re.Lit ","; Re.Rep Re.Greedy 0 Py.is_space;
          Re.Lit "Pick"; Re.Rep Re.Greedy 1 Py.is_space;
          Re.Grp 2 (Re.Rep Re.Greedy 1 Py.is_digit);
          Re.Rep Re.Greedy 0 Py.is_space; Re.Lit ":"; Re.Rep Re.Greedy 0 Py.is_space;
          Re.Grp 3 (Re.Rep Re.Lazy 1 Py.any_char); Re.Rep Re.Greedy 1 Py.is_space;
          Re.Lit "was picked by the team"; Re.Rep Re.Greedy 1 Py.is_space;
          Re.Grp 4 (Re.Rep Re.Lazy 1 Py.any_char); Re.Rep Re.Greedy 0 Py.is_space;
          Re.Lit "."]))) in *.
    rewrite search_from_first by (split; [reflexivity | exact Hmin]).
    exact (search_hit _ _ _ _ Hm). }
  unfold Email._parse_draft. rewrite Hs.
  unfold group_strip, Re.set_cap. cbn [Nat.eqb mbind result_bind].
  destruct Hplayer as (_ & Hps & Hpe). destruct Hteam as (_ & Hts & Hte).
  rewrite (inked_strip player Hps Hpe), (inked_strip team Hts Hte).
  rewrite (digits_fixed round Hr), (digits_fixed pick Hp). reflexivity.
Qed.

(** A notice with two spaces inside the player: round 3, pick 17. *)
Lemma parse_draft_notice_trout :
  Email._parse_draft
    "Draft update. Round 3, Pick 17: Trout,  Mike was picked by the team Grand Salamis. Thanks"
  = Ok (Some (Email.DraftData "3" "17" "Trout, Mike" "Grand Salamis")).
Proof.
  pose proof (parse_draft_notice "Draft update. " " " "" " " " " "" " " " " " " ""
                "3" "17" "Trout,  Mike" "Grand Salamis" " Thanks") as H.
  cbv zeta in H.
  assert (Hmin : forall pre' post',
             "Draft update. "
             ++ draft_notice [" "; ""; " "; " "; ""; " "; " "; " "; ""]
                  "3" "17" "Trout,  Mike" "Grand Salamis" " Thanks"
             = pre' ++ "Round" ++ post' ->
             String.length "Draft update. " <= String.length pre').
  { apply (find_first_spec "Round" _ "Draft update. "
             " 3, Pick 17: Trout,  Mike was picked by the team Grand Salamis. Thanks").
    reflexivity. }
  assert (Hr : "3" <> "") by discriminate.
  assert (Hp : "17" <> "") by discriminate.
  assert (Hplayer : inked_ends "Trout,  Mike")
    by (split; [discriminate | split; reflexivity]).
  assert (Hteam : inked_ends "Grand Salamis")
    by (split; [discriminate | split; reflexivity]).
  specialize (H Hmin eq_refl Hr eq_refl Hp eq_refl Hplayer Hteam).
  etransitivity; [apply H; [|reflexivity]|reflexivity].
  apply (find_first_spec "was picked by the team"). reflexivity.
Defined.

(** ** Home-run highlights, by their spelling *)

Lemma lower_char_letter (c p : ascii) :
  Nat.ltb (nat_of_ascii p) 128 && negb (Py.is_upper_az p) = true ->
  Py.lower_char c = p <-> same_letter c p.
Proof.
  intros Hp. apply andb_true_iff in Hp as [Hlt Hup].
  apply Nat.ltb_lt in Hlt. apply negb_true_iff in Hup.
  unfold Py.is_upper_az, Py.between, Py.code in Hup.
  unfold Py.lower_char, same_letter, Py.between, Py.code.
  pose proof (nat_ascii_bounded c) as Hc.
  destruct ((65 <=? nat_of_ascii c)%nat && (nat_of_ascii c <=? 90)%nat) eqn:Eaz.
  - cbn [orb]. apply andb_true_iff in Eaz as [H1 H2].
    apply Nat.leb_le in H1, H2. split.
    + intros <-. right. split; [lia|]. apply nat_ascii_embedding. lia.
    + intros [->|[_ H]].
      * rewrite (proj2 (Nat.leb_le _ _) H1), (proj2 (Nat.leb_le _ _) H2) in Hup.
        discriminate.
      * rewrite <- H. apply ascii_nat_embedding.
  - cbn [orb].
    destruct ((192 <=? nat_of_ascii c)%nat && (nat_of_ascii c <=? 222)%nat
              && negb (nat_of_ascii c =? 215)%nat) eqn:Eacc.
    + apply andb_true_iff in Eacc as [Eacc _].
      apply andb_true_iff in Eacc as [H1 H2]. apply Nat.leb_le in H1, H2. split.
      * intros <-. rewrite nat_ascii_embedding in Hlt by lia. lia.
      * intros [->|[[H3 H4] _]]; lia.
    + split; [intros ->; now left|].
      intros [->|[[H1 H2] _]]; [reflexivity|].
      apply Nat.leb_le in H1, H2. rewrite H1, H2 in Eaz. discriminate.
Qed.

Lemma lower_spells (phrase u : string) :
  plain phrase = true -> Py.lower u = phrase <-> spells u phrase.
Proof.
  unfold plain. revert u. induction phrase as [|p phrase IH]; intros u Hp.
  - destruct u; cbn [Py.lower spells]; split; try tauto; discriminate.
  - cbn [all_chars] in Hp. apply andb_true_iff in Hp as [Hp Hrest].
    destruct u as [|c u]; cbn [Py.lower spells]; [split; [discriminate | tauto]|].
    rewrite <- (IH u Hrest), <- (lower_char_letter c p Hp). split.
    + intros H. inversion H; subst. auto.
    + intros [-> ->]. reflexivity.
Qed.

Lemma icontains_mentions (phrase text : string) :
  plain phrase = true -> icontains phrase text <-> mentions phrase text.
Proof.
  intros Hp. unfold icontains, mentions. split.
  - intros (pre & u & post & H & Hu). exists pre, u, post.
    split; [exact H|]. now apply lower_spells.
  - intros (pre & u & post & H & Hu). exists pre, u, post.
    split; [exact H|]. now apply lower_spells.
Qed.

Lemma is_hr_mentions (title description : string) :
  Dingers.is_hr title description = true
  <-> mentions "homer" title \/ mentions "home run" title
      \/ mentions "homer" description \/ mentions "home run" description.
Proof.
  rewrite is_hr_iff.
  rewrite !(icontains_mentions "homer") by reflexivity.
  rewrite !(icontains_mentions "home run") by reflexivity. tauto.
Qed.

(** ** The pieces of a split *)

Lemma split_go_skip_drop (sep : string) (n : nat) (s : string) :
  n <= String.length s ->
  Py.split_go sep n s = Py.split_go sep 0 (Py.drop n s).
Proof.
  revert n. induction s as [|c s IH]; intros n Hn.
  - destruct n; [reflexivity | simpl in Hn; lia].
  - destruct n as [|n]; [reflexivity|].
    cbn [Py.split_go Py.drop]. apply IH. simpl in Hn. lia.
Qed.

Lemma split_go_first (sep : string) (s : string) :
  sep <> "" ->
  Py.split_go sep 0 s
  = match find_first sep s with
    | Some (a, b) => a :: Py.split_go sep 0 b
    | None => [s]
    end.
Proof.
  intros Hsep. induction s as [|c s IH].
  - cbn [Py.split_go find_first]. destruct sep; [contradiction | reflexivity].
  - cbn [Py.split_go find_first].
    destruct (Py.startswith sep (String c s)) eqn:E.
    + f_equal. destruct sep as [|a sep]; [contradiction|].
      cbn [String.length Py.drop].
      replace (S (String.length sep) - 1) with (String.length sep) by lia.
      apply split_go_skip_drop.
      apply startswith_inv in E as [t Ht]. inversion Ht; subst.
      rewrite length_append. lia.
    + rewrite IH. destruct (find_first sep s) as [[a b]|]; reflexivity.
Qed.

Lemma find_first_shorter (sep s a b : string) :
  find_first sep s = Some (a, b) -> sep <> "" -> String.length b < String.length s.
Proof.
  intros H Hsep. apply find_first_spec in H as [-> _].
  rewrite !length_append. destruct sep; [contradiction | simpl; lia].
Qed.

Lemma find_first_occurs (sep s : string) :
  find_first sep s = None <-> ~ occurs sep s.
Proof.
  split.
  - intros H (pre & post & Hs). apply find_first_none in H.
    assert (Py.contains sep s = true) by (apply contains_iff; eauto). congruence.
  - intros H. destruct (find_first sep s) as [[a b]|] eqn:E; [|reflexivity].
    exfalso. apply H. apply find_first_spec in E as [-> _]. exists a, b. reflexivity.
Qed.

Lemma first_occurrence_found (sep x rest : string) :
  first_occurrence sep (x ++ sep ++ rest) x rest ->
  find_first sep (x ++ sep ++ rest) = Some (x, rest).
Proof.
  intros Hf.
  assert (H : forall a b, x = a ++ b ->
            find_first sep (b ++ sep ++ rest) = Some (b, rest)).
  { intros a b. revert a. induction b as [|c b IH]; intros a Hab.
    - change ("" ++ sep ++ rest) with (sep ++ rest).
      destruct (sep ++ rest) eqn:E; cbn [find_first]; rewrite <- E;
        rewrite startswith_append, drop_append; reflexivity.
    - change (String c b ++ sep ++ rest) with (String c (b ++ sep ++ rest)).
      cbn [find_first].
      change (String c (b ++ sep ++ rest)) with (String c b ++ sep ++ rest).
      rewrite (first_occurrence_before _ _ _ _ _ Hf Hab) by discriminate.
      rewrite (IH (a ++ String c "")); [reflexivity|].
      rewrite Hab, append_assoc. reflexivity. }
  apply (H "" x). reflexivity.
Qed.

(** [str.split] gives the pieces, and nothing else is the pieces. *)
Lemma split_pieces (sep s : string) (l : list string) :
  sep <> "" -> pieces sep s l <-> Py.split sep s = l.
Proof.
  intros Hsep. unfold Py.split. split.
  - intros H. induction H as [s Hno|x rest l Hf _ IH].
    + rewrite split_go_first by assumption.
      now rewrite (proj2 (find_first_occurs sep s) Hno).
    + rewrite split_go_first by assumption.
      rewrite (first_occurrence_found _ _ _ Hf). now rewrite IH.
  - intros <-. remember (String.length s) as n eqn:Hn.
    revert s Hn. induction n as [n IH] using lt_wf_ind. intros s ->.
    rewrite split_go_first by assumption.
    destruct (find_first sep s) as [[a b]|] eqn:E.
    + pose proof (find_first_spec _ _ _ _ E) as Hf.
      pose proof (find_first_shorter _ _ _ _ E Hsep) as Hlen.
      destruct Hf as [Hs Hmin]. subst s.
      apply pieces_cut; [split; [reflexivity | exact Hmin]|].
      apply (IH _ Hlen). reflexivity.
    + apply pieces_whole. now apply find_first_occurs.
Qed.

(** C8.  A highlight is returned for a game exactly when the feed of the
    game was fetched and one of its entries (the pieces of the feed between
    empty lines) has at least three lines, the first three being the
    title, the description and the video URL of the highlight, and the
    title or the description mentions "homer" or "home run" in whatever
    letter case; entries that mention neither in either field are left
    out.  On a feed of six entries the two home runs are returned, in
    the order of the feed, with their own spelling: "HOMERS" in a title
    and "Home Run" in a description count, "Home-run" and "home  run"
    (two spaces) do not, and an entry of two lines is passed over even
    though it names a home run. *)
Theorem extract_hr_highlights_iff
    (game_highlights : Z -> result string) (game_id : Z) (h : Dingers.highlight) :
  (In h (Dingers.extract_hr_highlights game_highlights game_id)
   <-> exists text entries entry t d u rest,
         game_highlights game_id = Ok text
         /\ pieces (NL ++ NL) text entries
         /\ In entry entries
         /\ pieces NL entry (t :: d :: u :: rest)
         /\ h = Dingers.Highlight t d u game_id
         /\ (mentions "homer" t \/ mentions "home run" t
             \/ mentions "homer" d \/ mentions "home run" d))
  /\ Dingers.extract_hr_highlights (fun _ => Ok mixed_feed) 7
     = [Dingers.Highlight "Judge HOMERS to left" "A solo shot" "https://v/1" 7;
        Dingers.Highlight "Alonso goes deep" "His 30th Home Run" "https://v/3" 7]
  /\ Dingers.extract_hr_highlights (fun _ => Ok "") 7 = []
  /\ Dingers.extract_hr_highlights (fun _ => Raise (OtherError "no feed")) 7 = [].
Proof.
  split; [|repeat split; vm_compute; reflexivity].
  unfold Dingers.extract_hr_highlights.
  destruct (game_highlights game_id) as [text|e].
  - rewrite hr_of_entries_In. split.
    + intros (entry & t & d & u & rest & Hin & Hs & Hh & Hhr).
      exists text, (Py.split (NL ++ NL) text), entry, t, d, u, rest.
      split; [reflexivity|].
      split; [apply split_pieces; [discriminate | reflexivity]|].
      split; [exact Hin|].
      split; [apply split_pieces; [discriminate | exact Hs]|].
      split; [exact Hh|]. now apply is_hr_mentions.
    + intros (text' & entries & entry & t & d & u & rest
              & Ht & Hp & Hin & Hs & Hh & Hhr).
      inversion Ht; subst text'.
      apply split_pieces in Hp; [|discriminate]. subst entries.
      apply split_pieces in Hs; [|discriminate].
      exists entry, t, d, u, rest. rewrite is_hr_mentions. auto.
  - simpl. split; [tauto|].
    intros (? & ? & ? & ? & ? & ? & ? & Ht & _). discriminate.
Qed.

(** ** The trade-block notice *)

Lemma rstrip_fixed (s : string) : Py.strip s = s -> Py.rstrip s = s.
Proof. intros H. rewrite <- H at 1. unfold Py.strip. rewrite rstrip_idem. exact H. Qed.

Lemma rstrip_line (s : string) :
  s <> "" -> Py.strip s = s -> Py.rstrip (s ++ NL) = s /\ Py.rstrip (s ++ NL) <> "".
Proof.
  intros Hne Hs. rewrite rstrip_append_blank by reflexivity.
  rewrite (rstrip_fixed s Hs). auto.
Qed.

(** A text that begins with two stars and ends in a stripped, non-empty
    text and a newline loses only that newline when stripped. *)
Lemma strip_starred_line (x s : string) :
  s <> "" -> Py.strip s = s ->
  Py.strip (("**" ++ x) ++ s ++ NL) = ("**" ++ x) ++ s.
Proof.
  intros Hne Hs. destruct (rstrip_line s Hne Hs) as [Hr Hr'].
  unfold Py.strip.
  change (("**" ++ x) ++ s ++ NL) with (String "*" (("*" ++ x) ++ s ++ NL)).
  cbn [Py.lstrip]. change (Py.is_space "*") with false. cbv iota.
  change (String "*" (("*" ++ x) ++ s ++ NL)) with (("**" ++ x) ++ s ++ NL).
  rewrite rstrip_append_inked by exact Hr'. now rewrite Hr.
Qed.

Lemma format_trade_block_details (b : Email.trade_block) :
  Email.stats_needed b <> "" ->
  Py.strip (Email.stats_needed b) = Email.stats_needed b ->
  Py.strip (Email.comment b) = Email.comment b ->
  Email._format_trade_block_message (Email.BlockData b) = Ok (block_details b).
Proof.
  intros Hne Hs Hc. unfold Email._format_trade_block_message, block_details.
  cbn [Email.item_list Email.item Email.get_or_empty Email.list_items Email.str_items
       Email.assoc String.eqb Ascii.eqb Bool.eqb mbind result_bind].
  f_equal.
  assert (Hp : exists players,
             match Email.players_offered b with
             | [] => "(none)"
             | _ :: _ => Py.join NL (Email.players_offered b)
             end = players
             /\ match Email.players_offered b with
                | [] => "(none)"
                | p :: l => Py.join NL (p :: l)
                end = players).
  { destruct (Email.players_offered b); eexists; split; reflexivity. }
  destruct Hp as (players & -> & ->).
  pose (R := Email.team b ++ "** updated their trade block" ++ NL ++ NL
             ++ "**Players Offered:**" ++ NL ++ players ++ NL ++ NL
             ++ "**Positions Offered:** " ++ Email.positions_offered b ++ NL
             ++ "**Stats Offered:** " ++ Email.stats_offered b ++ NL
             ++ "**Positions Needed:** " ++ Email.positions_needed b ++ NL
             ++ "**Stats Needed:** ").
  destruct (Email.comment b) as [|c0 c] eqn:Ec.
  - transitivity (Py.strip (("**" ++ R) ++ Email.stats_needed b ++ NL)).
    { f_equal. unfold R. rewrite !append_assoc. reflexivity. }
    rewrite strip_starred_line by assumption.
    unfold R. rewrite !append_assoc, append_nil_r. reflexivity.
  - transitivity (Py.strip (("**" ++ R ++ Email.stats_needed b ++ NL ++ "**Comment:** ")
                            ++ String c0 c ++ NL)).
    { f_equal. unfold R. rewrite !append_assoc. reflexivity. }
    rewrite strip_starred_line by (assumption || discriminate).
    unfold R. rewrite !append_assoc. reflexivity.
Qed.

(** What the trade-block parser hands to the formatter: an offer whose
    last field is never empty, stripped like the comment. *)
Lemma parse_trade_block_ends (text : string) (b : Email.trade_block) :
  Email._parse_trade_block text = Ok (Some (Email.BlockData b)) ->
  Email.stats_needed b <> ""
  /\ Py.strip (Email.stats_needed b) = Email.stats_needed b
  /\ Py.strip (Email.comment b) = Email.comment b.
Proof.
  destruct (Re.search Email.team_re text) as [m|] eqn:E.
  2:{ unfold Email._parse_trade_block. rewrite E. discriminate. }
  destruct (group_strip_ok _ _ _ 1 E eq_refl) as (g & Hg & _).
  rewrite (parse_trade_block_fields text m g E Hg). intros H.
  injection H as <-.
  cbn [Email.stats_needed Email.comment].
  split; [apply or_sentinel_clean|]. split; [apply or_sentinel_clean|].
  unfold comment_text.
  destruct (find_first "Comment:" text) as [[a post]|]; [|reflexivity].
  destruct (find_first "Note that" post) as [[cap tail]|]; apply strip_idem.
Qed.

(** X5.  For every type and every body, parsing returns and formatting
    what it returned succeeds (no key is missing): the message is the
    emoji and title of the type and the details between blank lines.  When
    the parser found nothing the details are empty, and when it handed the
    text through as raw the details are that text, unchanged.  Otherwise
    the details are built from the parsed fields: team and player of a
    claim (its details field is not shown), the dropped players one to a
    line, the team, player, round and pick of a draft, the details of a
    trade as they are, and for a trade block the team, the players one to
    a line or "(none)", the four fields and the comment when it is not
    empty, with no blank line at the end.  Two trade-block notices are
    written out in full. *)
Theorem message_of_parsed (soup : string -> list Email.node)
    (t : Email.transaction_type) (html : string) :
  (exists d details,
    Email.parse_by_type soup t html = Ok d
    /\ Email._format_discord_message t d
       = Ok (match Email.EMOJI t with Some e => e | None => "📋" end
             ++ " **" ++ Email.title_of t ++ "**" ++ NL ++ NL ++ details ++ NL ++ NL)
    /\ (d = None -> details = "")
    /\ (forall raw, d = Some (Email.RawData raw) -> details = raw)
    /\ (forall team player rest,
          d = Some (Email.ClaimData team player rest) ->
          details = "**" ++ team ++ "** claimed " ++ player)
    /\ (forall players,
          d = Some (Email.DropData players) ->
          details = "Players dropped to waivers:" ++ NL ++ Py.join NL players)
    /\ (forall round pick player team,
          d = Some (Email.DraftData round pick player team) ->
          details = "**" ++ team ++ "** drafted **" ++ player ++ "**" ++ NL
                    ++ "Round " ++ round ++ ", Pick " ++ pick)
    /\ (forall text, d = Some (Email.TradeData text) -> details = text)
    /\ (forall b, d = Some (Email.BlockData b) -> details = block_details b))
  /\ Email._format_discord_message Email.BLOCK (Some (Email.BlockData salamis_offer))
     = Ok ("🟦 **A trade block has been updated in The Don Orsillo Open!**" ++ NL
           ++ NL
           ++ "**Grand Salamis** updated their trade block" ++ NL
           ++ NL
           ++ "**Players Offered:**" ++ NL
           ++ "Mike Trout" ++ NL
           ++ "Aaron Judge" ++ NL
           ++ NL
           ++ "**Positions Offered:** OF" ++ NL
           ++ "**Stats Offered:** (None specified)" ++ NL
           ++ "**Positions Needed:** SP, RP" ++ NL
           ++ "**Stats Needed:** K, ERA" ++ NL
           ++ "**Comment:** Open to offers" ++ NL
           ++ NL)
  /\ Email._format_discord_message Email.BLOCK (Some (Email.BlockData bare_offer))
     = Ok ("🟦 **A trade block has been updated in The Don Orsillo Open!**" ++ NL
           ++ NL
           ++ "**Grand Salamis** updated their trade block" ++ NL
           ++ NL
           ++ "**Players Offered:**" ++ NL
           ++ "(none)" ++ NL
           ++ NL
           ++ "**Positions Offered:** (None specified)" ++ NL
           ++ "**Stats Offered:** (None specified)" ++ NL
           ++ "**Positions Needed:** (None specified)" ++ NL
           ++ "**Stats Needed:** (None specified)" ++ NL
           ++ NL).
Proof.
  split; [|split; vm_compute; reflexivity].
  destruct t; cbn [Email.parse_by_type].
  4:{ destruct (parse_trade_block_total (Email._extract_text_content soup html))
        as [H|[b H]]; rewrite H.
      - exists None, "". split; [reflexivity|]. split; [reflexivity|].
        repeat split; intros; try discriminate; reflexivity.
      - destruct (parse_trade_block_ends _ _ H) as (Hne & Hs & Hc).
        exists (Some (Email.BlockData b)), (block_details b).
        split; [reflexivity|]. split.
        { unfold Email._format_discord_message.
          rewrite (format_trade_block_details b Hne Hs Hc). reflexivity. }
        repeat split; intros; try discriminate.
        match goal with
        | H0 : Some _ = Some _ |- _ => inversion H0; subst; reflexivity
        end. }
  all: try parsed_cases soup html.
  all: eexists _, _; (split; [reflexivity|]); (split; [reflexivity|]);
    repeat split; intros; try discriminate;
    match goal with
    | H : Some _ = Some _ |- _ => inversion H; subst; reflexivity
    | _ => reflexivity
    end.
Qed.
